(** * Price-protected limit orders: the order ledger and its price oracle

    A shallow embedding of the two Solidity contracts of the repository,
    [PriceProtectionOracle] and [TransparentOrderProtocol], and of the queue
    helper of the TypeScript demo, followed by the properties of the
    specification that were checked against them.

    Conventions of the embedding.
    - [uint256] values are integers of [Z]; the arithmetic of Solidity 0.8 is
      checked, so every [+], [-], [*], [/] and [**] of the source is one of
      [add], [sub], [mul], [div], [pow] below, which revert with [Panic]
      outside [0 .. 2^256-1] or on a zero divisor.
    - A call either returns or reverts: [result A] is [Ok a] or [Err e].  A
      revert carries no state, it discards every effect of the call, which is
      what the EVM does; [transact] gives the state a transaction leaves.
    - [keccak256(abi.encode(...))] is idealised as an injective map into
      [bytes32] (stdpp's [encode] of the list of encoded words): distinct
      field tuples never collide.
    - Events are not part of the contract storage and are left out. *)

From stdpp Require Import base numbers option list strings gmap sorting.
From Stdlib Require Import ZArith Lia.

Local Open Scope Z_scope.

(** ** Words, errors and checked arithmetic *)

Abbreviation address := Z (only parsing).
Abbreviation bytes32 := Z (only parsing).
Abbreviation uint256 := Z (only parsing).

Definition MAX_UINT256 : Z := 2 ^ 256 - 1.

(** The ways a call can revert: [Revert msg] is [require(c, msg)] failing,
    [Panic] is checked arithmetic (Panic(0x11), Panic(0x12)),
    [ReentrancyGuardReentrantCall] and [SafeERC20FailedOperation] are the
    custom errors of the OpenZeppelin guard and token wrapper, and
    [ExternalCallFailed] is a revert bubbling up from a call that no [catch]
    covers. *)
Inductive error : Type :=
  | Revert (msg : string)
  | Panic
  | ReentrancyGuardReentrantCall
  | SafeERC20FailedOperation
  | ExternalCallFailed.

Inductive result (A : Type) : Type :=
  | Ok (a : A)
  | Err (e : error).
Arguments Ok {A} a.
Arguments Err {A} e.

#[global] Instance result_ret : MRet result := fun A a => Ok a.

#[global] Instance result_bind : MBind result := fun A B k r =>
  match r with
  | Ok a => k a
  | Err e => Err e
  end.

#[global] Instance result_fmap : FMap result := fun A B f r =>
  match r with
  | Ok a => Ok (f a)
  | Err e => Err e
  end.

Definition require (c : bool) (msg : string) : result unit :=
  if c then Ok tt else Err (Revert msg).

(** The state a transaction leaves: the new state when the call returns,
    the old one when it reverts. *)
Definition transact {S : Type} (call : S -> result S) (s : S) : S :=
  match call s with
  | Ok s' => s'
  | Err _ => s
  end.

Definition add (x y : Z) : result Z :=
  if x + y <=? MAX_UINT256 then Ok (x + y) else Err Panic.

Definition sub (x y : Z) : result Z :=
  if y <=? x then Ok (x - y) else Err Panic.

Definition mul (x y : Z) : result Z :=
  if x * y <=? MAX_UINT256 then Ok (x * y) else Err Panic.

Definition div (x y : Z) : result Z :=
  if y =? 0 then Err Panic else Ok (x / y).

Definition pow (x y : Z) : result Z :=
  if x ^ y <=? MAX_UINT256 then Ok (x ^ y) else Err Panic.

Arguments add : simpl never.
Arguments sub : simpl never.
Arguments mul : simpl never.
Arguments div : simpl never.
Arguments pow : simpl never.

(** ** The price oracle (contracts/PriceProtectionOracle.sol) *)

Module PriceProtectionOracle.

Record PriceFeed : Type := mkPriceFeed {
  oracle : address;
  heartbeat : uint256;
  deviationThreshold : uint256;
  isActive : bool;
  isInverted : bool
}.

Record PriceData : Type := mkPriceData {
  pd_price : uint256;
  pd_timestamp : uint256;
  pd_roundId : uint256;
  pd_isValid : bool
}.

Record TokenPair : Type := mkTokenPair {
  baseToken : address;
  quoteToken : address;
  pairId : bytes32;
  primaryFeed : PriceFeed;
  secondaryFeed : PriceFeed;
  lastValidPrice : uint256;
  lastUpdateTime : uint256
}.

Record PriceValidation : Type := mkPriceValidation {
  withinTolerance : bool;
  orderPrice : uint256;
  marketPrice : uint256;
  deviation : uint256;
  validationResult : string
}.

Definition BASIS_POINTS : Z := 10000.
Definition PRICE_PRECISION : Z := 10 ^ 18.
Definition MAX_DEVIATION : Z := 2000.
Definition MAJOR_TOLERANCE : Z := 1000.

(** Storage of the contract. *)
Record State : Type := mkState {
  tokenPairs : gmap bytes32 TokenPair;
  tokenTolerances : gmap address uint256;
  priceHistory : gmap bytes32 PriceData;
  activePairs : list bytes32;
  globalTolerancePercent : uint256;
  priceUpdateInterval : uint256;
  maxPriceAge : uint256;
  emergencyPaused : bool
}.

(** What [latestRoundData()] of a Chainlink aggregator returns. *)
Record RoundData : Type := mkRoundData {
  roundId : Z;
  rawPrice : Z;
  startedAt : Z;
  updatedAt : Z;
  answeredInRound : Z
}.

(** Modelled from the spec: the PriceFeedSource and Clock collaborators
    (section 6), which stand for the Chainlink [AggregatorV3Interface]
    contracts the oracle calls.  [latestRoundData a] and [decimals a] are
    [None] when the call to the aggregator at [a] reverts; [decimals] is a
    [uint8]. *)
Record Env : Type := mkEnv {
  block_timestamp : uint256;
  latestRoundData : address -> option RoundData;
  decimals : address -> option Z
}.

Definition zeroFeed : PriceFeed := mkPriceFeed 0 0 0 false false.
Definition zeroPair : TokenPair := mkTokenPair 0 0 0 zeroFeed zeroFeed 0 0.

(** A Solidity mapping is total: an absent key reads as the zero value. *)
Definition pairOf (s : State) (id : bytes32) : TokenPair :=
  default zeroPair (tokenPairs s !! id).

Definition toleranceOf (s : State) (token : address) : uint256 :=
  default 0 (tokenTolerances s !! token).

(** [keccak256(abi.encodePacked(baseToken, quoteToken))]. *)
Definition pairIdOf (base quote : address) : bytes32 :=
  Z.pos (encode [base; quote]).

(** [_getPriceFromFeed].  The [try] covers [latestRoundData()] only: a
    panic of the arithmetic in its success block, or a revert of
    [decimals()], is not caught and reverts the call. *)
Definition _getPriceFromFeed (e : Env) (feed : PriceFeed) : result (uint256 * bool) :=
  if negb (isActive feed) || (oracle feed =? 0) then Ok (0, false)
  else
    match latestRoundData e (oracle feed) with
    | None => Ok (0, false)
    | Some rd =>
        if rawPrice rd <=? 0 then Ok (0, false)
        else if updatedAt rd =? 0 then Ok (0, false)
        else
          age ← sub (block_timestamp e) (updatedAt rd);
          if age >? heartbeat feed then Ok (0, false)
          else
            match decimals e (oracle feed) with
            | None => Err ExternalCallFailed
            | Some d =>
                scale ← pow 10 d;
                factor ← div PRICE_PRECISION scale;
                price ← mul (rawPrice rd) factor;
                price' ← (if isInverted feed && (price >? 0)
                           then div (PRICE_PRECISION * PRICE_PRECISION) price
                           else Ok price);
                Ok (price', true)
            end
    end.

(** [_getCurrentPriceInternal]. *)
Definition _getCurrentPriceInternal (e : Env) (s : State) (id : bytes32)
  : result (uint256 * bool) :=
  let pair := pairOf s id in
  require (negb (baseToken pair =? 0)) "Pair not found";;
  '(price, isValid) ← _getPriceFromFeed e (primaryFeed pair);
  '(price, isValid) ←
     (if negb isValid && isActive (secondaryFeed pair)
      then _getPriceFromFeed e (secondaryFeed pair)
      else Ok (price, isValid));
  if negb isValid && (lastValidPrice pair >? 0)
  then
    age ← sub (block_timestamp e) (lastUpdateTime pair);
    if age <=? maxPriceAge s then Ok (lastValidPrice pair, true)
    else Ok (price, isValid)
  else Ok (price, isValid).

(** [getCurrentPrice], with its [notPaused] modifier. *)
Definition getCurrentPrice (e : Env) (s : State) (base quote : address)
  : result (uint256 * bool) :=
  require (negb (emergencyPaused s)) "Price oracle paused";;
  _getCurrentPriceInternal e s (pairIdOf base quote).

(** [_getDefaultTolerance]. *)
Definition _getDefaultTolerance (s : State) (token : address) : uint256 :=
  if toleranceOf s token >? 0 then toleranceOf s token else MAJOR_TOLERANCE.

(** [getToleranceForToken], the view the contract offers on the same
    question. *)
Definition getToleranceForToken (s : State) (token : address) : uint256 :=
  if toleranceOf s token >? 0 then toleranceOf s token
  else globalTolerancePercent s.

(** [validateOrderPrice].  It writes no storage (it only emits events), so
    it is a function of the state. *)
Definition validateOrderPrice (e : Env) (s : State)
    (base quote : address) (price customTolerance : uint256)
  : result PriceValidation :=
  require (price >? 0) "Invalid order price";;
  '(market, isValid) ← _getCurrentPriceInternal e s (pairIdOf base quote);
  require isValid "Market price unavailable";;
  let toleranceToUse :=
    if customTolerance >? 0 then customTolerance else _getDefaultTolerance s base in
  require (toleranceToUse <=? MAX_DEVIATION) "Tolerance too high";;
  lo ← sub BASIS_POINTS toleranceToUse;
  loProd ← mul market lo;
  lowerBound ← div loProd BASIS_POINTS;
  hi ← add BASIS_POINTS toleranceToUse;
  hiProd ← mul market hi;
  upperBound ← div hiProd BASIS_POINTS;
  let isWithinTolerance := (lowerBound <=? price) && (price <=? upperBound) in
  dev ← (if price >? market
          then d ← sub price market; p ← mul d BASIS_POINTS; div p market
          else d ← sub market price; p ← mul d BASIS_POINTS; div p market);
  Ok (mkPriceValidation isWithinTolerance price market dev
        (if isWithinTolerance then "WITHIN_TOLERANCE" else "OUTSIDE_TOLERANCE")).

(** The loop of [batchValidateOrderPrices]: entry [i] is validated by an
    external call [this.validateOrderPrice(...)] that no [try] wraps. *)
Fixpoint validateEach (e : Env) (s : State)
    (entries : list (address * address * uint256 * uint256))
  : result (list PriceValidation) :=
  match entries with
  | [] => Ok []
  | (base, quote, price, tol) :: rest =>
      v ← validateOrderPrice e s base quote price tol;
      vs ← validateEach e s rest;
      Ok (v :: vs)
  end.

Definition zip4 (bs qs : list address) (ps ts : list uint256)
  : list (address * address * uint256 * uint256) :=
  zip (zip (zip bs qs) ps) ts.

(** [batchValidateOrderPrices]. *)
Definition batchValidateOrderPrices (e : Env) (s : State)
    (baseTokens quoteTokens : list address) (orderPrices tolerances : list uint256)
  : result (list PriceValidation) :=
  require (length baseTokens =? length quoteTokens)%nat "Array length mismatch";;
  require (length baseTokens =? length orderPrices)%nat "Array length mismatch";;
  require (length baseTokens =? length tolerances)%nat "Array length mismatch";;
  require (length baseTokens <=? 20)%nat "Too many orders";;
  validateEach e s (zip4 baseTokens quoteTokens orderPrices tolerances).

Definition setPair (s : State) (id : bytes32) (p : TokenPair) : State :=
  mkState (<[id := p]> (tokenPairs s)) (tokenTolerances s) (priceHistory s)
    (activePairs s) (globalTolerancePercent s) (priceUpdateInterval s)
    (maxPriceAge s) (emergencyPaused s).

Definition setHistory (s : State) (id : bytes32) (d : PriceData) : State :=
  mkState (tokenPairs s) (tokenTolerances s) (<[id := d]> (priceHistory s))
    (activePairs s) (globalTolerancePercent s) (priceUpdateInterval s)
    (maxPriceAge s) (emergencyPaused s).

(** [_updatePriceForPair]. *)
Definition _updatePriceForPair (e : Env) (s : State) (id : bytes32) : result State :=
  let pair := pairOf s id in
  '(newPrice, isValid) ← _getCurrentPriceInternal e s id;
  if (isValid : bool)
  then
    let pair' := mkTokenPair (baseToken pair) (quoteToken pair) (pairId pair)
                   (primaryFeed pair) (secondaryFeed pair)
                   newPrice (block_timestamp e) in
    Ok (setHistory (setPair s id pair') id
          (mkPriceData newPrice (block_timestamp e) 0 true))
  else Ok s.

(** [setGlobalTolerance], with its [validTolerance] modifier ([onlyOwner]
    is taken as satisfied: the caller is the owner). *)
Definition setGlobalTolerance (s : State) (toleranceValue : uint256) : result State :=
  require (toleranceValue <=? MAX_DEVIATION) "Tolerance too high";;
  require (toleranceValue >? 0) "Tolerance must be positive";;
  Ok (mkState (tokenPairs s) (tokenTolerances s) (priceHistory s)
        (activePairs s) toleranceValue (priceUpdateInterval s)
        (maxPriceAge s) (emergencyPaused s)).

(** *** Administration and refresh *)

(** The storage the functions above do not touch, beside the one they do:
    the token registry and the flag of OpenZeppelin's [ReentrancyGuard]
    ([entered] is [_status == ENTERED]). *)
Record Contract : Type := mkContract {
  store : State;
  supportedTokens : gmap address bool;
  monitoredTokens : list address;
  entered : bool
}.

Definition withStore (c : Contract) (s : State) : Contract :=
  mkContract s (supportedTokens c) (monitoredTokens c) (entered c).

(** The [nonReentrant] modifier, as in the ledger. *)
Definition guarded (c : Contract) (body : Contract -> result Contract)
  : result Contract :=
  if entered c then Err ReentrancyGuardReentrantCall
  else
    c' ← body (mkContract (store c) (supportedTokens c) (monitoredTokens c) true);
    Ok (mkContract (store c') (supportedTokens c') (monitoredTokens c') false).

(** [addPriceFeed] ([onlyOwner] is taken as satisfied, here and below). *)
Definition addPriceFeed (c : Contract)
    (base quote primaryOracle secondaryOracle : address)
    (hb : uint256) (inverted : bool) : result Contract :=
  require (negb (base =? quote)) "Same token addresses";;
  require (negb (primaryOracle =? 0)) "Invalid primary oracle";;
  let id := pairIdOf base quote in
  let pair :=
    mkTokenPair base quote id
      (mkPriceFeed primaryOracle hb 500 true inverted)
      (mkPriceFeed secondaryOracle hb 1000 (negb (secondaryOracle =? 0)) inverted)
      0 0 in
  let s := store c in
  let s' := mkState (<[id := pair]> (tokenPairs s)) (tokenTolerances s) (priceHistory s)
              (activePairs s ++ [id]) (globalTolerancePercent s)
              (priceUpdateInterval s) (maxPriceAge s) (emergencyPaused s) in
  Ok (mkContract s'
        (<[quote := true]> (<[base := true]> (supportedTokens c)))
        (monitoredTokens c) (entered c)).

(** [isTokenSupported]. *)
Definition isTokenSupported (c : Contract) (token : address) : bool :=
  default false (supportedTokens c !! token).

(** [getHistoricalPrice]. *)
Definition getHistoricalPrice (s : State) (base quote : address) : PriceData :=
  default (mkPriceData 0 0 0 false) (priceHistory s !! pairIdOf base quote).

(** [_shouldUpdatePrice]. *)
Definition _shouldUpdatePrice (e : Env) (s : State) (id : bytes32) : result bool :=
  age ← sub (block_timestamp e) (lastUpdateTime (pairOf s id));
  Ok (age >=? priceUpdateInterval s).

(** The loop of [updateAllPrices] over the active pairs: the state and the
    number of pairs that were due. *)
Fixpoint updateEach (e : Env) (ids : list bytes32) (s : State) (updatedCount : uint256)
  : result (State * uint256) :=
  match ids with
  | [] => Ok (s, updatedCount)
  | id :: rest =>
      due ← _shouldUpdatePrice e s id;
      if (due : bool)
      then
        s' ← _updatePriceForPair e s id;
        n ← add updatedCount 1;
        updateEach e rest s' n
      else updateEach e rest s updatedCount
  end.

(** [updateAllPrices]: [nonReentrant], then [notPaused], then the body. *)
Definition updateAllPrices (e : Env) (c : Contract) : result Contract :=
  guarded c (fun c =>
    require (negb (emergencyPaused (store c))) "Price oracle paused";;
    '(s', updatedCount) ← updateEach e (activePairs (store c)) (store c) 0;
    require (updatedCount >? 0) "No prices needed updating";;
    Ok (withStore c s')).

(** [forceUpdatePrice]. *)
Definition forceUpdatePrice (e : Env) (c : Contract) (base quote : address)
  : result Contract :=
  guarded c (fun c =>
    s' ← _updatePriceForPair e (store c) (pairIdOf base quote);
    Ok (withStore c s')).

(** [setTokenTolerance], with its [validTolerance] modifier. *)
Definition setTokenTolerance (s : State) (token : address) (toleranceValue : uint256)
  : result State :=
  require (toleranceValue <=? MAX_DEVIATION) "Tolerance too high";;
  require (toleranceValue >? 0) "Tolerance must be positive";;
  Ok (mkState (tokenPairs s) (<[token := toleranceValue]> (tokenTolerances s))
        (priceHistory s) (activePairs s) (globalTolerancePercent s)
        (priceUpdateInterval s) (maxPriceAge s) (emergencyPaused s)).

(** [setPriceUpdateInterval]. *)
Definition setPriceUpdateInterval (s : State) (interval : uint256) : result State :=
  require (interval >=? 60) "Minimum 1 minute interval";;
  Ok (mkState (tokenPairs s) (tokenTolerances s) (priceHistory s) (activePairs s)
        (globalTolerancePercent s) interval (maxPriceAge s) (emergencyPaused s)).

(** [setMaxPriceAge]. *)
Definition setMaxPriceAge (s : State) (maxAge : uint256) : result State :=
  require (maxAge >=? 300) "Minimum 5 minutes";;
  Ok (mkState (tokenPairs s) (tokenTolerances s) (priceHistory s) (activePairs s)
        (globalTolerancePercent s) (priceUpdateInterval s) maxAge (emergencyPaused s)).

(** [toggleEmergencyPause]. *)
Definition toggleEmergencyPause (s : State) : State :=
  mkState (tokenPairs s) (tokenTolerances s) (priceHistory s) (activePairs s)
    (globalTolerancePercent s) (priceUpdateInterval s) (maxPriceAge s)
    (negb (emergencyPaused s)).

(** [emergencySetPrice]: the two cache fields of the pair are written, whether
    or not the pair was ever registered. *)
Definition emergencySetPrice (e : Env) (s : State) (base quote : address)
    (price : uint256) : State :=
  let id := pairIdOf base quote in
  let pair := pairOf s id in
  setPair s id
    (mkTokenPair (baseToken pair) (quoteToken pair) (pairId pair)
       (primaryFeed pair) (secondaryFeed pair) price (block_timestamp e)).

End PriceProtectionOracle.

(** ** The order ledger (TransparentOrderProtocol.sol) *)

Module TransparentOrderProtocol.

Record PriceProtection : Type := mkPriceProtection {
  pp_enabled : bool;
  pp_tolerance : uint256;
  pp_lastPriceCheck : uint256;
  pp_lastMarketPrice : uint256
}.

Record WrappedToken : Type := mkWrappedToken {
  wt_originalToken : address;
  wt_wrappedToken : address;
  wt_unwrapAfter : bool;
  wt_bridgeFee : uint256
}.

Record BalanceCheck : Type := mkBalanceCheck {
  bc_enabled : bool;
  bc_lastCheck : uint256;
  bc_autoAdjust : bool;
  bc_autoCancel : bool;
  bc_minBalance : uint256
}.

Record ExecutionInfo : Type := mkExecutionInfo {
  attempts : uint256;
  lastAttempt : uint256;
  failureReason : string;
  totalFilled : uint256;
  isCompleted : bool
}.

Record PublicOrder : Type := mkPublicOrder {
  user : address;
  amount : uint256;
  targetPrice : uint256;
  gasPrice : uint256;
  timestamp : uint256;
  expiry : uint256;
  queuePosition : uint256;
  sourceChain : uint256;
  targetChain : uint256;
  makerAsset : address;
  takerAsset : address;
  priceProtection : PriceProtection;
  wrappedToken : WrappedToken;
  balanceCheck : BalanceCheck;
  execution : ExecutionInfo
}.

Definition PRICE_PRECISION : Z := 10 ^ 18.
Definition GAS_PRIORITY_MULTIPLIER : Z := 100.

(** The storage of the contract, the flag of its reentrancy guard
    ([guardEntered] is [_status == ENTERED]) and the balances of the
    ERC-20 tokens it moves, keyed by (token, holder): a revert rolls all
    three back together. *)
Record State : Type := mkState {
  orders : gmap bytes32 PublicOrder;
  userOrders : gmap address (list bytes32);
  activeOrderHashes : list bytes32;
  totalOrdersCreated : uint256;
  totalOrdersFilled : uint256;
  globalTolerancePercent : uint256;
  guardEntered : bool;
  balances : gmap (address * address) uint256
}.

(** The transaction context: [block.timestamp], [msg.sender] and
    [address(this)]. *)
Record Env : Type := mkEnv {
  block_timestamp : uint256;
  msg_sender : address;
  this : address
}.

Definition zeroOrder : PublicOrder :=
  mkPublicOrder 0 0 0 0 0 0 0 0 0 0 0
    (mkPriceProtection false 0 0 0) (mkWrappedToken 0 0 false 0)
    (mkBalanceCheck false 0 false false 0) (mkExecutionInfo 0 0 "" 0 false).

(** [orders[orderHash]]: an absent key reads as the zero order. *)
Definition orderOf (s : State) (h : bytes32) : PublicOrder :=
  default zeroOrder (orders s !! h).

Definition setOrder (s : State) (h : bytes32) (o : PublicOrder) : State :=
  mkState (<[h := o]> (orders s)) (userOrders s) (activeOrderHashes s)
    (totalOrdersCreated s) (totalOrdersFilled s) (globalTolerancePercent s)
    (guardEntered s) (balances s).

Definition setActive (s : State) (l : list bytes32) : State :=
  mkState (orders s) (userOrders s) l
    (totalOrdersCreated s) (totalOrdersFilled s) (globalTolerancePercent s)
    (guardEntered s) (balances s).

Definition setUserOrders (s : State) (u : address) (l : list bytes32) : State :=
  mkState (orders s) (<[u := l]> (userOrders s)) (activeOrderHashes s)
    (totalOrdersCreated s) (totalOrdersFilled s) (globalTolerancePercent s)
    (guardEntered s) (balances s).

Definition setCreated (s : State) (n : uint256) : State :=
  mkState (orders s) (userOrders s) (activeOrderHashes s)
    n (totalOrdersFilled s) (globalTolerancePercent s)
    (guardEntered s) (balances s).

Definition setFilled (s : State) (n : uint256) : State :=
  mkState (orders s) (userOrders s) (activeOrderHashes s)
    (totalOrdersCreated s) n (globalTolerancePercent s)
    (guardEntered s) (balances s).

Definition setGuard (s : State) (b : bool) : State :=
  mkState (orders s) (userOrders s) (activeOrderHashes s)
    (totalOrdersCreated s) (totalOrdersFilled s) (globalTolerancePercent s)
    b (balances s).

Definition setBalances (s : State) (b : gmap (address * address) uint256) : State :=
  mkState (orders s) (userOrders s) (activeOrderHashes s)
    (totalOrdersCreated s) (totalOrdersFilled s) (globalTolerancePercent s)
    (guardEntered s) b.

Definition withAmount (o : PublicOrder) (a : uint256) : PublicOrder :=
  mkPublicOrder (user o) a (targetPrice o) (gasPrice o) (timestamp o) (expiry o)
    (queuePosition o) (sourceChain o) (targetChain o) (makerAsset o) (takerAsset o)
    (priceProtection o) (wrappedToken o) (balanceCheck o) (execution o).

Definition withQueue (o : PublicOrder) (q t : uint256) : PublicOrder :=
  mkPublicOrder (user o) (amount o) (targetPrice o) (gasPrice o) t (expiry o)
    q (sourceChain o) (targetChain o) (makerAsset o) (takerAsset o)
    (priceProtection o) (wrappedToken o) (balanceCheck o) (execution o).

Definition withExecution (o : PublicOrder) (x : ExecutionInfo) : PublicOrder :=
  mkPublicOrder (user o) (amount o) (targetPrice o) (gasPrice o) (timestamp o) (expiry o)
    (queuePosition o) (sourceChain o) (targetChain o) (makerAsset o) (takerAsset o)
    (priceProtection o) (wrappedToken o) (balanceCheck o) x.

(** Modelled from the spec: the AssetCustody collaborator (section 6),
    which stands for the ERC-20 tokens the contract reaches through
    OpenZeppelin's [IERC20] and [SafeERC20]: [balanceOf], [transfer] and
    [transferFrom], each of which fully succeeds or fully fails.  A
    transfer fails when the payer holds less than the amount; allowances
    are taken as granted. *)
Definition balanceOf (s : State) (token holder : address) : uint256 :=
  default 0 (balances s !! (token, holder)).

Definition moveTokens (s : State) (token from to : address) (value : uint256)
  : result State :=
  if balanceOf s token from <? value then Err SafeERC20FailedOperation
  else
    let debited := <[(token, from) := balanceOf s token from - value]> (balances s) in
    let credited :=
      <[(token, to) := default 0 (debited !! (token, to)) + value]> debited in
    Ok (setBalances s credited).

(** [IERC20(token).safeTransferFrom(from, to, value)]. *)
Definition safeTransferFrom (s : State) (token from to : address) (value : uint256)
  : result State := moveTokens s token from to value.

(** [IERC20(token).safeTransfer(to, value)], paid by the contract. *)
Definition safeTransfer (e : Env) (s : State) (token to : address) (value : uint256)
  : result State := moveTokens s token (this e) to value.

(** The [nonReentrant] modifier of OpenZeppelin's [ReentrancyGuard], by its
    published behaviour: it reverts when the guard is already entered,
    else enters it, runs the body and leaves it again (also when the body
    returns early). *)
Definition nonReentrant {A : Type} (s : State) (body : State -> result (State * A))
  : result (State * A) :=
  if guardEntered s then Err ReentrancyGuardReentrantCall
  else
    '(s', a) ← body (setGuard s true);
    Ok (setGuard s' false, a).

(** The [orderExists] and [onlyOrderCreator] modifiers. *)
Definition orderExists (s : State) (h : bytes32) : result unit :=
  require (negb (user (orderOf s h) =? 0)) "Order does not exist".

Definition onlyOrderCreator (e : Env) (s : State) (h : bytes32) : result unit :=
  require (user (orderOf s h) =? msg_sender e) "Not order creator".

(** [getOrderHash]: the hash of the ten defining fields. *)
Definition getOrderHash (o : PublicOrder) : bytes32 :=
  Z.pos (encode [user o; amount o; targetPrice o; gasPrice o; timestamp o;
                 expiry o; sourceChain o; targetChain o; makerAsset o; takerAsset o]).

(** [calculateQueuePosition]. *)
Definition calculateQueuePosition (e : Env) (gasPrice timestamp amount : uint256)
  : result uint256 :=
  gasWeight ← mul gasPrice GAS_PRIORITY_MULTIPLIER;
  amountWeight ← div amount 1000;
  elapsed ← sub (block_timestamp e) timestamp;
  timePenalty ← div elapsed 60;
  total ← add gasWeight amountWeight;
  sub total timePenalty.

(** [checkPriceProtection]. *)
Definition checkPriceProtection (s : State) (order : PublicOrder)
    (currentMarketPrice : uint256) : result bool :=
  let tolerance :=
    if pp_tolerance (priceProtection order) >? 0
    then pp_tolerance (priceProtection order)
    else globalTolerancePercent s in
  lo ← sub 100 tolerance;
  loProd ← mul currentMarketPrice lo;
  lowerBound ← div loProd 100;
  hi ← add 100 tolerance;
  hiProd ← mul currentMarketPrice hi;
  upperBound ← div hiProd 100;
  Ok ((lowerBound <=? targetPrice order) && (targetPrice order <=? upperBound)).

(** The loop of [_removeFromActiveOrders]: the index of the first entry
    equal to [h], counting from [i]. *)
Fixpoint indexOf (h : bytes32) (l : list bytes32) (i : nat) : option nat :=
  match l with
  | [] => None
  | x :: rest => if x =? h then Some i else indexOf h rest (S i)
  end.

(** [_removeFromActiveOrders]: the last entry is moved into the slot of the
    removed one and the array is popped. *)
Definition _removeFromActiveOrders (s : State) (h : bytes32) : State :=
  let active := activeOrderHashes s in
  match indexOf h active 0 with
  | Some i =>
      setActive s (take (length active - 1) (<[i := default 0 (last active)]> active))
  | None => s
  end.

(** [_cancelOrder]. *)
Definition _cancelOrder (e : Env) (s : State) (h : bytes32) (reason : string)
  : result State :=
  let order := orderOf s h in
  refund ← sub (amount order) (totalFilled (execution order));
  s1 ← safeTransfer e s (makerAsset order) (user order) refund;
  let order1 := orderOf s1 h in
  let x := execution order1 in
  let s2 := setOrder s1 h
              (withExecution order1
                 (mkExecutionInfo (attempts x) (lastAttempt x) reason (totalFilled x) true)) in
  Ok (_removeFromActiveOrders s2 h).

(** [_adjustOrderAmount]. *)
Definition _adjustOrderAmount (e : Env) (s : State) (h : bytes32) (newAmount : uint256)
  : result State :=
  let order := orderOf s h in
  let oldAmount := amount order in
  require (newAmount >? 0) "Invalid new amount";;
  require (newAmount <? oldAmount) "Can only decrease amount";;
  excessAmount ← sub oldAmount newAmount;
  s1 ← safeTransfer e s (makerAsset order) (user order) excessAmount;
  Ok (setOrder s1 h (withAmount (orderOf s1 h) newAmount)).

(** [createOrder]. *)
Definition createOrder (e : Env) (order : PublicOrder) (s : State)
  : result (State * bytes32) :=
  nonReentrant s (fun s =>
    require (user order =? msg_sender e) "Invalid user";;
    require (amount order >? 0) "Invalid amount";;
    require (targetPrice order >? 0) "Invalid target price";;
    require (expiry order >? block_timestamp e) "Order already expired";;
    require (negb (makerAsset order =? takerAsset order)) "Same assets";;
    (if negb (sourceChain order =? targetChain order)
     then require (negb (wt_wrappedToken (wrappedToken order) =? 0)) "Wrapped token required"
     else Ok tt);;
    let orderHash := getOrderHash order in
    require (user (orderOf s orderHash) =? 0) "Order already exists";;
    let userBalance := balanceOf s (makerAsset order) (msg_sender e) in
    (if bc_enabled (balanceCheck order)
     then require (userBalance >=? amount order) "Insufficient balance"
     else Ok tt);;
    s1 ← safeTransferFrom s (makerAsset order) (msg_sender e) (this e) (amount order);
    q ← calculateQueuePosition e (gasPrice order) (timestamp order) (amount order);
    let stored := withQueue order q (block_timestamp e) in
    let s2 := setOrder s1 orderHash stored in
    let s3 := setUserOrders s2 (msg_sender e)
                (default [] (userOrders s2 !! msg_sender e) ++ [orderHash]) in
    let s4 := setActive s3 (activeOrderHashes s3 ++ [orderHash]) in
    created ← add (totalOrdersCreated s4) 1;
    Ok (setCreated s4 created, orderHash)).

(** What the balance check of [executeOrder] decides: the order was
    auto-cancelled and the function returns, or execution goes on. *)
Inductive balanceOutcome : Type :=
  | Cancelled (s : State)
  | Proceed (s : State).

(** The body of [executeOrder], inside its modifiers. *)
Definition executeOrderBody (e : Env) (h : bytes32) (executionPrice : uint256)
    (s : State) : result State :=
  let order := orderOf s h in
  require (expiry order >? block_timestamp e) "Order expired";;
  require (negb (isCompleted (execution order))) "Order already completed";;
  (if pp_enabled (priceProtection order)
   then
     isWithinTolerance ← checkPriceProtection s order executionPrice;
     require isWithinTolerance "Price outside tolerance range"
   else Ok tt);;
  outcome ←
    (if bc_enabled (balanceCheck order)
     then
       let currentBalance := balanceOf s (makerAsset order) (user order) in
       if currentBalance <? amount order
       then
         if bc_autoCancel (balanceCheck order)
         then s' ← _cancelOrder e s h "Insufficient balance - auto cancelled";
              Ok (Cancelled s')
         else if bc_autoAdjust (balanceCheck order)
         then s' ← _adjustOrderAmount e s h currentBalance;
              Ok (Proceed s')
         else Ok (Proceed s)
       else Ok (Proceed s)
     else Ok (Proceed s));
  match outcome with
  | Cancelled s' => Ok s'
  | Proceed s0 =>
      let order := orderOf s0 h in
      prod ← mul (amount order) (targetPrice order);
      takerAmount ← div prod PRICE_PRECISION;
      s1 ← safeTransferFrom s0 (takerAsset order) (msg_sender e) (user order) takerAmount;
      s2 ← safeTransfer e s1 (makerAsset order) (msg_sender e) (amount order);
      let x := execution (orderOf s2 h) in
      attempts' ← add (attempts x) 1;
      let s3 := setOrder s2 h
                  (withExecution (orderOf s2 h)
                     (mkExecutionInfo attempts' (block_timestamp e) (failureReason x)
                        (amount (orderOf s2 h)) true)) in
      filled ← add (totalOrdersFilled s3) 1;
      Ok (_removeFromActiveOrders (setFilled s3 filled) h)
  end.

(** [executeOrder], an external function: [nonReentrant], then
    [orderExists], then the body. *)
Definition executeOrder (e : Env) (h : bytes32) (executionPrice : uint256)
    (s : State) : result State :=
  fst <$> nonReentrant s (fun s =>
    orderExists s h;;
    s' ← executeOrderBody e h executionPrice s;
    Ok (s', tt)).

(** [cancelOrder]: [orderExists], [onlyOrderCreator], then [_cancelOrder];
    it carries no reentrancy guard. *)
Definition cancelOrder (e : Env) (h : bytes32) (s : State) : result State :=
  orderExists s h;;
  onlyOrderCreator e s h;;
  _cancelOrder e s h "Cancelled by user".

(** The [catch] block of [batchExecuteOrders]. *)
Definition recordBatchFailure (s : State) (h : bytes32) : result State :=
  let x := execution (orderOf s h) in
  attempts' ← add (attempts x) 1;
  let s1 := setOrder s h
              (withExecution (orderOf s h)
                 (mkExecutionInfo attempts' (lastAttempt x) (failureReason x)
                    (totalFilled x) (isCompleted x))) in
  let x1 := execution (orderOf s1 h) in
  Ok (setOrder s1 h
        (withExecution (orderOf s1 h)
           (mkExecutionInfo (attempts x1) (lastAttempt x1) "Batch execution failed"
              (totalFilled x1) (isCompleted x1)))).

(** The loop of [batchExecuteOrders].  [this.executeOrder(...)] is an
    external call of the contract to itself: its [msg.sender] is the
    contract, and when it reverts its effects are undone and the [catch]
    block runs on the state before the call. *)
Fixpoint batchLoop (e : Env) (entries : list (bytes32 * uint256)) (s : State)
  : result State :=
  match entries with
  | [] => Ok s
  | (h, price) :: rest =>
      s' ← match executeOrder (mkEnv (block_timestamp e) (this e) (this e)) h price s with
           | Ok s1 => Ok s1
           | Err _ => recordBatchFailure s h
           end;
      batchLoop e rest s'
  end.

(** [batchExecuteOrders]. *)
Definition batchExecuteOrders (e : Env) (orderHashes : list bytes32)
    (executionPrices : list uint256) (s : State) : result State :=
  fst <$> nonReentrant s (fun s =>
    require (length orderHashes =? length executionPrices)%nat "Array length mismatch";;
    require (length orderHashes <=? 10)%nat "Too many orders";;
    s' ← batchLoop e (zip orderHashes executionPrices) s;
    Ok (s', tt)).

(** Checked array access: an index out of range is Panic(0x32). *)
Definition readAt {A : Type} (l : list A) (i : nat) : result A :=
  match l !! i with
  | Some x => Ok x
  | None => Err Panic
  end.

Definition writeAt {A : Type} (l : list A) (i : nat) (x : A) : result (list A) :=
  if (i <? length l)%nat then Ok (<[i := x]> l) else Err Panic.

(** The [while] loop of [getOrdersByPriority]: entries of lower priority
    move one slot up; the result is the slot left free and the arrays. *)
Fixpoint shiftDown (j : nat) (priority : uint256)
    (sortedOrders : list bytes32) (priorities : list uint256)
  : result (nat * list bytes32 * list uint256) :=
  match j with
  | O => Ok (O, sortedOrders, priorities)
  | S j' =>
      p ← readAt priorities j';
      if p <? priority
      then
        o ← readAt sortedOrders j';
        sortedOrders' ← writeAt sortedOrders j o;
        priorities' ← writeAt priorities j p;
        shiftDown j' priority sortedOrders' priorities'
      else Ok (j, sortedOrders, priorities)
  end.

(** The [for] loop of [getOrdersByPriority], [n] iterations from index
    [i]. *)
Fixpoint sortLoop (s : State) (n i : nat)
    (sortedOrders : list bytes32) (priorities : list uint256)
  : result (list bytes32 * list uint256) :=
  match n with
  | O => Ok (sortedOrders, priorities)
  | S n' =>
      orderHash ← readAt (activeOrderHashes s) i;
      let priority := queuePosition (orderOf s orderHash) in
      '(j, sortedOrders1, priorities1) ← shiftDown i priority sortedOrders priorities;
      sortedOrders2 ← writeAt sortedOrders1 j orderHash;
      priorities2 ← writeAt priorities1 j priority;
      sortLoop s n' (S i) sortedOrders2 priorities2
  end.

(** [getOrdersByPriority]. *)
Definition getOrdersByPriority (s : State) (limit : nat) : result (list bytes32) :=
  require (limit <=? length (activeOrderHashes s))%nat "Limit too high";;
  '(sortedOrders, _) ←
     sortLoop s (Nat.min limit (length (activeOrderHashes s))) 0
       (replicate limit 0) (replicate limit 0);
  Ok sortedOrders.

(** *** Views and administration *)

Definition MAX_TOLERANCE : Z := 50.
Definition MIN_TOLERANCE : Z := 1.

(** [getUserOrders], [getOrder] and [getActiveOrders]. *)
Definition getUserOrders (s : State) (u : address) : list bytes32 :=
  default [] (userOrders s !! u).

Definition getOrder (s : State) (h : bytes32) : PublicOrder := orderOf s h.

Definition getActiveOrders (s : State) : list bytes32 := activeOrderHashes s.

(** [setGlobalTolerance], with its [withinTolerance] modifier ([onlyOwner]
    is taken as satisfied). *)
Definition setGlobalTolerance (s : State) (tolerance : uint256) : result State :=
  require ((MIN_TOLERANCE <=? tolerance) && (tolerance <=? MAX_TOLERANCE))
    "Invalid tolerance range";;
  Ok (mkState (orders s) (userOrders s) (activeOrderHashes s)
        (totalOrdersCreated s) (totalOrdersFilled s) tolerance
        (guardEntered s) (balances s)).

End TransparentOrderProtocol.

(** ** The queue helper of the demo (TransparentOrderDemo, TypeScript) *)

Module TransparentOrderDemo.

(** [calculateQueuePosition], on [bigint]: unbounded integers whose
    division truncates toward zero.  [date_now] is [Date.now()], in
    milliseconds. *)
Definition calculateQueuePosition (date_now : Z) (gasPrice timestamp amount : Z) : Z :=
  let GAS_PRIORITY_MULTIPLIER := 100 in
  let gasWeight := gasPrice * GAS_PRIORITY_MULTIPLIER in
  let amountWeight := amount ÷ 1000 in
  let timePenalty := (date_now - timestamp) ÷ 60 in
  gasWeight + amountWeight - timePenalty.

(** [checkPriceProtection]. *)
Definition checkPriceProtection (orderPrice marketPrice tolerance : Z) : bool :=
  let lowerBound := (marketPrice * (100 - tolerance)) ÷ 100 in
  let upperBound := (marketPrice * (100 + tolerance)) ÷ 100 in
  (lowerBound <=? orderPrice) && (orderPrice <=? upperBound).

(** [determineBalanceAction], on the four fields of the scenario it
    reads. *)
Definition determineBalanceAction (currentBalance requiredAmount : Z)
    (autoAdjust autoCancel : bool) : string :=
  if currentBalance >=? requiredAmount then "PROCEED"
  else if autoAdjust && (currentBalance >? 0) then "ADJUST"
  else if autoCancel then "CANCEL"
  else "HOLD".

End TransparentOrderDemo.

(** ** The order service (TransparentOrderService, TypeScript) *)

Module TransparentOrderService.

Record CrossChainConfig : Type := mkCrossChainConfig {
  sourceChainId : Z;
  targetChainId : Z;
  sourceRPC : string;
  targetRPC : string;
  wrappedTokens : gmap string Z
}.

(** The record [handleWrappedToken] returns; addresses are the numbers
    their hexadecimal strings denote. *)
Record WrappedToken : Type := mkWrappedToken {
  originalToken : Z;
  wrappedToken : Z;
  unwrapAfter : bool;
  bridgeFee : Z
}.

(** The map [initializeCrossChainConfigs] fills: Dogecoin (2) and
    Bitcoin (3). *)
Definition crossChainConfigs (rpcUrl : string) : gmap Z CrossChainConfig :=
  <[3 := mkCrossChainConfig 3 1 "https://bitcoin.api.blockdaemon.com" rpcUrl
           {["BTC" := 0x2260FAC5E5542a773Aa44fBCfeDf7C193bc2C599]}]>
    (<[2 := mkCrossChainConfig 2 1
              "https://svc.blockdaemon.com/dogecoin/mainnet/native" rpcUrl
              {["DOGE" := 0]}]> ∅).

(** [handleWrappedToken]; [None] is the thrown "Unsupported source chain". *)
Definition handleWrappedToken (rpcUrl : string) (original : Z)
    (sourceChain targetChain : Z) : option WrappedToken :=
  match crossChainConfigs rpcUrl !! sourceChain with
  | None => None
  | Some config =>
      if sourceChain =? 2
      then Some (mkWrappedToken original
                   (default original (wrappedTokens config !! "DOGE"))
                   true 1000000)
      else Some (mkWrappedToken original original false 0)
  end.

(** The wrapped-token record [createPublicOrder] puts into the order it
    submits: the maker asset itself, unless the order is cross-chain and the
    source chain is configured. *)
Definition resolveWrappedToken (rpcUrl : string) (makerAsset : Z)
    (sourceChain targetChain : Z) : option WrappedToken :=
  if negb (sourceChain =? targetChain)
  then
    match crossChainConfigs rpcUrl !! sourceChain with
    | Some _ => handleWrappedToken rpcUrl makerAsset sourceChain targetChain
    | None => Some (mkWrappedToken makerAsset makerAsset false 0)
    end
  else Some (mkWrappedToken makerAsset makerAsset false 0).

End TransparentOrderService.

(** ** The order analyzer (src/OrderDataAnalyzer.ts, TypeScript) *)

Module OrderDataAnalyzer.

(** [calculateExecutionPriority], on [bigint]; [date_now] is [Date.now()]
    and [timestamp] the creation time of the order, both in
    milliseconds. *)
Definition calculateExecutionPriority (date_now : Z) (gasPrice timestamp amount : Z) : Z :=
  let gasWeight := gasPrice * 100 in
  let timeWeight := date_now - timestamp in
  let amountWeight := amount ÷ 1000 in
  gasWeight + amountWeight - (timeWeight ÷ 1000).

(** [checkPriceProtection].  The two amounts are decimal strings and the
    target price a [bigint], each [None] when the field is absent (or the
    string empty); the result is [None] when the division throws. *)
Definition checkPriceProtection (takingAmount makingAmount targetPrice : option Z)
    (currentMarketPrice : Z) : option bool :=
  let withinRange (orderPrice : Z) :=
    let lowerBound := (currentMarketPrice * 90) ÷ 100 in
    let upperBound := (currentMarketPrice * 110) ÷ 100 in
    (lowerBound <=? orderPrice) && (orderPrice <=? upperBound) in
  match takingAmount, makingAmount with
  | Some taking, Some making =>
      if making =? 0 then None else Some (withinRange (taking ÷ making))
  | _, _ =>
      match targetPrice with
      | Some price => if price =? 0 then Some false else Some (withinRange price)
      | None => Some false
      end
  end.

End OrderDataAnalyzer.

(** ** Words of the specification and concrete scenarios *)

Module OracleSpec.
Import PriceProtectionOracle.

(** The acceptance test of a feed reading, in the words of the
    specification: rawPrice > 0, updatedAt ≠ 0 and
    (now − updatedAt) ≤ heartbeat. *)
Definition accepted (e : Env) (feed : PriceFeed) (rd : RoundData) : Prop :=
  rawPrice rd > 0 ∧ updatedAt rd ≠ 0 ∧
  block_timestamp e - updatedAt rd ≤ heartbeat feed.

(** The age of a reading: now − updatedAt. *)
Definition age_of_reading (e : Env) (rd : RoundData) : Z :=
  block_timestamp e - updatedAt rd.

(** A feed that can be read at all: switched on, with an aggregator that
    answers [rd]. *)
Definition readable (e : Env) (feed : PriceFeed) (rd : RoundData) : Prop :=
  isActive feed = true ∧ oracle feed ≠ 0 ∧
  latestRoundData e (oracle feed) = Some rd.

(** A feed that yields no reading to accept: it is switched off or unset,
    its aggregator does not answer, or its reading fails one of the three
    checks (the age is taken of a reading that is not from the future). *)
Definition rejected (e : Env) (feed : PriceFeed) : Prop :=
  isActive feed = false ∨ oracle feed = 0 ∨
  latestRoundData e (oracle feed) = None ∨
  (∃ rd, latestRoundData e (oracle feed) = Some rd ∧
         (rawPrice rd ≤ 0 ∨ updatedAt rd = 0 ∨
          (updatedAt rd ≤ block_timestamp e ∧
           block_timestamp e - updatedAt rd > heartbeat feed))).

(** The tolerance the specification resolves: the call-supplied value,
    else the per-token override, else the global default. *)
Definition specTolerance (s : State) (token : address) (customTolerance : uint256)
  : uint256 :=
  if customTolerance >? 0 then customTolerance
  else if toleranceOf s token >? 0 then toleranceOf s token
  else globalTolerancePercent s.

Definition specLowerBound (market tol : Z) : Z :=
  market * (BASIS_POINTS - tol) / BASIS_POINTS.

Definition specUpperBound (market tol : Z) : Z :=
  market * (BASIS_POINTS + tol) / BASIS_POINTS.

Definition specDeviation (price market : Z) : Z :=
  Z.abs (price - market) * BASIS_POINTS / market.

(** One entry of a batch, validated on its own. *)
Definition validateEntry (e : Env) (s : State)
    (entry : address * address * uint256 * uint256) : result PriceValidation :=
  let '(base, quote, price, tol) := entry in
  validateOrderPrice e s base quote price tol.
End OracleSpec.

Module OracleScenarios.
Import PriceProtectionOracle.

Definition WETH : address := 11.
Definition USDC : address := 12.
Definition feedA : address := 101.
Definition feedB : address := 102.

Definition ethUsd (primary secondary : PriceFeed) : TokenPair :=
  mkTokenPair WETH USDC (pairIdOf WETH USDC) primary secondary 0 0.

Definition stateWith (pair : TokenPair) : State :=
  mkState {[pairIdOf WETH USDC := pair]} ∅ ∅ [pairIdOf WETH USDC]
    1000 300 900 false.

Definition hourly (a : address) : PriceFeed := mkPriceFeed a 3600 500 true false.

(** Two feeds with 8 decimals at time 10000: the primary was last updated
    at 5000 (stale for a heartbeat of 3600), the secondary at 9990. *)
Definition envStalePrimary : Env :=
  mkEnv 10000
    (fun a => if a =? feedA then Some (mkRoundData 1 (2000 * 10 ^ 8) 0 5000 1)
              else if a =? feedB then Some (mkRoundData 1 (2001 * 10 ^ 8) 0 9990 1)
              else None)
    (fun _ => Some 8).

Definition stTwoFeeds : State := stateWith (ethUsd (hourly feedA) (hourly feedB)).

(** The same two feeds, both fresh, but the primary answers a price of
    0. *)
Definition envZeroPrimary : Env :=
  mkEnv 10000
    (fun a => if a =? feedA then Some (mkRoundData 1 0 0 9990 1)
              else if a =? feedB then Some (mkRoundData 1 (2001 * 10 ^ 8) 0 9990 1)
              else None)
    (fun _ => Some 8).

(** One fresh feed quoting 1000 with [d] decimals of its own. *)
Definition envFresh (raw d : Z) : Env :=
  mkEnv 10000
    (fun a => if a =? feedA then Some (mkRoundData 1 raw 0 9990 1) else None)
    (fun _ => Some d).

Definition stOneFeed : State := stateWith (ethUsd (hourly feedA) zeroFeed).

(** The owner lowers the global tolerance to 5%. *)
Definition stGlobal500 : State := transact (fun s => setGlobalTolerance s 500) stOneFeed.

(** A feed with 8 decimals quoting 1000, and a batch of two orders on it:
    the first asks for a tolerance of 5000 bps, above the maximum of 2000,
    the second is an ordinary order priced 1010. *)
Definition envThousand : Env := envFresh (1000 * 10 ^ 8) 8.
Definition batchBases : list address := [WETH; WETH].
Definition batchQuotes : list address := [USDC; USDC].
Definition batchPrices : list uint256 := [1000 * 10 ^ 18; 1010 * 10 ^ 18].
Definition batchTolerances : list uint256 := [5000; 0].
End OracleScenarios.

Module LedgerSpec.
Import TransparentOrderProtocol.

(** The tolerance (in percent) [checkPriceProtection] applies to an
    order. *)
Definition effectiveTolerance (s : State) (o : PublicOrder) : Z :=
  if pp_tolerance (priceProtection o) >? 0
  then pp_tolerance (priceProtection o)
  else globalTolerancePercent s.

(** Outside the band of the specification,
    [market·(1 − tol), market·(1 + tol)] with tol a percentage, compared
    exactly (both sides multiplied by 100). *)
Definition outsideExactBand (price market tol : Z) : Prop :=
  100 * price < market * (100 - tol) ∨ market * (100 + tol) < 100 * price.

(** Outside the band the code computes, whose bounds are truncated
    integer quotients. *)
Definition outsideComputedBand (price market tol : Z) : Prop :=
  price < market * (100 - tol) / 100 ∨ market * (100 + tol) / 100 < price.

(** The [catch] block applied to every entry of a batch in turn. *)
Fixpoint recordFailures (hs : list bytes32) (s : State) : result State :=
  match hs with
  | [] => Ok s
  | h :: rest => s' ← recordBatchFailure s h; recordFailures rest s'
  end.

(** From [s] to [s'] nothing changed but attempt counters and failure
    reasons: no token moved, the active set is the same, and no order
    changed its amount, its fill or its completion flag. *)
Definition onlyAttemptsChanged (s s' : State) : Prop :=
  balances s' = balances s ∧
  activeOrderHashes s' = activeOrderHashes s ∧
  userOrders s' = userOrders s ∧
  totalOrdersCreated s' = totalOrdersCreated s ∧
  totalOrdersFilled s' = totalOrdersFilled s ∧
  globalTolerancePercent s' = globalTolerancePercent s ∧
  ∀ h, ∃ n reason,
    orderOf s' h =
      withExecution (orderOf s h)
        (mkExecutionInfo n (lastAttempt (execution (orderOf s h))) reason
           (totalFilled (execution (orderOf s h)))
           (isCompleted (execution (orderOf s h)))).

(** The priority the ranking reads: the stored queue position. *)
Definition priorityOf (s : State) (h : bytes32) : uint256 :=
  queuePosition (orderOf s h).

(** [out] ranks [entries] by the priority [f]: the same entries, in
    descending priority, entries of equal priority in the order they have
    in [entries]. *)
Definition ranks (f : bytes32 → Z) (out entries : list bytes32) : Prop :=
  out ≡ₚ entries ∧
  StronglySorted (λ a b, f b ≤ f a) out ∧
  ∀ q, filter (λ h, f h = q) out = filter (λ h, f h = q) entries.

(** The defining fields of an order are valid: the requirements of the
    data model that [createOrder] checks. *)
Definition validSpec (e : Env) (o : PublicOrder) : Prop :=
  user o = msg_sender e ∧ amount o > 0 ∧ targetPrice o > 0 ∧
  expiry o > block_timestamp e ∧ makerAsset o ≠ takerAsset o ∧
  (sourceChain o ≠ targetChain o → wt_wrappedToken (wrappedToken o) ≠ 0).

(** The priority of the specification, on integers. *)
Definition specPriority (now gasBid createdAt amount : Z) : Z :=
  gasBid * 100 + amount / 1000 - (now - createdAt) / 60.

End LedgerSpec.

Module LedgerScenarios.
Import TransparentOrderProtocol.

Definition TOKEN_A : address := 100.
Definition TOKEN_B : address := 200.
Definition alice : address := 1.
Definition bob : address := 2.
Definition carol : address := 3.
Definition taker : address := 9.
Definition ledger : address := 777.

Definition asAlice : Env := mkEnv 1000 alice ledger.
Definition asBob : Env := mkEnv 1000 bob ledger.
Definition asCarol : Env := mkEnv 1000 carol ledger.
Definition asTaker : Env := mkEnv 1000 taker ledger.

(** An order selling [amt] of token A for token B, created at time 1000
    and expiring at 2000, with every optional mechanism switched off. *)
Definition plainOrder (u : address) (amt target gas : uint256) : PublicOrder :=
  mkPublicOrder u amt target gas 1000 2000 0 1 1 TOKEN_A TOKEN_B
    (mkPriceProtection false 0 0 0) (mkWrappedToken 0 0 false 0)
    (mkBalanceCheck false 0 false false 0) (mkExecutionInfo 0 0 "" 0 false).

(** The same order with price protection at [tol] percent. *)
Definition protectedOrder (u : address) (amt target gas tol : uint256) : PublicOrder :=
  mkPublicOrder u amt target gas 1000 2000 0 1 1 TOKEN_A TOKEN_B
    (mkPriceProtection true tol 0 0) (mkWrappedToken 0 0 false 0)
    (mkBalanceCheck false 0 false false 0) (mkExecutionInfo 0 0 "" 0 false).

(** A fresh ledger: the makers hold token A, the taker holds token B. *)
Definition genesis : State :=
  mkState ∅ ∅ [] 0 0 10 false
    (<[(TOKEN_A, alice) := 10 ^ 20]>
      (<[(TOKEN_A, bob) := 10 ^ 20]>
        (<[(TOKEN_A, carol) := 10 ^ 20]>
          (<[(TOKEN_B, taker) := 10 ^ 30]> ∅)))).

(** The state after [createOrder], the old state if it reverts. *)
Definition afterCreate (e : Env) (o : PublicOrder) (s : State) : State :=
  transact (fun s => fst <$> createOrder e o s) s.

(** Alice sells 1e18 of token A at a target price of 13, protected at
    10%. *)
Definition aliceProtected : PublicOrder := protectedOrder alice (10 ^ 18) 13 (50 * 10 ^ 9) 10.
Definition stProtected : State := afterCreate asAlice aliceProtected genesis.

(** The taker executes it while the market is at 15. *)
Definition stProtectedExecuted : State :=
  transact (executeOrder asTaker (getOrderHash aliceProtected) 15) stProtected.

(** Alice and Bob each escrow 1e18 of token A. *)
Definition aliceOrder : PublicOrder := plainOrder alice (10 ^ 18) (2 * 10 ^ 18) (50 * 10 ^ 9).
Definition bobOrder : PublicOrder := plainOrder bob (10 ^ 18) (2 * 10 ^ 18) (20 * 10 ^ 9).
Definition carolOrder : PublicOrder := plainOrder carol (10 ^ 18) (2 * 10 ^ 18) (20 * 10 ^ 9).
Definition stAlice : State := afterCreate asAlice aliceOrder genesis.
Definition stAliceBob : State := afterCreate asBob bobOrder stAlice.
Definition stThree : State := afterCreate asCarol carolOrder stAliceBob.

(** Bob creates his order before Alice, whose gas bid is the higher. *)
Definition stBobAlice : State :=
  afterCreate asAlice aliceOrder (afterCreate asBob bobOrder genesis).

(** Alice cancels, once and twice. *)
Definition stCancelled : State :=
  transact (cancelOrder asAlice (getOrderHash aliceOrder)) stAliceBob.
Definition stCancelledTwice : State :=
  transact (cancelOrder asAlice (getOrderHash aliceOrder)) stCancelled.

(** The taker executes Alice's order at its target price. *)
Definition stExecuted : State :=
  transact (executeOrder asTaker (getOrderHash aliceOrder) (2 * 10 ^ 18)) stAliceBob.

(** Alice cancels the order the taker has executed. *)
Definition stExecutedCancelled : State :=
  transact (cancelOrder asAlice (getOrderHash aliceOrder)) stExecuted.


(** Alice's order is removed from the three active orders. *)
Definition stThreeMinusAlice : State :=
  transact (cancelOrder asAlice (getOrderHash aliceOrder)) stThree.

End LedgerScenarios.

(** The two phases of [executeOrder] after its [require]s, named so that
    each can be specified on its own; [executeOrderBody_phases] shows that
    the body is their composition. *)
Module ExecutionPhases.
Import TransparentOrderProtocol.

(** The balance check (the [if (order.balanceCheck.enabled)] block). *)
Definition balanceStep (e : Env) (h : bytes32) (s : State) : result balanceOutcome :=
  let order := orderOf s h in
  if bc_enabled (balanceCheck order)
  then
    let currentBalance := balanceOf s (makerAsset order) (user order) in
    if currentBalance <? amount order
    then
      if bc_autoCancel (balanceCheck order)
      then s' ← _cancelOrder e s h "Insufficient balance - auto cancelled";
           Ok (Cancelled s')
      else if bc_autoAdjust (balanceCheck order)
      then s' ← _adjustOrderAmount e s h currentBalance;
           Ok (Proceed s')
      else Ok (Proceed s)
    else Ok (Proceed s)
  else Ok (Proceed s).

(** The settlement (from [takerAmount] to the [OrderExecuted] event). *)
Definition settle (e : Env) (h : bytes32) (s0 : State) : result State :=
  let order := orderOf s0 h in
  prod ← mul (amount order) (targetPrice order);
  takerAmount ← div prod PRICE_PRECISION;
  s1 ← safeTransferFrom s0 (takerAsset order) (msg_sender e) (user order) takerAmount;
  s2 ← safeTransfer e s1 (makerAsset order) (msg_sender e) (amount order);
  let x := execution (orderOf s2 h) in
  attempts' ← add (attempts x) 1;
  let s3 := setOrder s2 h
              (withExecution (orderOf s2 h)
                 (mkExecutionInfo attempts' (block_timestamp e) (failureReason x)
                    (amount (orderOf s2 h)) true)) in
  filled ← add (totalOrdersFilled s3) 1;
  Ok (_removeFromActiveOrders (setFilled s3 filled) h).
End ExecutionPhases.

(** Orders with the balance check switched on. *)
Module BalanceScenarios.
Import TransparentOrderProtocol LedgerScenarios.

(** Alice sells 6e19 of token A at a target price of 2 (scaled by 1e18),
    with the balance check enabled and the two automatic reactions as
    given. *)
Definition checkedOrder (autoCancel autoAdjust : bool) : PublicOrder :=
  mkPublicOrder alice (6 * 10 ^ 19) (2 * 10 ^ 18) (50 * 10 ^ 9) 1000 2000 0 1 1
    TOKEN_A TOKEN_B
    (mkPriceProtection false 0 0 0) (mkWrappedToken 0 0 false 0)
    (mkBalanceCheck true 0 autoAdjust autoCancel 0) (mkExecutionInfo 0 0 "" 0 false).

(** She creates it out of the 1e20 she holds: 6e19 are in escrow and 4e19,
    less than the order amount, stay in her wallet. *)
Definition stChecked (autoCancel autoAdjust : bool) : State :=
  afterCreate asAlice (checkedOrder autoCancel autoAdjust) genesis.

(** An order protected at 150 percent. *)
Definition wideOrder : PublicOrder := protectedOrder alice (10 ^ 18) 13 (50 * 10 ^ 9) 150.
Definition stWide : State := afterCreate asAlice wideOrder genesis.
End BalanceScenarios.

(** An order as the service builds it for the Dogecoin chain. *)
Module CrossChainScenarios.
Import TransparentOrderProtocol LedgerScenarios.

Definition dogeOrder : PublicOrder :=
  mkPublicOrder alice (10 ^ 18) (2 * 10 ^ 18) (50 * 10 ^ 9) 1000 2000 0 2 1
    TOKEN_A TOKEN_B
    (mkPriceProtection false 0 0 0) (mkWrappedToken TOKEN_A 0 true 1000000)
    (mkBalanceCheck false 0 false false 0) (mkExecutionInfo 0 0 "" 0 false).
End CrossChainScenarios.

(** The oracle between refreshes. *)
Module RefreshScenarios.
Import PriceProtectionOracle OracleScenarios.

(** The contract around a store: nothing registered as supported, the
    guard free. *)
Definition oracleAt (s : State) : Contract := mkContract s ∅ [] false.

(** No aggregator answers at time [now]. *)
Definition envDead (now : Z) : Env := mkEnv now (fun _ => None) (fun _ => Some 8).

(** The pair was refreshed at time 10000 from a feed quoting 1000: its
    cache holds 1000e18, stamped 10000. *)
Definition stCached : State :=
  transact (fun s => _updatePriceForPair envThousand s (pairIdOf WETH USDC)) stOneFeed.
End RefreshScenarios.

(** * Properties *)

(** Closed statements about concrete scenarios are settled by evaluation,
    one conjunct at a time. *)
Ltac evaluate :=
  cbv zeta;
  repeat match goal with |- _ ∧ _ => split end;
  vm_compute; first [reflexivity | discriminate | done].

(** ** Checked arithmetic *)

Section Arithmetic.

Lemma add_Ok x y : x + y ≤ MAX_UINT256 → add x y = Ok (x + y).
Proof. intros H. unfold add. by rewrite (proj2 (Z.leb_le _ _) H). Qed.

Lemma sub_Ok x y : y ≤ x → sub x y = Ok (x - y).
Proof. intros H. unfold sub. by rewrite (proj2 (Z.leb_le _ _) H). Qed.

Lemma sub_Err x y : x < y → sub x y = Err Panic.
Proof. intros H. unfold sub. by rewrite (proj2 (Z.leb_gt _ _) H). Qed.

Lemma mul_Ok x y : x * y ≤ MAX_UINT256 → mul x y = Ok (x * y).
Proof. intros H. unfold mul. by rewrite (proj2 (Z.leb_le _ _) H). Qed.

Lemma div_Ok x y : y ≠ 0 → div x y = Ok (x / y).
Proof. intros H. unfold div. by rewrite (proj2 (Z.eqb_neq _ _) H). Qed.

Lemma pow_Ok x y : x ^ y ≤ MAX_UINT256 → pow x y = Ok (x ^ y).
Proof. intros H. unfold pow. by rewrite (proj2 (Z.leb_le _ _) H). Qed.

Lemma pow_Err x y : MAX_UINT256 < x ^ y → pow x y = Err Panic.
Proof. intros H. unfold pow. by rewrite (proj2 (Z.leb_gt _ _) H). Qed.

Lemma sub_inv x y z : sub x y = Ok z → y ≤ x ∧ z = x - y.
Proof. unfold sub. case_match; [|done]. intros [= <-]. split; [lia|done]. Qed.

Lemma add_inv x y z : add x y = Ok z → z = x + y.
Proof. unfold add. case_match; [|done]. by intros [= <-]. Qed.

Lemma mul_inv x y z : mul x y = Ok z → z = x * y.
Proof. unfold mul. case_match; [|done]. by intros [= <-]. Qed.

Lemma div_inv x y z : div x y = Ok z → z = x / y.
Proof. unfold div. case_match; [done|]. by intros [= <-]. Qed.

Lemma bind_Ok {A B} (a : A) (k : A → result B) : Ok a ≫= k = k a.
Proof. reflexivity. Qed.

Lemma bind_Err {A B} (err : error) (k : A → result B) : Err err ≫= k = Err err.
Proof. reflexivity. Qed.

Lemma require_true msg : require true msg = Ok tt.
Proof. reflexivity. Qed.

Lemma require_false msg : require false msg = Err (Revert msg).
Proof. reflexivity. Qed.

End Arithmetic.

(** ** The price oracle *)

Section Oracle.
Import PriceProtectionOracle OracleSpec.

(** A reading that is served as valid passed the three checks. *)
Lemma getPriceFromFeed_valid_inv e feed p :
  _getPriceFromFeed e feed = Ok (p, true) →
  ∃ rd, readable e feed rd ∧ accepted e feed rd.
Proof.
  unfold _getPriceFromFeed, readable, accepted.
  destruct (isActive feed) eqn:Hact; simpl; [|done].
  destruct (oracle feed =? 0) eqn:Horc; [done|].
  destruct (latestRoundData e (oracle feed)) as [rd|] eqn:Hrd; [|done].
  destruct (rawPrice rd <=? 0) eqn:Hraw; [done|].
  destruct (updatedAt rd =? 0) eqn:Hupd; [done|].
  destruct (sub (block_timestamp e) (updatedAt rd)) as [age|] eqn:Hage; [|done].
  simpl. destruct (age >? heartbeat feed) eqn:Hhb; [done|].
  intros _. exists rd. apply sub_inv in Hage as [? ->].
  repeat split; try done; lia.
Qed.

(** A feed that is switched off, unset, unreadable, or whose reading fails
    one of the three checks, is rejected. *)
Lemma getPriceFromFeed_rejects e feed :
  isActive feed = false ∨ oracle feed = 0 ∨
  latestRoundData e (oracle feed) = None ∨
  (∃ rd, latestRoundData e (oracle feed) = Some rd ∧
         (rawPrice rd ≤ 0 ∨ updatedAt rd = 0 ∨
          (updatedAt rd ≤ block_timestamp e ∧
           block_timestamp e - updatedAt rd > heartbeat feed))) →
  _getPriceFromFeed e feed = Ok (0, false).
Proof.
  unfold _getPriceFromFeed. intros H.
  destruct (isActive feed) eqn:Hact; simpl; [|done].
  destruct (oracle feed =? 0) eqn:Horc; [done|].
  destruct H as [?|[?|[->|(rd & -> & H)]]]; [done|lia|done|].
  destruct (rawPrice rd <=? 0) eqn:Hraw; [done|].
  destruct (updatedAt rd =? 0) eqn:Hupd; [done|].
  destruct H as [?|[?|[Hle Hst]]]; [lia|lia|].
  rewrite sub_Ok by done. simpl.
  destruct (_ >? _) eqn:Hhb; [done|lia].
Qed.

(** The value a feed serves for an accepted reading, when the arithmetic
    of the normalisation stays in range. *)
Lemma getPriceFromFeed_accepts e feed rd d :
  readable e feed rd → accepted e feed rd →
  updatedAt rd ≤ block_timestamp e →
  decimals e (oracle feed) = Some d →
  0 ≤ d → 10 ^ d ≤ MAX_UINT256 →
  rawPrice rd * (PRICE_PRECISION / 10 ^ d) ≤ MAX_UINT256 →
  _getPriceFromFeed e feed =
    Ok (if isInverted feed && (rawPrice rd * (PRICE_PRECISION / 10 ^ d) >? 0)
        then PRICE_PRECISION * PRICE_PRECISION / (rawPrice rd * (PRICE_PRECISION / 10 ^ d))
        else rawPrice rd * (PRICE_PRECISION / 10 ^ d), true).
Proof.
  intros (Hact & Horc & Hrd) (Hraw & Hupd & Hhb) Hle Hd Hd0 Hpow Hmul.
  unfold _getPriceFromFeed. rewrite Hact, Hrd, Hd. simpl.
  destruct (oracle feed =? 0) eqn:E; [lia|].
  destruct (rawPrice rd <=? 0) eqn:E1; [lia|].
  destruct (updatedAt rd =? 0) eqn:E2; [lia|].
  rewrite sub_Ok by done. simpl.
  destruct (_ >? _) eqn:E3; [lia|].
  rewrite pow_Ok by done. simpl.
  assert (10 ^ d ≠ 0) by (apply Z.pow_nonzero; lia).
  rewrite div_Ok by done. simpl.
  rewrite mul_Ok by done. simpl.
  destruct (isInverted feed); simpl; [|done].
  destruct (_ >? 0) eqn:E4; [|done].
  rewrite div_Ok by lia. done.
Qed.

Lemma getCurrentPriceInternal_unfold e s id :
  baseToken (pairOf s id) ≠ 0 →
  _getCurrentPriceInternal e s id =
    ('(price, isValid) ← _getPriceFromFeed e (primaryFeed (pairOf s id));
     '(price, isValid) ←
        (if negb isValid && isActive (secondaryFeed (pairOf s id))
         then _getPriceFromFeed e (secondaryFeed (pairOf s id))
         else Ok (price, isValid));
     if negb isValid && (lastValidPrice (pairOf s id) >? 0)
     then
       age ← sub (block_timestamp e) (lastUpdateTime (pairOf s id));
       if age <=? maxPriceAge s then Ok (lastValidPrice (pairOf s id), true)
       else Ok (price, isValid)
     else Ok (price, isValid)).
Proof.
  intros H. unfold _getCurrentPriceInternal.
  destruct (baseToken (pairOf s id) =? 0) eqn:E; [lia|done].
Qed.

(** The primary feed wins whenever its reading is served. *)
Lemma getCurrentPrice_primary e s id p :
  baseToken (pairOf s id) ≠ 0 →
  _getPriceFromFeed e (primaryFeed (pairOf s id)) = Ok (p, true) →
  _getCurrentPriceInternal e s id = Ok (p, true).
Proof.
  intros Hb Hp. rewrite getCurrentPriceInternal_unfold by done.
  rewrite Hp. done.
Qed.

(** The secondary feed is asked when the primary is rejected and it is
    active, and its reading is served when it passes. *)
Lemma getCurrentPrice_secondary e s id p0 p :
  baseToken (pairOf s id) ≠ 0 →
  _getPriceFromFeed e (primaryFeed (pairOf s id)) = Ok (p0, false) →
  isActive (secondaryFeed (pairOf s id)) = true →
  _getPriceFromFeed e (secondaryFeed (pairOf s id)) = Ok (p, true) →
  _getCurrentPriceInternal e s id = Ok (p, true).
Proof.
  intros Hb Hp Hact Hs. rewrite getCurrentPriceInternal_unfold by done.
  rewrite Hp. simpl. rewrite Hact, Hs. done.
Qed.

(** A rejected reading carries the price 0. *)
Lemma getPriceFromFeed_invalid_zero e feed p :
  _getPriceFromFeed e feed = Ok (p, false) → p = 0.
Proof.
  unfold _getPriceFromFeed.
  destruct (negb (isActive feed) || (oracle feed =? 0)); [by intros [= <-]|].
  destruct (latestRoundData e (oracle feed)) as [rd|]; [|by intros [= <-]].
  destruct (rawPrice rd <=? 0); [by intros [= <-]|].
  destruct (updatedAt rd =? 0); [by intros [= <-]|].
  destruct (sub _ _) as [age|]; [simpl|done].
  destruct (age >? heartbeat feed); [by intros [= <-]|].
  destruct (decimals e (oracle feed)) as [d|]; [|done].
  destruct (pow 10 d); [simpl|done].
  destruct (div PRICE_PRECISION _); [simpl|done].
  destruct (mul _ _) as [price|]; [simpl|done].
  destruct (isInverted feed && (price >? 0)); [|done].
  by destruct (div _ price).
Qed.

(** A reading is reported as invalid only for one of the reasons of
    [rejected]. *)
Lemma getPriceFromFeed_invalid_inv e feed p :
  _getPriceFromFeed e feed = Ok (p, false) → rejected e feed.
Proof.
  unfold _getPriceFromFeed, rejected.
  destruct (isActive feed) eqn:Hact; simpl; [|by left].
  destruct (oracle feed =? 0) eqn:Horc; [intros _; right; left; lia|].
  destruct (latestRoundData e (oracle feed)) as [rd|] eqn:Hrd;
    [|intros _; right; right; by left].
  intros H. right; right; right. exists rd. split; [done|].
  destruct (rawPrice rd <=? 0) eqn:E1; [left; lia|].
  destruct (updatedAt rd =? 0) eqn:E2; [right; left; lia|].
  destruct (sub (block_timestamp e) (updatedAt rd)) as [age|] eqn:Hsub; [|done].
  simpl in H. apply sub_inv in Hsub as [Hle ->].
  destruct (_ >? heartbeat feed) eqn:E3; [right; right; lia|].
  exfalso.
  destruct (decimals e (oracle feed)) as [d|]; [|done].
  destruct (pow 10 d); [simpl in H|done].
  destruct (div PRICE_PRECISION _); [simpl in H|done].
  destruct (mul _ _) as [price|]; [simpl in H|done].
  destruct (isInverted feed && (price >? 0)); [|done].
  by destruct (div _ price).
Qed.

(** For a heartbeat that is not negative, the rejected feeds are the feeds
    without a reading that passes the three checks. *)
Lemma rejected_iff_no_accepted_reading e feed :
  0 ≤ heartbeat feed →
  (rejected e feed ↔ ∀ rd, readable e feed rd → ¬ accepted e feed rd).
Proof.
  intros Hhb. unfold rejected, readable, accepted. split.
  - intros Hrej rd (Hact & Horc & Hrd) (Hraw & Hupd & Hage).
    destruct Hrej as [H|[H|[H|(rd' & Hrd' & H)]]]; [congruence|done|congruence|].
    rewrite Hrd in Hrd'. injection Hrd' as <-.
    destruct H as [H|[H|[_ H]]]; lia.
  - intros Hno.
    destruct (isActive feed) eqn:Hact; [|by left].
    destruct (decide (oracle feed = 0)) as [Horc|Horc]; [right; by left|].
    destruct (latestRoundData e (oracle feed)) as [rd|] eqn:Hrd;
      [|right; right; by left].
    right; right; right. exists rd. split; [done|].
    destruct (decide (rawPrice rd ≤ 0)) as [H1|H1]; [by left|].
    destruct (decide (updatedAt rd = 0)) as [H2|H2]; [right; by left|].
    right; right.
    destruct (decide (block_timestamp e - updatedAt rd ≤ heartbeat feed)) as [H3|H3].
    + exfalso. apply (Hno rd); [done|]. split; [lia|]. done.
    + lia.
Qed.

(** With both feeds rejected the cache decides. *)
Lemma getCurrentPrice_cache e s id p0 :
  baseToken (pairOf s id) ≠ 0 →
  _getPriceFromFeed e (primaryFeed (pairOf s id)) = Ok (p0, false) →
  isActive (secondaryFeed (pairOf s id)) = false ∨
    (∃ p1, _getPriceFromFeed e (secondaryFeed (pairOf s id)) = Ok (p1, false)) →
  lastUpdateTime (pairOf s id) ≤ block_timestamp e →
  _getCurrentPriceInternal e s id =
    (if (lastValidPrice (pairOf s id) >? 0) &&
        (block_timestamp e - lastUpdateTime (pairOf s id) <=? maxPriceAge s)
     then Ok (lastValidPrice (pairOf s id), true)
     else Ok (0, false)).
Proof.
  intros Hb Hp Hs Hle. rewrite getCurrentPriceInternal_unfold by done.
  pose proof (getPriceFromFeed_invalid_zero _ _ _ Hp) as ->.
  rewrite Hp. simpl.
  assert (∀ r : result (uint256 * bool), r = Ok (0, false) →
    (r ≫= (λ '(price, isValid),
       if negb isValid && (lastValidPrice (pairOf s id) >? 0)
       then
         age ← sub (block_timestamp e) (lastUpdateTime (pairOf s id));
         if age <=? maxPriceAge s then Ok (lastValidPrice (pairOf s id), true)
         else Ok (price, isValid)
       else Ok (price, isValid))) =
    (if (lastValidPrice (pairOf s id) >? 0) &&
        (block_timestamp e - lastUpdateTime (pairOf s id) <=? maxPriceAge s)
     then Ok (lastValidPrice (pairOf s id), true)
     else Ok (0, false))) as Htail.
  { intros r ->. simpl. destruct (_ >? 0); simpl; [|done].
    rewrite sub_Ok by done. simpl. by destruct (_ <=? _). }
  apply Htail.
  destruct Hs as [->|[p1 Hs]]; [done|].
  pose proof (getPriceFromFeed_invalid_zero _ _ _ Hs) as ->.
  rewrite Hs. by destruct (isActive _).
Qed.

(** The public entry point adds the pause switch. *)
Lemma getCurrentPrice_paused e s base quote :
  getCurrentPrice e s base quote =
    if emergencyPaused s then Err (Revert "Price oracle paused")
    else _getCurrentPriceInternal e s (pairIdOf base quote).
Proof. unfold getCurrentPrice. by destruct (emergencyPaused s). Qed.

(** C5.  The failover order of the price lookup, for a registered pair.
    On a feed: a reading is served as valid only if rawPrice > 0,
    updatedAt ≠ 0 and now − updatedAt ≤ heartbeat; a feed that is switched
    off or unset, whose aggregator does not answer, or whose reading fails
    one of the three checks (that is, a feed without a reading to accept)
    is reported as rejected, with the price 0 and without a revert, and a
    feed is reported as rejected for no other reason; an accepted reading
    whose normalisation stays in range is served.  On the lookup: the primary feed is served when it passes;
    when it is rejected and the secondary feed is active, the secondary is
    served when it passes; when both are rejected (or the secondary is
    switched off) the cached price is served as valid only when
    now − lastUpdateTime ≤ maxPriceAge (it is served then if it is
    positive), and the result is invalid, with the price 0, otherwise; in
    particular a stale primary with a valid secondary yields the
    secondary's value. *)
Theorem getPrice_failover (e : Env) (s : State) (id : bytes32) :
  let pair := pairOf s id in
  let primary := _getPriceFromFeed e (primaryFeed pair) in
  let secondary := _getPriceFromFeed e (secondaryFeed pair) in
  let age := block_timestamp e - lastUpdateTime pair in
  let lookup := _getCurrentPriceInternal e s id in
  baseToken pair ≠ 0 →
  0 ≤ heartbeat (primaryFeed pair) →
  lastUpdateTime pair ≤ block_timestamp e →
  (∀ feed p, _getPriceFromFeed e feed = Ok (p, true) →
     ∃ rd, latestRoundData e (oracle feed) = Some rd ∧ accepted e feed rd) ∧
  (∀ feed, rejected e feed → _getPriceFromFeed e feed = Ok (0, false)) ∧
  (∀ feed p, _getPriceFromFeed e feed = Ok (p, false) → p = 0 ∧ rejected e feed) ∧
  (∀ feed, 0 ≤ heartbeat feed →
     (rejected e feed ↔ ∀ rd, readable e feed rd → ¬ accepted e feed rd)) ∧
  (∀ feed rd d, readable e feed rd → accepted e feed rd →
     updatedAt rd ≤ block_timestamp e →
     decimals e (oracle feed) = Some d → 0 ≤ d → 10 ^ d ≤ MAX_UINT256 →
     rawPrice rd * (PRICE_PRECISION / 10 ^ d) ≤ MAX_UINT256 →
     ∃ p, _getPriceFromFeed e feed = Ok (p, true)) ∧
  (∀ p, primary = Ok (p, true) → lookup = Ok (p, true)) ∧
  (∀ p, rejected e (primaryFeed pair) →
     isActive (secondaryFeed pair) = true → secondary = Ok (p, true) →
     lookup = Ok (p, true)) ∧
  (rejected e (primaryFeed pair) →
   isActive (secondaryFeed pair) = false ∨ rejected e (secondaryFeed pair) →
     (0 < lastValidPrice pair → age ≤ maxPriceAge s →
        lookup = Ok (lastValidPrice pair, true)) ∧
     (age > maxPriceAge s → lookup = Ok (0, false)) ∧
     (lastValidPrice pair ≤ 0 → lookup = Ok (0, false)) ∧
     (∀ p, lookup = Ok (p, true) →
        p = lastValidPrice pair ∧ age ≤ maxPriceAge s)) ∧
  (∀ rd p, readable e (primaryFeed pair) rd →
     age_of_reading e rd > heartbeat (primaryFeed pair) →
     isActive (secondaryFeed pair) = true → secondary = Ok (p, true) →
     lookup = Ok (p, true)).
Proof.
  intros pair primary secondary age lookup. subst pair primary secondary age lookup.
  intros Hb Hhb Hle.
  split; [|split; [|split; [|split; [|split; [|split; [|split; [|split]]]]]]].
  - intros feed p H. apply getPriceFromFeed_valid_inv in H as (rd & (_ & _ & ?) & ?).
    by exists rd.
  - intros feed H. by apply getPriceFromFeed_rejects.
  - intros feed p H. split.
    + by apply (getPriceFromFeed_invalid_zero e feed).
    + by apply (getPriceFromFeed_invalid_inv e feed p).
  - intros feed Hhbf. by apply rejected_iff_no_accepted_reading.
  - intros feed rd d Hread Hacc Hupd Hd Hd0 Hpow Hmul. eexists.
    by apply (getPriceFromFeed_accepts e feed rd d).
  - intros p. by apply getCurrentPrice_primary.
  - intros p Hrej Hact Hs.
    apply (getCurrentPrice_secondary e s id 0 p); [done| |done|done].
    by apply getPriceFromFeed_rejects.
  - intros Hrej Hs.
    assert (_getPriceFromFeed e (primaryFeed (pairOf s id)) = Ok (0, false)) as Hp
      by (by apply getPriceFromFeed_rejects).
    assert (isActive (secondaryFeed (pairOf s id)) = false ∨
            (∃ p1, _getPriceFromFeed e (secondaryFeed (pairOf s id)) = Ok (p1, false)))
      as Hs'.
    { destruct Hs as [Hs|Hs]; [by left|right]. exists 0.
      by apply getPriceFromFeed_rejects. }
    pose proof (getCurrentPrice_cache e s id 0 Hb Hp Hs' Hle) as Hc.
    split; [|split; [|split]].
    + intros Hpos Hage. rewrite Hc.
      destruct (_ >? 0) eqn:E1; [|lia]. destruct (_ <=? _) eqn:E2; [done|lia].
    + intros Hage. rewrite Hc.
      destruct (_ <=? _) eqn:E2; [lia|]. by rewrite andb_false_r.
    + intros Hzero. rewrite Hc. destruct (_ >? 0) eqn:E1; [lia|done].
    + intros p. rewrite Hc.
      destruct (_ >? 0) eqn:E1; simpl; [|done].
      destruct (_ <=? _) eqn:E2; [|done]. intros [= <-]. split; [done|lia].
  - intros rd p (Hact & Horc & Hrd) Hstale Hact2 Hs.
    unfold age_of_reading in Hstale.
    eapply getCurrentPrice_secondary; [done| |done|done].
    apply getPriceFromFeed_rejects. right; right; right.
    exists rd. split; [done|]. right; right. lia.
Qed.

Lemma getPrice_failover_witness :
  _getCurrentPriceInternal OracleScenarios.envStalePrimary OracleScenarios.stTwoFeeds
    (pairIdOf OracleScenarios.WETH OracleScenarios.USDC)
  = Ok (2001 * 10 ^ 18, true) ∧
  _getCurrentPriceInternal OracleScenarios.envZeroPrimary OracleScenarios.stTwoFeeds
    (pairIdOf OracleScenarios.WETH OracleScenarios.USDC)
  = Ok (2001 * 10 ^ 18, true).
Proof.
  split.
  - destruct (getPrice_failover OracleScenarios.envStalePrimary OracleScenarios.stTwoFeeds
                (pairIdOf OracleScenarios.WETH OracleScenarios.USDC))
      as (_ & _ & _ & _ & _ & _ & _ & _ & H).
    + vm_compute. discriminate.
    + vm_compute. discriminate.
    + vm_compute. discriminate.
    + apply (H (mkRoundData 1 (2000 * 10 ^ 8) 0 5000 1)).
      * repeat split. vm_compute. discriminate.
      * vm_compute. reflexivity.
      * reflexivity.
      * vm_compute. reflexivity.
  - destruct (getPrice_failover OracleScenarios.envZeroPrimary OracleScenarios.stTwoFeeds
                (pairIdOf OracleScenarios.WETH OracleScenarios.USDC))
      as (_ & _ & _ & _ & _ & _ & H & _).
    + vm_compute. discriminate.
    + vm_compute. discriminate.
    + vm_compute. discriminate.
    + apply H.
      * right; right; right. exists (mkRoundData 1 0 0 9990 1).
        split; [reflexivity|]. left. vm_compute. discriminate.
      * reflexivity.
      * vm_compute. reflexivity.
Defined.

Lemma pow10_le_max d : 0 ≤ d ≤ 77 → 10 ^ d ≤ MAX_UINT256.
Proof.
  intros H. transitivity (10 ^ 77).
  - apply Z.pow_le_mono_r; lia.
  - vm_compute. discriminate.
Qed.

Lemma pow10_gt_max d : 78 ≤ d → MAX_UINT256 < 10 ^ d.
Proof.
  intros H. apply Z.lt_le_trans with (10 ^ 78).
  - vm_compute. reflexivity.
  - apply Z.pow_le_mono_r; lia.
Qed.

(** The scaling factor of the normalisation. *)
Lemma scale_factor_small d : 0 ≤ d ≤ 18 → PRICE_PRECISION / 10 ^ d = 10 ^ (18 - d).
Proof.
  intros H. unfold PRICE_PRECISION.
  replace 18 with ((18 - d) + d) at 1 by lia.
  rewrite Z.pow_add_r by lia. apply Z.div_mul. apply Z.pow_nonzero; lia.
Qed.

Lemma scale_factor_large d : 18 < d → PRICE_PRECISION / 10 ^ d = 0.
Proof.
  intros H. apply Z.div_small. unfold PRICE_PRECISION. split; [lia|].
  apply Z.pow_lt_mono_r; lia.
Qed.

(** A valid lookup is written to the cache by [_updatePriceForPair]. *)
Lemma updatePriceForPair_caches e s id p :
  _getCurrentPriceInternal e s id = Ok (p, true) →
  ∃ s', _updatePriceForPair e s id = Ok s' ∧
        lastValidPrice (pairOf s' id) = p ∧
        lastUpdateTime (pairOf s' id) = block_timestamp e.
Proof.
  intros H. unfold _updatePriceForPair. rewrite H. simpl.
  eexists. split; [done|].
  unfold pairOf, setHistory, setPair. simpl. by rewrite lookup_insert_eq.
Qed.

(** C10 (amended).  For an accepted reading of a feed with [d] decimals:
    when d ≤ 18 the factor 1e18 / 10^d is 10^(18−d) and the feed serves
    rawPrice·10^(18−d) (its inverse on the 1e36 scale for an inverted
    feed), as long as the product fits 256 bits; when 18 < d ≤ 77 the
    factor truncates to 0 and the feed serves the price 0 as valid, which
    the pair lookup returns as valid and the refresh caches as
    lastValidPrice; when d ≥ 78 the power 10^d overflows 256 bits and the
    read reverts. *)
Theorem feed_normalization (e : Env) (feed : PriceFeed) (rd : RoundData) (d : Z) :
  readable e feed rd → accepted e feed rd →
  updatedAt rd ≤ block_timestamp e →
  decimals e (oracle feed) = Some d →
  (0 ≤ d ≤ 18 →
     PRICE_PRECISION / 10 ^ d = 10 ^ (18 - d) ∧
     (rawPrice rd * 10 ^ (18 - d) ≤ MAX_UINT256 →
      _getPriceFromFeed e feed =
        Ok (if isInverted feed
            then PRICE_PRECISION * PRICE_PRECISION / (rawPrice rd * 10 ^ (18 - d))
            else rawPrice rd * 10 ^ (18 - d), true))) ∧
  (18 < d ≤ 77 →
     PRICE_PRECISION / 10 ^ d = 0 ∧
     _getPriceFromFeed e feed = Ok (0, true) ∧
     ∀ s id, baseToken (pairOf s id) ≠ 0 → primaryFeed (pairOf s id) = feed →
       _getCurrentPriceInternal e s id = Ok (0, true) ∧
       ∃ s', _updatePriceForPair e s id = Ok s' ∧ lastValidPrice (pairOf s' id) = 0) ∧
  (78 ≤ d → _getPriceFromFeed e feed = Err Panic).
Proof.
  intros Hread Hacc Hle Hd. split; [|split].
  - intros Hd18. pose proof (scale_factor_small d Hd18) as Hf.
    split; [done|]. intros Hfit.
    pose proof (getPriceFromFeed_accepts e feed rd d Hread Hacc Hle Hd
                  ltac:(lia) (pow10_le_max d ltac:(lia))) as Hg.
    rewrite Hf in Hg. rewrite (Hg Hfit). destruct Hacc as (Hraw & _).
    assert (0 < 10 ^ (18 - d)) by (apply Z.pow_pos_nonneg; lia).
    assert ((rawPrice rd * 10 ^ (18 - d) >? 0) = true) as -> by nia.
    by rewrite andb_true_r.
  - intros Hd77. pose proof (scale_factor_large d (proj1 Hd77)) as Hf.
    assert (_getPriceFromFeed e feed = Ok (0, true)) as H0.
    { pose proof (getPriceFromFeed_accepts e feed rd d Hread Hacc Hle Hd
                    ltac:(lia) (pow10_le_max d ltac:(lia))) as Hg.
      rewrite Hf, Z.mul_0_r in Hg. rewrite Hg by (vm_compute; discriminate).
      simpl. by rewrite andb_false_r. }
    split; [done|]. split; [done|].
    intros s id Hb Hfeed.
    assert (_getCurrentPriceInternal e s id = Ok (0, true)) as Hc.
    { apply getCurrentPrice_primary; [done|]. by rewrite Hfeed. }
    split; [done|].
    destruct (updatePriceForPair_caches e s id 0 Hc) as (s' & ? & ? & _).
    by exists s'.
  - intros Hd78. destruct Hread as (Hact & Horc & Hrd).
    destruct Hacc as (Hraw & Hupd & Hhb).
    unfold _getPriceFromFeed. rewrite Hact, Hrd, Hd. simpl.
    destruct (oracle feed =? 0) eqn:E; [lia|].
    destruct (rawPrice rd <=? 0) eqn:E1; [lia|].
    destruct (updatedAt rd =? 0) eqn:E2; [lia|].
    rewrite sub_Ok by done. simpl.
    destruct (_ >? _) eqn:E3; [lia|].
    by rewrite pow_Err by (by apply pow10_gt_max).
Qed.

Lemma feed_normalization_witness :
  _getPriceFromFeed (OracleScenarios.envFresh (1000 * 10 ^ 8) 20)
    (OracleScenarios.hourly OracleScenarios.feedA) = Ok (0, true).
Proof.
  destruct (feed_normalization (OracleScenarios.envFresh (1000 * 10 ^ 8) 20)
              (OracleScenarios.hourly OracleScenarios.feedA)
              (mkRoundData 1 (1000 * 10 ^ 8) 0 9990 1) 20) as (_ & H & _).
  - repeat split. vm_compute. discriminate.
  - repeat split; vm_compute; discriminate.
  - vm_compute. discriminate.
  - reflexivity.
  - destruct H as (_ & H & _); [lia|]. exact H.
Defined.

(** C10, as stated, fails at 78 decimals: the reading is accepted, the
    decimals exceed 18, and the read reverts instead of returning the
    price 0 as valid. *)
Lemma feed_normalization_reverts_at_78_decimals :
  let e := OracleScenarios.envFresh (1000 * 10 ^ 8) 78 in
  let feed := OracleScenarios.hourly OracleScenarios.feedA in
  decimals e (oracle feed) = Some 78 ∧
  accepted e feed (mkRoundData 1 (1000 * 10 ^ 8) 0 9990 1) ∧
  latestRoundData e (oracle feed) = Some (mkRoundData 1 (1000 * 10 ^ 8) 0 9990 1) ∧
  _getPriceFromFeed e feed = Err Panic ∧
  _getPriceFromFeed e feed ≠ Ok (0, true).
Proof.
  unfold OracleSpec.accepted. evaluate.
Qed.

(** *** Price validation *)

(** The tolerance the code resolves. *)
Lemma tolerance_resolution s token custom :
  (if custom >? 0 then custom else _getDefaultTolerance s token) =
  (if custom >? 0 then custom
   else if toleranceOf s token >? 0 then toleranceOf s token
   else MAJOR_TOLERANCE).
Proof. reflexivity. Qed.

(** It is the tolerance of the specification as long as the global
    default still has its initial value. *)
Lemma tolerance_resolution_initial s token custom :
  globalTolerancePercent s = MAJOR_TOLERANCE →
  (if custom >? 0 then custom else _getDefaultTolerance s token) =
  specTolerance s token custom.
Proof. intros H. unfold specTolerance, _getDefaultTolerance. by rewrite H. Qed.

(** Without a valid market price the validation fails. *)
Lemma validateOrderPrice_unavailable e s base quote price custom p :
  price > 0 →
  _getCurrentPriceInternal e s (pairIdOf base quote) = Ok (p, false) →
  validateOrderPrice e s base quote price custom
  = Err (Revert "Market price unavailable").
Proof.
  intros Hp H. unfold validateOrderPrice.
  destruct (price >? 0) eqn:E; [|lia]. simpl. by rewrite H.
Qed.

(** The bounds test and the deviation, once the market price and the
    tolerance are known. *)
Lemma validateOrderPrice_tail market tol price :
  price > 0 → market > 0 → 0 ≤ tol ≤ MAX_DEVIATION →
  market * (BASIS_POINTS + tol) ≤ MAX_UINT256 →
  Z.abs (price - market) * BASIS_POINTS ≤ MAX_UINT256 →
  let within := (specLowerBound market tol <=? price) &&
                (price <=? specUpperBound market tol) in
  (require (tol <=? MAX_DEVIATION) "Tolerance too high";;
   lo ← sub BASIS_POINTS tol;
   loProd ← mul market lo;
   lowerBound ← div loProd BASIS_POINTS;
   hi ← add BASIS_POINTS tol;
   hiProd ← mul market hi;
   upperBound ← div hiProd BASIS_POINTS;
   let isWithinTolerance := (lowerBound <=? price) && (price <=? upperBound) in
   dev ← (if price >? market
          then d ← sub price market; p ← mul d BASIS_POINTS; div p market
          else d ← sub market price; p ← mul d BASIS_POINTS; div p market);
   Ok (mkPriceValidation isWithinTolerance price market dev
         (if isWithinTolerance then "WITHIN_TOLERANCE" else "OUTSIDE_TOLERANCE")))
  = Ok (mkPriceValidation within price market (specDeviation price market)
          (if within then "WITHIN_TOLERANCE" else "OUTSIDE_TOLERANCE")).
Proof.
  intros Hp Hm0 Htol Hhi Hdev within. subst within.
  unfold specLowerBound, specUpperBound, specDeviation.
  unfold MAX_DEVIATION, BASIS_POINTS in *.
  destruct (tol <=? 2000) eqn:E1; [|lia]. rewrite require_true, bind_Ok.
  rewrite (sub_Ok 10000 tol), bind_Ok by lia.
  rewrite (mul_Ok market (10000 - tol)), bind_Ok by nia.
  rewrite (div_Ok _ 10000), bind_Ok by lia.
  rewrite (add_Ok 10000 tol), bind_Ok by (unfold MAX_UINT256; lia).
  rewrite (mul_Ok market (10000 + tol)), bind_Ok by done.
  rewrite (div_Ok _ 10000), bind_Ok by lia.
  cbv zeta.
  destruct (price >? market) eqn:E2.
  - rewrite sub_Ok, bind_Ok by lia.
    rewrite Z.abs_eq in * by lia.
    rewrite mul_Ok, bind_Ok by done. rewrite div_Ok, bind_Ok by lia. done.
  - rewrite sub_Ok, bind_Ok by lia.
    rewrite Z.abs_neq in * by lia.
    replace (- (price - market)) with (market - price) in * by lia.
    rewrite mul_Ok, bind_Ok by done. rewrite div_Ok, bind_Ok by lia. done.
Qed.

(** With a valid market price the validation returns the bounds test and
    the deviation of the specification, for the tolerance the code
    resolves. *)
Lemma validateOrderPrice_computes e s base quote price custom market :
  price > 0 →
  _getCurrentPriceInternal e s (pairIdOf base quote) = Ok (market, true) →
  market > 0 →
  let tol := if custom >? 0 then custom else _getDefaultTolerance s base in
  0 ≤ tol ≤ MAX_DEVIATION →
  market * (BASIS_POINTS + tol) ≤ MAX_UINT256 →
  Z.abs (price - market) * BASIS_POINTS ≤ MAX_UINT256 →
  let within := (specLowerBound market tol <=? price) &&
                (price <=? specUpperBound market tol) in
  validateOrderPrice e s base quote price custom =
    Ok (mkPriceValidation within price market (specDeviation price market)
          (if within then "WITHIN_TOLERANCE" else "OUTSIDE_TOLERANCE")).
Proof.
  intros Hp Hm Hm0 tol Htol Hhi Hdev within.
  unfold validateOrderPrice.
  destruct (price >? 0) eqn:E; [|lia].
  rewrite require_true, bind_Ok, Hm, bind_Ok, require_true, bind_Ok.
  by apply validateOrderPrice_tail.
Qed.

(** C6.  After the owner has set the global tolerance to 500 bps, an order
    on a token without an override, validated without a call-supplied
    tolerance, is still judged against 1000 bps: a price 8% above the
    market is reported within tolerance, although the tolerance the
    specification resolves (and [getToleranceForToken] reports) is 500. *)
Theorem validateOrderPrice_ignores_global_tolerance :
  let e := OracleScenarios.envThousand in
  let s := OracleScenarios.stGlobal500 in
  let token := OracleScenarios.WETH in
  setGlobalTolerance OracleScenarios.stOneFeed 500 = Ok s ∧
  toleranceOf s token = 0 ∧
  getToleranceForToken s token = 500 ∧
  specTolerance s token 0 = 500 ∧
  specUpperBound (1000 * 10 ^ 18) (specTolerance s token 0) < 1080 * 10 ^ 18 ∧
  validateOrderPrice e s token OracleScenarios.USDC (1080 * 10 ^ 18) 0 =
    Ok (mkPriceValidation true (1080 * 10 ^ 18) (1000 * 10 ^ 18) 800 "WITHIN_TOLERANCE").
Proof.
  evaluate.
Qed.

(** *** Batch validation *)

Lemma validateEach_Ok e s entries vs :
  validateEach e s entries = Ok vs ↔
  Forall2 (λ x v, validateEntry e s x = Ok v) entries vs.
Proof.
  revert vs. induction entries as [|[[[b q] p] t] rest IH]; intros vs; simpl.
  - split.
    + intros [= <-]. constructor.
    + intros H. by inversion H.
  - split.
    + destruct (validateOrderPrice e s b q p t) as [v|] eqn:Hv; [simpl|done].
      destruct (validateEach e s rest) as [vs'|] eqn:Hr; [simpl|done].
      intros [= <-]. constructor; [done|]. by apply IH.
    + intros H. inversion H as [|x v l l' Hx Hl]; subst.
      simpl in Hx. rewrite Hx. simpl.
      apply IH in Hl. rewrite Hl. done.
Qed.

Lemma validateEach_Err e s entries x err :
  x ∈ entries → validateEntry e s x = Err err →
  ∃ err', validateEach e s entries = Err err'.
Proof.
  induction entries as [|[[[b q] p] t] rest IH]; intros Hin Hx.
  - by apply elem_of_nil in Hin.
  - simpl. apply elem_of_cons in Hin as [->|Hin].
    + simpl in Hx. rewrite Hx. by eexists.
    + destruct (validateOrderPrice e s b q p t); [simpl|by eexists].
      destruct (IH Hin Hx) as [err' ->]. by eexists.
Qed.

(** C4 (amended).  A batch of more than 20 entries is refused.  A batch of
    at most 20 entries returns exactly when every entry validates on its
    own, with the results of the entries in order; an entry that is
    outside its tolerance is a result like any other, but an entry whose
    validation fails makes the whole batch fail, and no result of another
    entry is returned. *)
Theorem batchValidate_all_or_nothing (e : Env) (s : State)
    (bs qs : list address) (ps ts : list uint256) :
  length bs = length qs → length bs = length ps → length bs = length ts →
  ((20 < length bs)%nat →
     batchValidateOrderPrices e s bs qs ps ts = Err (Revert "Too many orders")) ∧
  ((length bs ≤ 20)%nat →
     (∀ vs, batchValidateOrderPrices e s bs qs ps ts = Ok vs ↔
            Forall2 (λ x v, validateEntry e s x = Ok v) (zip4 bs qs ps ts) vs) ∧
     (∀ x err, x ∈ zip4 bs qs ps ts → validateEntry e s x = Err err →
            ∃ err', batchValidateOrderPrices e s bs qs ps ts = Err err')).
Proof.
  intros H1 H2 H3. unfold batchValidateOrderPrices.
  rewrite <- H1, <- H2, <- H3, Nat.eqb_refl. simpl.
  split.
  - intros Hlen. destruct (_ <=? 20)%nat eqn:E; [|done].
    apply Nat.leb_le in E. lia.
  - intros Hlen. destruct (_ <=? 20)%nat eqn:E.
    2: { apply Nat.leb_gt in E. lia. }
    simpl. split.
    + intros vs. apply validateEach_Ok.
    + intros x err. apply validateEach_Err.
Qed.

Lemma batchValidate_all_or_nothing_witness :
  ∃ err, batchValidateOrderPrices OracleScenarios.envThousand OracleScenarios.stOneFeed
           OracleScenarios.batchBases OracleScenarios.batchQuotes
           OracleScenarios.batchPrices OracleScenarios.batchTolerances = Err err.
Proof.
  destruct (batchValidate_all_or_nothing OracleScenarios.envThousand
              OracleScenarios.stOneFeed
              OracleScenarios.batchBases OracleScenarios.batchQuotes
              OracleScenarios.batchPrices OracleScenarios.batchTolerances)
    as (_ & H); [reflexivity|reflexivity|reflexivity|].
  destruct H as (_ & H); [simpl; lia|].
  apply (H (OracleScenarios.WETH, OracleScenarios.USDC, 1000 * 10 ^ 18, 5000)
           (Revert "Tolerance too high")).
  - vm_compute. left.
  - vm_compute. reflexivity.
Defined.

(** C4, as stated, fails on a batch of two entries: the first asks for a
    tolerance out of range and fails; the second validates on its own; the
    batch returns no result at all. *)
Lemma batchValidate_one_failure_aborts :
  let e := OracleScenarios.envThousand in
  let s := OracleScenarios.stOneFeed in
  validateOrderPrice e s OracleScenarios.WETH OracleScenarios.USDC (1000 * 10 ^ 18) 5000
    = Err (Revert "Tolerance too high") ∧
  validateOrderPrice e s OracleScenarios.WETH OracleScenarios.USDC (1010 * 10 ^ 18) 0
    = Ok (mkPriceValidation true (1010 * 10 ^ 18) (1000 * 10 ^ 18) 100 "WITHIN_TOLERANCE") ∧
  batchValidateOrderPrices e s OracleScenarios.batchBases OracleScenarios.batchQuotes
    OracleScenarios.batchPrices OracleScenarios.batchTolerances
    = Err (Revert "Tolerance too high").
Proof.
  evaluate.
Qed.

End Oracle.

(** ** The order ledger *)

Section Ledger.
Import TransparentOrderProtocol LedgerSpec.

(** *** Reading the state through the setters *)

Lemma orderOf_setOrder s h o : orderOf (setOrder s h o) h = o.
Proof. unfold orderOf, setOrder. simpl. by rewrite lookup_insert_eq. Qed.

Lemma orderOf_setOrder_ne s h h' o : h ≠ h' → orderOf (setOrder s h o) h' = orderOf s h'.
Proof. intros H. unfold orderOf, setOrder. simpl. by rewrite lookup_insert_ne. Qed.

Lemma checkPriceProtection_setGuard s b o p :
  checkPriceProtection (setGuard s b) o p = checkPriceProtection s o p.
Proof. reflexivity. Qed.

(** *** Price protection *)

Lemma checkPriceProtection_eq s o p :
  checkPriceProtection s o p =
    (lo ← sub 100 (effectiveTolerance s o);
     loProd ← mul p lo;
     lowerBound ← div loProd 100;
     hi ← add 100 (effectiveTolerance s o);
     hiProd ← mul p hi;
     upperBound ← div hiProd 100;
     Ok ((lowerBound <=? targetPrice o) && (targetPrice o <=? upperBound))).
Proof. reflexivity. Qed.

(** Within the range of the arithmetic the check compares the target
    price with the two truncated bounds. *)
Lemma checkPriceProtection_computes s o p :
  0 ≤ p → 0 ≤ effectiveTolerance s o ≤ 100 →
  p * (100 + effectiveTolerance s o) ≤ MAX_UINT256 →
  checkPriceProtection s o p =
    Ok ((p * (100 - effectiveTolerance s o) / 100 <=? targetPrice o) &&
        (targetPrice o <=? p * (100 + effectiveTolerance s o) / 100)).
Proof.
  intros Hp Htol Hhi. rewrite checkPriceProtection_eq.
  generalize dependent (effectiveTolerance s o). intros tol Htol Hhi.
  rewrite (sub_Ok 100 tol), bind_Ok by lia.
  rewrite (mul_Ok p (100 - tol)), bind_Ok by nia.
  rewrite (div_Ok _ 100), bind_Ok by lia.
  rewrite (add_Ok 100 tol), bind_Ok by (unfold MAX_UINT256; lia).
  rewrite (mul_Ok p (100 + tol)), bind_Ok by done.
  rewrite (div_Ok _ 100), bind_Ok by lia.
  done.
Qed.

Lemma checkPriceProtection_outside s o p :
  0 ≤ p → 0 ≤ effectiveTolerance s o ≤ 100 →
  p * (100 + effectiveTolerance s o) ≤ MAX_UINT256 →
  outsideComputedBand (targetPrice o) p (effectiveTolerance s o) →
  checkPriceProtection s o p = Ok false.
Proof.
  intros Hp Htol Hhi Hout. rewrite checkPriceProtection_computes by done.
  f_equal. unfold outsideComputedBand in Hout.
  destruct Hout as [Hout|Hout].
  - apply andb_false_intro1. lia.
  - apply andb_false_intro2. lia.
Qed.

(** Where the band of the specification and the computed band differ: a
    price outside the exact band is outside the computed one, unless it is
    exactly the truncated lower bound of an inexact quotient. *)
Lemma outsideExactBand_computed price market tol :
  outsideExactBand price market tol →
  outsideComputedBand price market tol ∨
  (price = market * (100 - tol) / 100 ∧ (market * (100 - tol)) `mod` 100 ≠ 0).
Proof.
  unfold outsideExactBand, outsideComputedBand. intros [Hlo|Hhi].
  - pose proof (Z.div_mod (market * (100 - tol)) 100 ltac:(lia)) as Hdm.
    pose proof (Z.mod_pos_bound (market * (100 - tol)) 100 ltac:(lia)) as Hm.
    destruct (decide (price < market * (100 - tol) / 100)) as [?|Hge]; [by left; left|].
    right. split; lia.
  - left. right.
    pose proof (Z.div_mod (market * (100 + tol)) 100 ltac:(lia)) as Hdm.
    pose proof (Z.mod_pos_bound (market * (100 + tol)) 100 ltac:(lia)) as Hm.
    lia.
Qed.

(** The helper of the demo computes the same test on non-negative
    inputs. *)
Lemma checkPriceProtection_demo s o p :
  0 ≤ p → 0 ≤ effectiveTolerance s o ≤ 100 →
  p * (100 + effectiveTolerance s o) ≤ MAX_UINT256 →
  checkPriceProtection s o p =
    Ok (TransparentOrderDemo.checkPriceProtection (targetPrice o) p (effectiveTolerance s o)).
Proof.
  intros Hp Htol Hhi. rewrite checkPriceProtection_computes by done.
  unfold TransparentOrderDemo.checkPriceProtection.
  rewrite !Z.quot_div_nonneg by nia. done.
Qed.

(** The two concrete checks of the specification: a target of 4000 against
    a market of 4050 is within 10%, against a market of 4500 it is not. *)
Lemma checkPriceProtection_examples :
  TransparentOrderDemo.checkPriceProtection (4000 * 10 ^ 6) (4050 * 10 ^ 6) 10 = true ∧
  TransparentOrderDemo.checkPriceProtection (4000 * 10 ^ 6) (4500 * 10 ^ 6) 10 = false.
Proof. evaluate. Qed.

(** The identifier determines the ten defining fields. *)
Lemma getOrderHash_inj o1 o2 :
  getOrderHash o1 = getOrderHash o2 →
  user o1 = user o2 ∧ amount o1 = amount o2 ∧ targetPrice o1 = targetPrice o2 ∧
  gasPrice o1 = gasPrice o2 ∧ timestamp o1 = timestamp o2 ∧ expiry o1 = expiry o2 ∧
  sourceChain o1 = sourceChain o2 ∧ targetChain o1 = targetChain o2 ∧
  makerAsset o1 = makerAsset o2 ∧ takerAsset o1 = takerAsset o2.
Proof.
  unfold getOrderHash. intros H. injection H as H. apply (inj encode) in H.
  by injection H as -> -> -> -> -> -> -> -> -> ->.
Qed.

(** *** executeOrder *)

(** With the guard free, [executeOrder] is its existence check and its
    body, run with the guard held. *)
Lemma executeOrder_unfold e h p s :
  guardEntered s = false →
  executeOrder e h p s =
    (orderExists s h;;
     s' ← executeOrderBody e h p (setGuard s true);
     Ok (setGuard s' false)).
Proof.
  intros Hg. unfold executeOrder, nonReentrant. rewrite Hg.
  change (orderExists (setGuard s true) h) with (orderExists s h).
  destruct (orderExists s h) as [[]|]; [|done]. simpl.
  by destruct (executeOrderBody e h p (setGuard s true)).
Qed.

Lemma executeOrder_reentrant e h p s :
  guardEntered s = true → executeOrder e h p s = Err ReentrancyGuardReentrantCall.
Proof. intros Hg. unfold executeOrder, nonReentrant. by rewrite Hg. Qed.

(** The body stops at the price check of a protected order the check
    rejects. *)
Lemma executeOrderBody_rejected e h p s :
  pp_enabled (priceProtection (orderOf s h)) = true →
  checkPriceProtection s (orderOf s h) p = Ok false →
  ∃ err, executeOrderBody e h p s = Err err ∧
         (expiry (orderOf s h) > block_timestamp e →
          isCompleted (execution (orderOf s h)) = false →
          err = Revert "Price outside tolerance range").
Proof.
  intros Hen Hchk. unfold executeOrderBody.
  destruct (expiry (orderOf s h) >? block_timestamp e) eqn:E1.
  2: { eexists. split; [done|]. lia. }
  destruct (isCompleted (execution (orderOf s h))) eqn:E2.
  { eexists. split; [done|]. done. }
  rewrite Hen, Hchk. eexists. split; [done|]. done.
Qed.

Lemma executeOrder_rejected e h p s :
  pp_enabled (priceProtection (orderOf s h)) = true →
  checkPriceProtection s (orderOf s h) p = Ok false →
  ∃ err, executeOrder e h p s = Err err ∧
         (guardEntered s = false → user (orderOf s h) ≠ 0 →
          expiry (orderOf s h) > block_timestamp e →
          isCompleted (execution (orderOf s h)) = false →
          err = Revert "Price outside tolerance range").
Proof.
  intros Hen Hchk.
  destruct (guardEntered s) eqn:Hg.
  { rewrite executeOrder_reentrant by done. eexists. split; [done|]. done. }
  rewrite executeOrder_unfold by done. unfold orderExists.
  destruct (user (orderOf s h) =? 0) eqn:Hu.
  { eexists. split; [done|]. lia. }
  rewrite require_true, bind_Ok.
  destruct (executeOrderBody_rejected e h p (setGuard s true)) as (err & -> & Herr);
    [done|done|].
  exists err. split; [done|]. intros _ _. apply Herr.
Qed.

(** The check accepts only prices inside the computed band, for a
    tolerance of at most 100. *)
Lemma checkPriceProtection_true_inv s o p :
  checkPriceProtection s o p = Ok true →
  effectiveTolerance s o ≤ 100 ∧
  ¬ outsideComputedBand (targetPrice o) p (effectiveTolerance s o).
Proof.
  rewrite checkPriceProtection_eq. generalize (effectiveTolerance s o). intros tol.
  destruct (sub 100 tol) as [lo|] eqn:Hlo; [|done]. rewrite bind_Ok.
  apply sub_inv in Hlo as [Htol ->].
  destruct (mul p (100 - tol)) as [loProd|] eqn:H1; [|done]. rewrite bind_Ok.
  apply mul_inv in H1 as ->.
  destruct (div (p * (100 - tol)) 100) as [lower|] eqn:H2; [|done]. rewrite bind_Ok.
  apply div_inv in H2 as ->.
  destruct (add 100 tol) as [hi|] eqn:H3; [|done]. rewrite bind_Ok.
  apply add_inv in H3 as ->.
  destruct (mul p (100 + tol)) as [hiProd|] eqn:H4; [|done]. rewrite bind_Ok.
  apply mul_inv in H4 as ->.
  destruct (div (p * (100 + tol)) 100) as [upper|] eqn:H5; [|done]. rewrite bind_Ok.
  apply div_inv in H5 as ->.
  intros [= Hin]. apply andb_true_iff in Hin as [Hl Hu].
  split; [done|]. unfold outsideComputedBand. lia.
Qed.

(** Execution of a protected order implies that its price was inside the
    computed band. *)
Lemma executeOrder_Ok_inside_band e h p s s' :
  executeOrder e h p s = Ok s' →
  pp_enabled (priceProtection (orderOf s h)) = true →
  effectiveTolerance s (orderOf s h) ≤ 100 ∧
  ¬ outsideComputedBand (targetPrice (orderOf s h)) p (effectiveTolerance s (orderOf s h)).
Proof.
  intros Hok Hen.
  destruct (guardEntered s) eqn:Hg.
  { by rewrite executeOrder_reentrant in Hok. }
  rewrite executeOrder_unfold in Hok by done.
  destruct (orderExists s h) as [[]|]; [|done]. rewrite bind_Ok in Hok.
  destruct (executeOrderBody e h p (setGuard s true)) as [s1|] eqn:Hbody; [|done].
  clear Hok. unfold executeOrderBody in Hbody.
  change (orderOf (setGuard s true) h) with (orderOf s h) in Hbody.
  destruct (require (expiry (orderOf s h) >? block_timestamp e) _) as [[]|]; [|done].
  rewrite bind_Ok in Hbody.
  destruct (require (negb (isCompleted (execution (orderOf s h)))) _) as [[]|]; [|done].
  rewrite bind_Ok, Hen, checkPriceProtection_setGuard in Hbody.
  destruct (checkPriceProtection s (orderOf s h) p) as [[|]|] eqn:Hchk; [|done|done].
  by apply checkPriceProtection_true_inv.
Qed.

(** C1 (amended).  For an order with price protection enabled and an
    observed market price for which the order's price is outside the band
    the contract computes, whose bounds are the truncated quotients
    market·(100 − tol)/100 and market·(100 + tol)/100 (tol the order's
    tolerance in percent, else the global one), [executeOrder] fails and
    the transaction leaves the state as it was.  When the order exists, is
    not expired and not completed, and the bounds can be computed (tol at
    most 100, the products within 256 bits), the failure is
    "Price outside tolerance range". *)
Theorem executeOrder_price_protection (e : Env) (h : bytes32) (p : uint256) (s : State) :
  let o := orderOf s h in
  let tol := effectiveTolerance s o in
  pp_enabled (priceProtection o) = true →
  outsideComputedBand (targetPrice o) p tol →
  (∃ err, executeOrder e h p s = Err err) ∧
  transact (executeOrder e h p) s = s ∧
  (guardEntered s = false → user o ≠ 0 →
   expiry o > block_timestamp e → isCompleted (execution o) = false →
   0 ≤ p → 0 ≤ tol ≤ 100 → p * (100 + tol) ≤ MAX_UINT256 →
   executeOrder e h p s = Err (Revert "Price outside tolerance range")).
Proof.
  intros o tol Hen Hout. subst o tol.
  assert (∃ err, executeOrder e h p s = Err err) as [err Herr].
  { destruct (executeOrder e h p s) as [s'|err] eqn:Hrun; [|by exists err].
    destruct (executeOrder_Ok_inside_band e h p s s' Hrun Hen) as [_ Hin]. done. }
  split; [by exists err|]. split.
  - unfold transact. by rewrite Herr.
  - intros Hg Hu Hex Hc Hp Htol Hhi.
    destruct (executeOrder_rejected e h p s Hen) as (err' & Herr' & Hkind).
    { by apply checkPriceProtection_outside. }
    rewrite Herr'. f_equal. by apply Hkind.
Qed.

Lemma executeOrder_price_protection_witness :
  executeOrder LedgerScenarios.asTaker
    (getOrderHash LedgerScenarios.aliceProtected) 20 LedgerScenarios.stProtected
  = Err (Revert "Price outside tolerance range").
Proof.
  destruct (executeOrder_price_protection LedgerScenarios.asTaker
              (getOrderHash LedgerScenarios.aliceProtected) 20
              LedgerScenarios.stProtected) as (_ & _ & H).
  - vm_compute. reflexivity.
  - left. vm_compute. reflexivity.
  - apply H.
    + vm_compute. reflexivity.
    + vm_compute. discriminate.
    + vm_compute. reflexivity.
    + vm_compute. reflexivity.
    + lia.
    + vm_compute. split; discriminate.
    + vm_compute. discriminate.
Defined.

(** C1, as stated, fails below the band: with the market at 15 and a
    tolerance of 10% the band of the specification starts at 13.5, the
    order's price of 13 is outside it, and [executeOrder] executes the
    order: the escrowed 1e18 of token A goes to the taker. *)
Lemma executeOrder_executes_below_exact_band :
  let s := LedgerScenarios.stProtected in
  let h := getOrderHash LedgerScenarios.aliceProtected in
  let s' := LedgerScenarios.stProtectedExecuted in
  pp_enabled (priceProtection (orderOf s h)) = true ∧
  outsideExactBand (targetPrice (orderOf s h)) 15 (effectiveTolerance s (orderOf s h)) ∧
  executeOrder LedgerScenarios.asTaker h 15 s = Ok s' ∧
  balanceOf s LedgerScenarios.TOKEN_A LedgerScenarios.ledger = 10 ^ 18 ∧
  balanceOf s' LedgerScenarios.TOKEN_A LedgerScenarios.ledger = 0 ∧
  balanceOf s' LedgerScenarios.TOKEN_A LedgerScenarios.taker = 10 ^ 18 ∧
  isCompleted (execution (orderOf s' h)) = true ∧
  activeOrderHashes s' = [].
Proof.
  cbv zeta. split; [vm_compute; reflexivity|].
  split; [left; vm_compute; reflexivity|].
  evaluate.
Qed.

(** *** Token movements *)

Lemma moveTokens_Ok s token from to v :
  v ≤ balanceOf s token from →
  ∃ s', moveTokens s token from to v = Ok s' ∧
        orders s' = orders s ∧ userOrders s' = userOrders s ∧
        activeOrderHashes s' = activeOrderHashes s ∧
        totalOrdersCreated s' = totalOrdersCreated s ∧
        totalOrdersFilled s' = totalOrdersFilled s ∧
        globalTolerancePercent s' = globalTolerancePercent s ∧
        guardEntered s' = guardEntered s ∧
        (from ≠ to →
           balanceOf s' token to = balanceOf s token to + v ∧
           balanceOf s' token from = balanceOf s token from - v).
Proof.
  intros Hv. unfold moveTokens.
  destruct (balanceOf s token from <? v) eqn:E; [lia|].
  eexists. split; [done|]. repeat (split; [done|]).
  intros Hne. unfold balanceOf, setBalances. simpl.
  rewrite lookup_insert_eq.
  rewrite !(lookup_insert_ne _ (token, from) (token, to)) by congruence.
  rewrite lookup_insert_ne by congruence.
  by rewrite lookup_insert_eq.
Qed.


(** *** Completed orders *)

(** [executeOrder] refuses a completed order. *)
Lemma executeOrder_completed e h p s :
  isCompleted (execution (orderOf s h)) = true →
  ∃ err, executeOrder e h p s = Err err ∧
         (guardEntered s = false → user (orderOf s h) ≠ 0 →
          expiry (orderOf s h) > block_timestamp e →
          err = Revert "Order already completed").
Proof.
  intros Hc.
  destruct (guardEntered s) eqn:Hg.
  { rewrite executeOrder_reentrant by done. eexists. split; [done|]. done. }
  rewrite executeOrder_unfold by done. unfold orderExists.
  destruct (user (orderOf s h) =? 0) eqn:Hu.
  { eexists. split; [done|]. lia. }
  rewrite require_true, bind_Ok. unfold executeOrderBody.
  change (orderOf (setGuard s true) h) with (orderOf s h).
  destruct (expiry (orderOf s h) >? block_timestamp e) eqn:E1.
  2: { eexists. split; [done|]. lia. }
  rewrite Hc. eexists. split; [done|]. done.
Qed.

(** [cancelOrder] does not look at the completion flag: on a completed
    order whose remainder the contract can still pay, it succeeds and pays
    the remainder to the owner once more. *)
Lemma cancelOrder_completed_pays_again e h s :
  let o := orderOf s h in
  let refund := amount o - totalFilled (execution o) in
  isCompleted (execution o) = true →
  user o ≠ 0 → user o = msg_sender e → user o ≠ this e →
  totalFilled (execution o) ≤ amount o →
  refund ≤ balanceOf s (makerAsset o) (this e) →
  ∃ s', cancelOrder e h s = Ok s' ∧
        balanceOf s' (makerAsset o) (user o) = balanceOf s (makerAsset o) (user o) + refund ∧
        balanceOf s' (makerAsset o) (this e) = balanceOf s (makerAsset o) (this e) - refund.
Proof.
  intros o refund Hc Hu Hs Hthis Hfilled Hbal. subst o refund.
  unfold cancelOrder, orderExists, onlyOrderCreator.
  destruct (user (orderOf s h) =? 0) eqn:E1; [lia|].
  destruct (user (orderOf s h) =? msg_sender e) eqn:E2; [|lia].
  rewrite !require_true, !bind_Ok. unfold _cancelOrder.
  rewrite sub_Ok, bind_Ok by done. unfold safeTransfer.
  destruct (moveTokens_Ok s (makerAsset (orderOf s h)) (this e) (user (orderOf s h))
              (amount (orderOf s h) - totalFilled (execution (orderOf s h))) Hbal)
    as (s1 & -> & _ & _ & _ & _ & _ & _ & _ & Hb).
  rewrite bind_Ok. eexists. split; [done|].
  destruct Hb as [Hb1 Hb2]; [congruence|].
  unfold _removeFromActiveOrders.
  by destruct (indexOf _ _ _).
Qed.

(** C2.  Alice and Bob have each escrowed 1e18 of token A.  Alice cancels
    her order and is refunded; the order is completed, and [executeOrder]
    refuses it.  She cancels it again: the call succeeds and refunds her a
    second time, out of Bob's escrow, which Bob can then no longer
    recover.  Cancelling an order that was executed succeeds as well. *)
Theorem cancelOrder_twice_refunds_twice :
  let h := getOrderHash LedgerScenarios.aliceOrder in
  let A := LedgerScenarios.TOKEN_A in
  let s0 := LedgerScenarios.stAliceBob in
  let s1 := LedgerScenarios.stCancelled in
  let s2 := LedgerScenarios.stCancelledTwice in
  balanceOf s0 A LedgerScenarios.alice = 99 * 10 ^ 18 ∧
  balanceOf s0 A LedgerScenarios.ledger = 2 * 10 ^ 18 ∧
  cancelOrder LedgerScenarios.asAlice h s0 = Ok s1 ∧
  isCompleted (execution (orderOf s1 h)) = true ∧
  balanceOf s1 A LedgerScenarios.alice = 100 * 10 ^ 18 ∧
  executeOrder LedgerScenarios.asTaker h (2 * 10 ^ 18) s1
    = Err (Revert "Order already completed") ∧
  cancelOrder LedgerScenarios.asAlice h s1 = Ok s2 ∧
  balanceOf s2 A LedgerScenarios.alice = 101 * 10 ^ 18 ∧
  balanceOf s2 A LedgerScenarios.ledger = 0 ∧
  activeOrderHashes s2 = [getOrderHash LedgerScenarios.bobOrder] ∧
  cancelOrder LedgerScenarios.asBob (getOrderHash LedgerScenarios.bobOrder) s2
    = Err SafeERC20FailedOperation ∧
  isCompleted (execution (orderOf LedgerScenarios.stExecuted h)) = true ∧
  cancelOrder LedgerScenarios.asAlice h LedgerScenarios.stExecuted
    = Ok LedgerScenarios.stExecutedCancelled.
Proof.
  evaluate.
Qed.

(** *** Batches *)

Lemma withExecution_id o :
  withExecution o
    (mkExecutionInfo (attempts (execution o)) (lastAttempt (execution o))
       (failureReason (execution o)) (totalFilled (execution o))
       (isCompleted (execution o))) = o.
Proof. by destruct o as [? ? ? ? ? ? ? ? ? ? ? ? ? ? []]. Qed.

Lemma onlyAttemptsChanged_refl s : onlyAttemptsChanged s s.
Proof.
  repeat (split; [done|]). intros h.
  exists (attempts (execution (orderOf s h))), (failureReason (execution (orderOf s h))).
  by rewrite withExecution_id.
Qed.

Lemma onlyAttemptsChanged_trans s1 s2 s3 :
  onlyAttemptsChanged s1 s2 → onlyAttemptsChanged s2 s3 → onlyAttemptsChanged s1 s3.
Proof.
  intros (? & ? & ? & ? & ? & ? & H12) (? & ? & ? & ? & ? & ? & H23).
  repeat (split; [congruence|]). intros h.
  destruct (H12 h) as (n1 & r1 & E1). destruct (H23 h) as (n2 & r2 & E2).
  exists n2, r2. rewrite E2, E1. done.
Qed.

Lemma onlyAttemptsChanged_setGuard s b : onlyAttemptsChanged s (setGuard s b).
Proof.
  repeat (split; [done|]). intros h.
  exists (attempts (execution (orderOf s h))), (failureReason (execution (orderOf s h))).
  change (orderOf (setGuard s b) h) with (orderOf s h).
  by rewrite withExecution_id.
Qed.

(** What the [catch] block writes. *)
Lemma recordBatchFailure_inv s h s' :
  recordBatchFailure s h = Ok s' →
  onlyAttemptsChanged s s' ∧ guardEntered s' = guardEntered s ∧
  attempts (execution (orderOf s' h)) = attempts (execution (orderOf s h)) + 1 ∧
  failureReason (execution (orderOf s' h)) = "Batch execution failed" ∧
  (∀ h', h' ≠ h → orderOf s' h' = orderOf s h').
Proof.
  unfold recordBatchFailure.
  destruct (add (attempts (execution (orderOf s h))) 1) as [n|] eqn:Hn; [|done].
  rewrite bind_Ok. cbv zeta. rewrite !orderOf_setOrder. simpl.
  intros [= <-]. rewrite orderOf_setOrder. simpl.
  unfold add in Hn. destruct (_ <=? _); [|done]. injection Hn as <-.
  split; [|split; [done|split; [done|split; [done|]]]].
  - repeat (split; [done|]). intros h'.
    destruct (decide (h' = h)) as [->|Hne].
    + rewrite orderOf_setOrder. by eexists _, _.
    + rewrite !orderOf_setOrder_ne by done.
      exists (attempts (execution (orderOf s h'))), (failureReason (execution (orderOf s h'))).
      by rewrite withExecution_id.
  - intros h' Hne. by rewrite !orderOf_setOrder_ne.
Qed.

Lemma recordBatchFailure_Ok s h :
  attempts (execution (orderOf s h)) < MAX_UINT256 →
  ∃ s', recordBatchFailure s h = Ok s'.
Proof.
  intros H. unfold recordBatchFailure. rewrite add_Ok, bind_Ok by lia. by eexists.
Qed.

(** Inside a batch the guard is held, so every [this.executeOrder] reverts
    and the loop only runs its [catch] block. *)
Lemma batchLoop_guarded e entries s :
  guardEntered s = true →
  batchLoop e entries s = recordFailures (entries.*1) s.
Proof.
  revert s. induction entries as [|[h p] rest IH]; intros s Hg; [done|].
  simpl. rewrite executeOrder_reentrant by done.
  destruct (recordBatchFailure s h) as [s'|] eqn:Hr; [|done].
  rewrite !bind_Ok. apply IH.
  apply recordBatchFailure_inv in Hr as (_ & -> & _). done.
Qed.

Lemma recordFailures_inv hs s s' :
  recordFailures hs s = Ok s' →
  onlyAttemptsChanged s s' ∧ guardEntered s' = guardEntered s ∧
  (∀ h, h ∈ hs → failureReason (execution (orderOf s' h)) = "Batch execution failed" ∧
                 attempts (execution (orderOf s h)) < attempts (execution (orderOf s' h))) ∧
  (∀ h, attempts (execution (orderOf s h)) ≤ attempts (execution (orderOf s' h))).
Proof.
  revert s. induction hs as [|h0 rest IH]; intros s; simpl.
  - intros [= <-]. split; [apply onlyAttemptsChanged_refl|]. split; [done|].
    split; [|done]. intros h Hin. by apply elem_of_nil in Hin.
  - destruct (recordBatchFailure s h0) as [s1|] eqn:Hr; [|done]. rewrite bind_Ok.
    intros Hrest. apply recordBatchFailure_inv in Hr as (Hch1 & Hg1 & Hatt & Hreason & Hother).
    destruct (IH _ Hrest) as (Hch2 & Hg2 & Hin2 & Hmono).
    assert (∀ h, attempts (execution (orderOf s h)) ≤ attempts (execution (orderOf s1 h))) as Hmono1.
    { intros h. destruct (decide (h = h0)) as [->|Hne]; [lia|]. by rewrite Hother. }
    split; [by eapply onlyAttemptsChanged_trans|]. split; [congruence|]. split.
    + intros h Hin.
      destruct (decide (h ∈ rest)) as [Hr|Hr].
      * destruct (Hin2 h Hr) as [? ?]. split; [done|]. specialize (Hmono1 h). lia.
      * apply elem_of_cons in Hin as [->|Hin]; [|done].
        assert (orderOf s' h0 = orderOf s1 h0 ∨ h0 ∈ rest) as [Heq|?]; [| |done].
        { clear -Hrest Hr. revert s1 Hrest. induction rest as [|h1 rest IH]; intros s1; simpl.
          - intros [= <-]. by left.
          - destruct (recordBatchFailure s1 h1) as [s2|] eqn:Hr1; [|done]. rewrite bind_Ok.
            intros Hrest. apply not_elem_of_cons in Hr as [Hne Hr].
            apply recordBatchFailure_inv in Hr1 as (_ & _ & _ & _ & Hother).
            destruct (IH Hr _ Hrest) as [Heq|]; [|by right].
            left. rewrite Heq. by apply Hother. }
        rewrite Heq. split; [done|lia].
    + intros h. specialize (Hmono h). specialize (Hmono1 h). lia.
Qed.

Lemma recordFailures_Ok hs s :
  (∀ h, attempts (execution (orderOf s h)) + Z.of_nat (length hs) ≤ MAX_UINT256) →
  ∃ s', recordFailures hs s = Ok s'.
Proof.
  revert s. induction hs as [|h0 rest IH]; intros s Hb; simpl; [by eexists|].
  destruct (recordBatchFailure_Ok s h0) as [s1 Hr].
  { specialize (Hb h0). simpl in Hb. lia. }
  rewrite Hr, bind_Ok. apply IH. intros h.
  apply recordBatchFailure_inv in Hr as (_ & _ & Hatt & _ & Hother).
  specialize (Hb h). simpl in Hb.
  destruct (decide (h = h0)) as [->|Hne]; [lia|]. rewrite Hother by done. lia.
Qed.

(** A batch is its array checks followed by the [catch] block of every
    entry. *)
Lemma batchExecuteOrders_unfold e hs ps s :
  guardEntered s = false → length hs = length ps → (length hs ≤ 10)%nat →
  batchExecuteOrders e hs ps s =
    (s' ← recordFailures hs (setGuard s true); Ok (setGuard s' false)).
Proof.
  intros Hg Hlen Hmax. unfold batchExecuteOrders, nonReentrant. rewrite Hg.
  rewrite Hlen, Nat.eqb_refl. rewrite <- Hlen.
  destruct (length hs <=? 10)%nat eqn:E.
  2: { apply Nat.leb_gt in E. lia. }
  rewrite !require_true, !bind_Ok.
  rewrite batchLoop_guarded by done.
  rewrite fst_zip by lia.
  by destruct (recordFailures hs (setGuard s true)).
Qed.

(** No batch ever executes an order: a batch that is accepted returns
    (as long as no attempt counter overflows), marks every entry as
    failed, and leaves tokens, amounts, fills, completion flags and the
    active set as they were. *)
Lemma batchExecuteOrders_executes_nothing e hs ps s :
  guardEntered s = false → length hs = length ps → (length hs ≤ 10)%nat →
  (∀ h, attempts (execution (orderOf s h)) + Z.of_nat (length hs) ≤ MAX_UINT256) →
  ∃ s', batchExecuteOrders e hs ps s = Ok s' ∧
        onlyAttemptsChanged s s' ∧
        ∀ h, h ∈ hs →
          failureReason (execution (orderOf s' h)) = "Batch execution failed" ∧
          attempts (execution (orderOf s h)) < attempts (execution (orderOf s' h)).
Proof.
  intros Hg Hlen Hmax Hb. rewrite batchExecuteOrders_unfold by done.
  destruct (recordFailures_Ok hs (setGuard s true)) as [s1 Hr]; [done|].
  rewrite Hr, bind_Ok. eexists. split; [done|].
  apply recordFailures_inv in Hr as (Hch & _ & Hin & _). split.
  - eapply onlyAttemptsChanged_trans; [apply onlyAttemptsChanged_setGuard|].
    eapply onlyAttemptsChanged_trans; [done|apply onlyAttemptsChanged_setGuard].
  - intros h Hh. apply Hin. done.
Qed.

Lemma batchExecuteOrders_too_many e hs ps s :
  guardEntered s = false → length hs = length ps → (10 < length hs)%nat →
  batchExecuteOrders e hs ps s = Err (Revert "Too many orders").
Proof.
  intros Hg Hlen Hmax. unfold batchExecuteOrders, nonReentrant. rewrite Hg.
  rewrite Hlen, Nat.eqb_refl. rewrite <- Hlen.
  destruct (length hs <=? 10)%nat eqn:E; [|done].
  apply Nat.leb_le in E. lia.
Qed.


(** *** Queue priority *)

(** Within unsigned 256-bit words [calculateQueuePosition] returns the
    priority of the specification. *)
Lemma calculateQueuePosition_Ok e gas ts amt :
  0 ≤ gas → 0 ≤ amt → ts ≤ block_timestamp e →
  gas * 100 + amt / 1000 ≤ MAX_UINT256 →
  (block_timestamp e - ts) / 60 ≤ gas * 100 + amt / 1000 →
  calculateQueuePosition e gas ts amt = Ok (specPriority (block_timestamp e) gas ts amt).
Proof.
  intros Hg Ha Hts Hfit Hpen. unfold calculateQueuePosition, GAS_PRIORITY_MULTIPLIER.
  assert (0 ≤ amt / 1000) by (apply Z.div_pos; lia).
  rewrite (mul_Ok gas 100), bind_Ok by lia.
  rewrite (div_Ok amt 1000), bind_Ok by lia.
  rewrite (sub_Ok (block_timestamp e) ts), bind_Ok by done.
  rewrite (div_Ok _ 60), bind_Ok by lia.
  rewrite (add_Ok (gas * 100) (amt / 1000)), bind_Ok by done.
  rewrite sub_Ok by done. done.
Qed.

(** A penalty above the two weights, or a creation time after the block,
    makes it revert. *)
Lemma calculateQueuePosition_future e gas ts amt :
  0 ≤ gas → gas * 100 ≤ MAX_UINT256 → block_timestamp e < ts →
  calculateQueuePosition e gas ts amt = Err Panic.
Proof.
  intros Hg Hfit Hts. unfold calculateQueuePosition, GAS_PRIORITY_MULTIPLIER.
  rewrite (mul_Ok gas 100), bind_Ok by lia.
  rewrite (div_Ok amt 1000), bind_Ok by lia.
  by rewrite (sub_Err (block_timestamp e) ts) by done.
Qed.

(** The concrete priority of the specification, on the contract: a gas bid
    of 50 gwei, an amount of 1e18, created 60 seconds before the block. *)
Lemma calculateQueuePosition_one_minute e :
  calculateQueuePosition e (50 * 10 ^ 9) (block_timestamp e - 60) (10 ^ 18)
  = Ok (50 * 10 ^ 9 * 100 + 10 ^ 18 / 1000 - 1).
Proof.
  rewrite calculateQueuePosition_Ok.
  - unfold specPriority. do 2 f_equal.
    replace (block_timestamp e - (block_timestamp e - 60)) with 60 by lia. done.
  - lia.
  - lia.
  - lia.
  - vm_compute. discriminate.
  - replace (block_timestamp e - (block_timestamp e - 60)) with 60 by lia.
    vm_compute. discriminate.
Qed.

(** C9.  The queue helper of the demo takes [Date.now()] and the creation
    time in milliseconds and divides their difference by 60: for a gas bid
    of 50 gwei, an amount of 1e18 and a creation time 60000 ms ago the
    penalty is 1000, not 1, and the priority is
    50e9·100 + 1e18/1000 − 1000. *)
Theorem demo_queue_position_one_minute (date_now : Z) :
  TransparentOrderDemo.calculateQueuePosition date_now
    (50 * 10 ^ 9) (date_now - 60000) (10 ^ 18)
  = 50 * 10 ^ 9 * 100 + 10 ^ 18 / 1000 - 1000 ∧
  TransparentOrderDemo.calculateQueuePosition date_now
    (50 * 10 ^ 9) (date_now - 60000) (10 ^ 18)
  ≠ 50 * 10 ^ 9 * 100 + 10 ^ 18 / 1000 - 1.
Proof.
  unfold TransparentOrderDemo.calculateQueuePosition.
  replace (date_now - (date_now - 60000)) with 60000 by lia.
  split; vm_compute; [reflexivity|discriminate].
Qed.

(** *** createOrder *)






End Ledger.

(** ** Ranking by priority *)

Section Ranking.
Import TransparentOrderProtocol LedgerSpec.

Lemma readAt_middle {A} (l1 : list A) x l2 n :
  n = length l1 → readAt (l1 ++ x :: l2) n = Ok x.
Proof. intros ->. unfold readAt. by rewrite list_lookup_middle. Qed.

Lemma writeAt_middle {A} (l1 : list A) y l2 x n :
  n = length l1 → writeAt (l1 ++ y :: l2) n x = Ok (l1 ++ x :: l2).
Proof.
  intros ->. unfold writeAt.
  destruct (length l1 <? length (l1 ++ y :: l2))%nat eqn:E.
  - f_equal. rewrite insert_app_r_alt by done. by rewrite Nat.sub_diag.
  - apply Nat.ltb_ge in E. rewrite length_app in E. simpl in E. lia.
Qed.

Lemma writeAt_next {A} (l1 : list A) a y l2 x n :
  n = length l1 → writeAt (l1 ++ a :: y :: l2) (S n) x = Ok (l1 ++ a :: x :: l2).
Proof.
  intros ->.
  pose proof (writeAt_middle (l1 ++ [a]) y l2 x (S (length l1))) as H.
  rewrite <- !app_assoc in H. simpl in H. apply H.
  rewrite length_app. simpl. lia.
Qed.

(** The [while] loop frees the slot after the last entry whose priority is
    not below the new one: the entries behind it, all of lower priority,
    have moved one slot up. *)
Lemma shiftDown_spec (f : bytes32 → Z) priority P :
  ∀ g g' R R',
  ∃ P1 P2 x y,
    P = P1 ++ P2 ∧
    Forall (λ h, f h < priority) P2 ∧
    (∀ P0 a, P1 = P0 ++ [a] → priority ≤ f a) ∧
    shiftDown (length P) priority (P ++ g :: R) ((f <$> P) ++ g' :: R')
    = Ok (length P1, P1 ++ x :: P2 ++ R, (f <$> P1) ++ y :: (f <$> P2) ++ R').
Proof.
  induction P as [|a P' IH] using rev_ind; intros g g' R R'.
  - exists [], [], g, g'. split; [done|]. split; [constructor|].
    split; [|done]. intros P0 a H. by destruct P0.
  - rewrite length_app. simpl length. rewrite Nat.add_1_r. simpl shiftDown.
    rewrite fmap_app. simpl fmap. rewrite <- !app_assoc. simpl app.
    rewrite (readAt_middle (f <$> P') (f a) _ (length P')), bind_Ok
      by (by rewrite length_fmap).
    destruct (f a <? priority) eqn:E.
    + rewrite (readAt_middle P' a _ (length P')), bind_Ok by done.
      rewrite (writeAt_next P' a g R a (length P')), bind_Ok by done.
      rewrite (writeAt_next (f <$> P') (f a) g' R' (f a) (length P')), bind_Ok
        by (by rewrite length_fmap).
      destruct (IH a (f a) (a :: R) (f a :: R')) as (P1 & P2 & x & y & HP & Hlow & Hlast & Hrun).
      exists P1, (P2 ++ [a]), x, y.
      split; [by rewrite HP, app_assoc|].
      split; [apply Forall_app; split; [done|]; constructor; [lia|constructor]|].
      split; [done|].
      etransitivity; [exact Hrun|].
      rewrite fmap_app. simpl fmap. by rewrite <- !app_assoc.
    + exists (P' ++ [a]), [], g, g'.
      split; [by rewrite app_nil_r|]. split; [constructor|].
      split.
      * intros P0 a0 H. apply app_inj_tail in H as [_ <-]. lia.
      * rewrite length_app. simpl length. rewrite Nat.add_1_r.
        rewrite fmap_app. simpl fmap. by rewrite <- !app_assoc.
Qed.

(** Putting an entry into the freed slot keeps the ranking. *)
Lemma ranks_insert (f : bytes32 → Z) P1 P2 x D :
  Forall (λ h, f h < f x) P2 →
  (∀ P0 a, P1 = P0 ++ [a] → f x ≤ f a) →
  ranks f (P1 ++ P2) D →
  ranks f (P1 ++ x :: P2) (D ++ [x]).
Proof.
  intros Hlow Hlast (Hperm & Hsort & Hstable).
  apply StronglySorted_app in Hsort as (Hcross & Hs1 & Hs2).
  assert (∀ a, a ∈ P1 → f x ≤ f a) as Hhigh.
  { intros a Ha. destruct P1 as [|b P1' _] using rev_ind; [by apply elem_of_nil in Ha|].
    specialize (Hlast P1' b eq_refl).
    apply elem_of_app in Ha as [Ha|Ha].
    - apply StronglySorted_app in Hs1 as (Hc & _ & _).
      specialize (Hc a b Ha ltac:(by apply list_elem_of_singleton)). simpl in Hc. lia.
    - apply list_elem_of_singleton in Ha as ->. done. }
  split; [|split].
  - rewrite <- Permutation_middle, Hperm. apply Permutation_cons_append.
  - apply StronglySorted_app. split; [|split; [done|]].
    + intros a b Ha Hb. apply elem_of_cons in Hb as [->|Hb]; [by apply Hhigh|].
      by apply Hcross.
    + constructor; [done|]. eapply Forall_impl; [exact Hlow|]. simpl. lia.
  - intros q. rewrite !filter_app, <- Hstable, filter_app, filter_cons.
    simpl. destruct (decide (f x = q)) as [Hq|Hq].
    + assert (filter (λ h, f h = q) P2 = []) as ->.
      { clear -Hlow Hq. induction P2 as [|b P2 IH]; [done|].
        apply Forall_cons in Hlow as [Hb Hlow].
        rewrite filter_cons_False by lia. by apply IH. }
      by rewrite app_nil_r, filter_cons_True, filter_nil by done.
    + by rewrite filter_cons_False, filter_nil, app_nil_r by done.
Qed.

(** The [for] loop: with [P] ranking the first entries of the active
    array, [n] further iterations rank [n] further entries. *)
Lemma sortLoop_spec s n :
  ∀ P R R',
  length R = n → length R' = n →
  (length P + n ≤ length (activeOrderHashes s))%nat →
  ranks (priorityOf s) P (take (length P) (activeOrderHashes s)) →
  ∃ out,
    sortLoop s n (length P) (P ++ R) ((priorityOf s <$> P) ++ R')
    = Ok (out, priorityOf s <$> out) ∧
    length out = (length P + n)%nat ∧
    ranks (priorityOf s) out (take (length P + n) (activeOrderHashes s)).
Proof.
  induction n as [|n IH]; intros P R R' HR HR' Hlen Hranks.
  - destruct R; [|done]. destruct R'; [|done]. simpl.
    rewrite !app_nil_r, Nat.add_0_r. by exists P.
  - destruct R as [|g R]; [done|]. destruct R' as [|g' R']; [done|].
    simpl in HR, HR'. simpl sortLoop.
    destruct (lookup_lt_is_Some_2 (activeOrderHashes s) (length P)) as [h Hh]; [lia|].
    unfold readAt at 1. rewrite Hh, bind_Ok. cbv zeta.
    fold (priorityOf s h).
    destruct (shiftDown_spec (priorityOf s) (priorityOf s h) P g g' R R')
      as (P1 & P2 & x & y & HP & Hlow & Hlast & Hrun).
    assert (length (P1 ++ h :: P2) = S (length P)) as HlenP.
    { rewrite HP, !length_app. simpl. lia. }
    destruct (IH (P1 ++ h :: P2) R R') as (out & Hout & Hlenout & Hr); [lia|lia|lia| |].
    + rewrite HlenP, (take_S_r _ _ h) by done.
      apply ranks_insert; [done|done|]. by rewrite <- HP.
    + exists out. rewrite HlenP in Hout, Hlenout, Hr.
      rewrite fmap_app in Hout. simpl fmap in Hout. rewrite <- !app_assoc in Hout.
      simpl app in Hout.
      split; [|split; [lia|]].
      * etransitivity; [|exact Hout].
        rewrite Hrun, bind_Ok.
        rewrite (writeAt_middle P1 x _ h), bind_Ok by done.
        by rewrite (writeAt_middle (priorityOf s <$> P1) y _ (priorityOf s h)), bind_Ok
          by (by rewrite length_fmap).
      * by replace (length P + S n)%nat with (S (length P) + n)%nat by lia.
Qed.

(** What the function ranks.  For a limit above the number of active
    orders [getOrdersByPriority] fails with "Limit too high".  For a limit
    up to that number it returns exactly [limit] identifiers: the first
    [limit] entries of the active array, in descending queue position,
    entries of equal queue position in the order they have in the active
    array. *)
Lemma getOrdersByPriority_ranks (s : State) (limit : nat) :
  let active := activeOrderHashes s in
  ((length active < limit)%nat →
     getOrdersByPriority s limit = Err (Revert "Limit too high")) ∧
  ((limit ≤ length active)%nat →
     ∃ out, getOrdersByPriority s limit = Ok out ∧
            length out = limit ∧
            ranks (priorityOf s) out (take limit active)).
Proof.
  intros active. subst active. unfold getOrdersByPriority. split.
  - intros H. destruct (limit <=? length (activeOrderHashes s))%nat eqn:E; [|done].
    apply Nat.leb_le in E. lia.
  - intros H. destruct (limit <=? length (activeOrderHashes s))%nat eqn:E.
    2: { apply Nat.leb_gt in E. lia. }
    rewrite require_true, bind_Ok, Nat.min_l by done.
    destruct (sortLoop_spec s limit [] (replicate limit 0) (replicate limit 0))
      as (out & Hout & Hlen & Hr).
    + apply length_replicate.
    + apply length_replicate.
    + simpl. lia.
    + simpl. split; [done|]. split; [constructor|done].
    + simpl in Hout, Hlen, Hr. rewrite Hout, bind_Ok. by exists out.
Qed.

Lemma getOrdersByPriority_ranks_all :
  ∃ out, getOrdersByPriority LedgerScenarios.stThree 3 = Ok out ∧
         length out = 3%nat ∧
         ranks (priorityOf LedgerScenarios.stThree) out
           (take 3 (activeOrderHashes LedgerScenarios.stThree)).
Proof.
  destruct (getOrdersByPriority_ranks LedgerScenarios.stThree 3) as (_ & H).
  apply H. vm_compute. lia.
Defined.

(** The defect, for every state: whatever the priorities, an order that
    does not sit among the first [limit] entries of the active array is
    never returned, and every order that does is. *)
Lemma getOrdersByPriority_only_prefix (s : State) (limit : nat) (out : list bytes32) :
  getOrdersByPriority s limit = Ok out →
  (limit ≤ length (activeOrderHashes s))%nat ∧
  ∀ h, h ∈ out ↔ h ∈ take limit (activeOrderHashes s).
Proof.
  intros H.
  destruct (getOrdersByPriority_ranks s limit) as [Hhigh Hlow].
  destruct (decide (limit ≤ length (activeOrderHashes s))%nat) as [Hle|Hgt].
  - split; [done|]. destruct (Hlow Hle) as (out' & Hout & _ & Hperm & _).
    rewrite H in Hout. injection Hout as <-. intros h. by rewrite Hperm.
  - rewrite Hhigh in H by lia. done.
Qed.

(** The other two differences to the ranking of the specification.  A
    limit above the number of active orders is refused.  And ties follow
    the active array, not creation: Alice, Bob and Carol create their
    orders in this order, Bob's and Carol's with the same queue position;
    once Alice's order is cancelled Carol's has taken its slot, and the
    ranking returns Carol's order before Bob's. *)
Lemma getOrdersByPriority_limit_and_ties :
  let hA := getOrderHash LedgerScenarios.aliceOrder in
  let hB := getOrderHash LedgerScenarios.bobOrder in
  let hC := getOrderHash LedgerScenarios.carolOrder in
  let s := LedgerScenarios.stThree in
  let s' := LedgerScenarios.stThreeMinusAlice in
  activeOrderHashes s = [hA; hB; hC] ∧
  getOrdersByPriority s 4 = Err (Revert "Limit too high") ∧
  cancelOrder LedgerScenarios.asAlice hA s = Ok s' ∧
  activeOrderHashes s' = [hC; hB] ∧
  priorityOf s' hB = priorityOf s' hC ∧
  getOrdersByPriority s' 2 = Ok [hC; hB].
Proof.
  evaluate.
Qed.

(** C7.  [getOrdersByPriority] does not return the orders of highest
    priority.  Bob creates his order, then Alice creates hers with the
    higher gas bid, so that Alice's order has the higher queue position
    and stands second in the active array.  Asked for both orders the
    function ranks Alice's first; asked for one order, the top of the
    ranking, it returns Bob's: it sorts the first [limit] entries of the
    active array and never looks at the rest. *)
Theorem getOrdersByPriority_misses_highest_priority :
  let hA := getOrderHash LedgerScenarios.aliceOrder in
  let hB := getOrderHash LedgerScenarios.bobOrder in
  let s := LedgerScenarios.stBobAlice in
  activeOrderHashes s = [hB; hA] ∧
  isCompleted (execution (orderOf s hA)) = false ∧
  isCompleted (execution (orderOf s hB)) = false ∧
  priorityOf s hB < priorityOf s hA ∧
  getOrdersByPriority s 2 = Ok [hA; hB] ∧
  getOrdersByPriority s 1 = Ok [hB].
Proof.
  evaluate.
Qed.

End Ranking.


(** * Further properties of the code *)

(** ** The active array and cancellation *)

Section LedgerOperations.
Import TransparentOrderProtocol LedgerSpec ExecutionPhases.

(** What a token movement changes and what it leaves alone. *)
Lemma moveTokens_inv s token from to v s' :
  moveTokens s token from to v = Ok s' →
  v ≤ balanceOf s token from ∧
  orders s' = orders s ∧ userOrders s' = userOrders s ∧
  activeOrderHashes s' = activeOrderHashes s ∧
  totalOrdersCreated s' = totalOrdersCreated s ∧
  totalOrdersFilled s' = totalOrdersFilled s ∧
  globalTolerancePercent s' = globalTolerancePercent s ∧
  guardEntered s' = guardEntered s ∧
  (∀ t x, (t, x) ≠ (token, from) → (t, x) ≠ (token, to) →
     balanceOf s' t x = balanceOf s t x) ∧
  (from ≠ to →
     balanceOf s' token to = balanceOf s token to + v ∧
     balanceOf s' token from = balanceOf s token from - v).
Proof.
  unfold moveTokens.
  destruct (balanceOf s token from <? v) eqn:E; [done|].
  intros [= <-]. split; [lia|]. repeat (split; [done|]). split.
  - intros t x H1 H2. unfold balanceOf, setBalances. simpl.
    by rewrite !lookup_insert_ne by congruence.
  - intros Hne. unfold balanceOf, setBalances. simpl.
    rewrite lookup_insert_eq.
    rewrite !(lookup_insert_ne _ (token, from) (token, to)) by congruence.
    rewrite lookup_insert_ne by congruence.
    by rewrite lookup_insert_eq.
Qed.

Lemma orderOf_same_orders s s' h : orders s' = orders s → orderOf s' h = orderOf s h.
Proof. intros H. unfold orderOf. by rewrite H. Qed.

(** The search of [_removeFromActiveOrders] finds the first occurrence. *)
Lemma indexOf_Some h l k i :
  indexOf h l k = Some i →
  ∃ l1 l2, l = l1 ++ h :: l2 ∧ i = (k + length l1)%nat ∧ h ∉ l1.
Proof.
  revert k. induction l as [|x l IH]; intros k; simpl; [done|].
  destruct (x =? h) eqn:E.
  - intros [= <-]. exists [], l. apply Z.eqb_eq in E as ->.
    split; [done|]. split; [simpl; lia|]. apply not_elem_of_nil.
  - intros H. destruct (IH _ H) as (l1 & l2 & -> & -> & Hnot).
    exists (x :: l1), l2. split; [done|]. split; [simpl; lia|].
    apply not_elem_of_cons. split; [lia|done].
Qed.

Lemma indexOf_None h l k : indexOf h l k = None ↔ h ∉ l.
Proof.
  revert k. induction l as [|x l IH]; intros k; simpl.
  - split; [intros _; apply not_elem_of_nil|done].
  - destruct (x =? h) eqn:E.
    + apply Z.eqb_eq in E as ->. split; [done|]. intros H. exfalso. apply H. left.
    + rewrite IH, not_elem_of_cons. split; [intros ?; split; [lia|done]|by intros [_ ?]].
Qed.

(** The array [_removeFromActiveOrders] leaves, as a function of the
    array. *)
Lemma removeFromActive_array s h :
  activeOrderHashes (_removeFromActiveOrders s h) =
    match indexOf h (activeOrderHashes s) 0 with
    | Some i => take (length (activeOrderHashes s) - 1)
                  (<[i := default 0 (last (activeOrderHashes s))]> (activeOrderHashes s))
    | None => activeOrderHashes s
    end.
Proof. unfold _removeFromActiveOrders. by destruct (indexOf _ _ _). Qed.

(** X1.  [_removeFromActiveOrders] removes exactly one occurrence of the
    identifier and keeps every other entry: an array that does not hold the
    identifier is unchanged, and one that does is, up to the order of its
    entries, the result with the identifier put back.  On an array without
    repetitions the identifier is gone afterwards and every other entry is
    still there. *)
Theorem removeFromActive_removes_one (s : State) (h : bytes32) :
  let before := activeOrderHashes s in
  let after := activeOrderHashes (_removeFromActiveOrders s h) in
  (h ∉ before → after = before) ∧
  (h ∈ before → (h :: after) ≡ₚ before) ∧
  (NoDup before → NoDup after ∧ (h ∉ after) ∧
     ∀ h', h' ≠ h → (h' ∈ after ↔ h' ∈ before)).
Proof.
  intros before after. subst after. rewrite removeFromActive_array.
  subst before. generalize (activeOrderHashes s) as l. intros l.
  assert (h ∉ l → match indexOf h l 0 with
                  | Some i => take (length l - 1) (<[i := default 0 (last l)]> l)
                  | None => l
                  end = l) as Hout.
  { intros Hnot. by rewrite (proj2 (indexOf_None h l 0) Hnot). }
  assert (h ∈ l → (h :: match indexOf h l 0 with
                  | Some i => take (length l - 1) (<[i := default 0 (last l)]> l)
                  | None => l
                  end) ≡ₚ l) as Hin.
  { intros Hel.
    destruct (indexOf h l 0) as [i|] eqn:Hi.
    2: { apply indexOf_None in Hi. done. }
    apply indexOf_Some in Hi as (l1 & l2 & Hl & -> & _). simpl.
    destruct l2 as [|z l2' _] using rev_ind.
    - rewrite Hl, last_snoc. simpl.
      rewrite length_app. simpl. rewrite Nat.add_sub.
      rewrite insert_app_r_alt, Nat.sub_diag by done. simpl.
      rewrite take_app_length. apply Permutation_cons_append.
    - rewrite Hl.
      replace (l1 ++ h :: l2' ++ [z]) with ((l1 ++ h :: l2') ++ [z])
        by (by rewrite <- app_assoc).
      rewrite last_snoc. simpl.
      rewrite length_app. simpl. rewrite Nat.add_sub.
      rewrite <- app_assoc. simpl.
      rewrite insert_app_r_alt, Nat.sub_diag by done. simpl.
      replace (l1 ++ z :: l2' ++ [z]) with ((l1 ++ z :: l2') ++ [z])
        by (by rewrite <- app_assoc).
      replace (length (l1 ++ h :: l2')) with (length (l1 ++ z :: l2'))
        by (rewrite !length_app; done).
      rewrite take_app_length.
      rewrite <- !Permutation_middle. by rewrite app_nil_r. }
  set (r := match indexOf h l 0 with Some _ => _ | None => _ end) in *.
  clearbody r.
  split; [done|]. split; [done|].
  intros Hnd. destruct (decide (h ∈ l)) as [Hel|Hnot].
  - specialize (Hin Hel). rewrite <- Hin in Hnd. apply NoDup_cons in Hnd as [Hh Hnd].
    split; [done|]. split; [done|]. intros h' Hne.
    rewrite <- Hin, elem_of_cons. split; [by right|]. by intros [?|?].
  - rewrite (Hout Hnot). split; [done|]. split; [done|]. done.
Qed.

Lemma removeFromActive_removes_one_witness :
  getOrderHash LedgerScenarios.aliceOrder ∉
    activeOrderHashes (_removeFromActiveOrders LedgerScenarios.stThree
                         (getOrderHash LedgerScenarios.aliceOrder)).
Proof.
  destruct (removeFromActive_removes_one LedgerScenarios.stThree
              (getOrderHash LedgerScenarios.aliceOrder)) as (_ & _ & H).
  destruct H as (_ & H & _); [|exact H].
  vm_compute. repeat constructor; rewrite ?elem_of_cons, ?elem_of_nil; intros H';
    repeat (destruct H' as [H'|H']; [discriminate H'|]); exact H'.
Defined.

Lemma removeFromActive_frame s h :
  orders (_removeFromActiveOrders s h) = orders s ∧
  userOrders (_removeFromActiveOrders s h) = userOrders s ∧
  balances (_removeFromActiveOrders s h) = balances s ∧
  totalOrdersCreated (_removeFromActiveOrders s h) = totalOrdersCreated s ∧
  totalOrdersFilled (_removeFromActiveOrders s h) = totalOrdersFilled s ∧
  globalTolerancePercent (_removeFromActiveOrders s h) = globalTolerancePercent s ∧
  guardEntered (_removeFromActiveOrders s h) = guardEntered s.
Proof. unfold _removeFromActiveOrders. by destruct (indexOf _ _ _). Qed.

Lemma removeFromActive_active_ext s1 s2 h :
  activeOrderHashes s1 = activeOrderHashes s2 →
  activeOrderHashes (_removeFromActiveOrders s1 h) =
    activeOrderHashes (_removeFromActiveOrders s2 h).
Proof. intros H. by rewrite !removeFromActive_array, H. Qed.

Lemma orderOf_removeFromActive s h h' :
  orderOf (_removeFromActiveOrders s h) h' = orderOf s h'.
Proof. apply orderOf_same_orders, removeFromActive_frame. Qed.

Lemma balanceOf_removeFromActive s h t x :
  balanceOf (_removeFromActiveOrders s h) t x = balanceOf s t x.
Proof.
  unfold balanceOf. by rewrite (proj1 (proj2 (proj2 (removeFromActive_frame s h)))).
Qed.

Lemma balanceOf_same_balances s s' t x :
  balances s' = balances s → balanceOf s' t x = balanceOf s t x.
Proof. intros H. unfold balanceOf. by rewrite H. Qed.

(** *** [_cancelOrder] *)

(** When [_cancelOrder] returns: the refund is well defined and covered by
    what the contract holds. *)
Lemma cancelOrder_internal_inv e s h reason s' :
  _cancelOrder e s h reason = Ok s' →
  totalFilled (execution (orderOf s h)) ≤ amount (orderOf s h) ∧
  amount (orderOf s h) - totalFilled (execution (orderOf s h))
    ≤ balanceOf s (makerAsset (orderOf s h)) (this e).
Proof.
  unfold _cancelOrder. cbv zeta.
  destruct (sub _ _) as [refund|] eqn:Hsub; [|done]. rewrite bind_Ok.
  apply sub_inv in Hsub as [Hle ->]. unfold safeTransfer.
  destruct (moveTokens _ _ _ _ _) as [s1|] eqn:Hm; [|done]. intros _.
  apply moveTokens_inv in Hm as [Hm _]. done.
Qed.

(** What [_cancelOrder] does when the refund is covered. *)
Lemma cancelOrder_internal e s h reason :
  let o := orderOf s h in
  let refund := amount o - totalFilled (execution o) in
  totalFilled (execution o) ≤ amount o →
  refund ≤ balanceOf s (makerAsset o) (this e) →
  ∃ s', _cancelOrder e s h reason = Ok s' ∧
    orderOf s' h =
      withExecution o
        (mkExecutionInfo (attempts (execution o)) (lastAttempt (execution o)) reason
           (totalFilled (execution o)) true) ∧
    (∀ h', h' ≠ h → orderOf s' h' = orderOf s h') ∧
    activeOrderHashes s' = activeOrderHashes (_removeFromActiveOrders s h) ∧
    userOrders s' = userOrders s ∧
    totalOrdersCreated s' = totalOrdersCreated s ∧
    totalOrdersFilled s' = totalOrdersFilled s ∧
    globalTolerancePercent s' = globalTolerancePercent s ∧
    guardEntered s' = guardEntered s ∧
    (∀ t x, (t, x) ≠ (makerAsset o, this e) → (t, x) ≠ (makerAsset o, user o) →
       balanceOf s' t x = balanceOf s t x) ∧
    (user o ≠ this e →
       balanceOf s' (makerAsset o) (user o) = balanceOf s (makerAsset o) (user o) + refund ∧
       balanceOf s' (makerAsset o) (this e) = balanceOf s (makerAsset o) (this e) - refund).
Proof.
  intros o refund Hfilled Hbal. subst o refund.
  unfold _cancelOrder. cbv zeta.
  rewrite sub_Ok, bind_Ok by done. unfold safeTransfer.
  destruct (moveTokens_Ok s (makerAsset (orderOf s h)) (this e) (user (orderOf s h))
              (amount (orderOf s h) - totalFilled (execution (orderOf s h))) Hbal)
    as (s1 & Hm & _).
  rewrite Hm, bind_Ok.
  apply moveTokens_inv in Hm
    as (_ & Ho & Hu & Ha & Hc & Hf & Hg & Hgd & Hframe & Hmoved).
  eexists. split; [done|].
  assert (orderOf s1 h = orderOf s h) as Hoh by (by apply orderOf_same_orders).
  split. { by rewrite orderOf_removeFromActive, orderOf_setOrder, Hoh. }
  split. { intros h' Hne. rewrite orderOf_removeFromActive, orderOf_setOrder_ne by done.
           by apply orderOf_same_orders. }
  split. { by apply removeFromActive_active_ext. }
  destruct (removeFromActive_frame
              (setOrder s1 h
                 (withExecution (orderOf s1 h)
                    (mkExecutionInfo (attempts (execution (orderOf s1 h)))
                       (lastAttempt (execution (orderOf s1 h))) reason
                       (totalFilled (execution (orderOf s1 h))) true))) h)
    as (_ & Hu' & Hb' & Hc' & Hf' & Hg' & Hgd').
  split. { by rewrite Hu'. }
  split. { by rewrite Hc'. }
  split. { by rewrite Hf'. }
  split. { by rewrite Hg'. }
  split. { by rewrite Hgd'. }
  split.
  - intros t x H1 H2. rewrite balanceOf_removeFromActive.
    rewrite <- (Hframe t x H1 H2). done.
  - intros Hne. rewrite !balanceOf_removeFromActive.
    destruct Hmoved as [H1 H2]; [congruence|]. split; [exact H1|exact H2].
Qed.

(** The effect of [cancelOrder] called by the creator. *)
Lemma cancelOrder_spec e h s :
  let o := orderOf s h in
  let refund := amount o - totalFilled (execution o) in
  user o ≠ 0 → user o = msg_sender e → user o ≠ this e →
  totalFilled (execution o) ≤ amount o →
  refund ≤ balanceOf s (makerAsset o) (this e) →
  ∃ s', cancelOrder e h s = Ok s' ∧
    balanceOf s' (makerAsset o) (user o) = balanceOf s (makerAsset o) (user o) + refund ∧
    balanceOf s' (makerAsset o) (this e) = balanceOf s (makerAsset o) (this e) - refund ∧
    (∀ t x, (t, x) ≠ (makerAsset o, this e) → (t, x) ≠ (makerAsset o, user o) →
       balanceOf s' t x = balanceOf s t x) ∧
    orderOf s' h =
      withExecution o
        (mkExecutionInfo (attempts (execution o)) (lastAttempt (execution o))
           "Cancelled by user" (totalFilled (execution o)) true) ∧
    (∀ h', h' ≠ h → orderOf s' h' = orderOf s h') ∧
    activeOrderHashes s' = activeOrderHashes (_removeFromActiveOrders s h) ∧
    totalOrdersFilled s' = totalOrdersFilled s.
Proof.
  intros o refund Hu Hs Hthis Hfilled Hbal. subst o refund.
  unfold cancelOrder, orderExists, onlyOrderCreator.
  destruct (user (orderOf s h) =? 0) eqn:E1; [lia|].
  destruct (user (orderOf s h) =? msg_sender e) eqn:E2; [|lia].
  rewrite !require_true, !bind_Ok.
  destruct (cancelOrder_internal e s h "Cancelled by user" Hfilled Hbal)
    as (s' & Hc & Ho & Hothers & Hact & _ & _ & Hf & _ & _ & Hframe & Hmoved).
  exists s'. split; [exact Hc|].
  destruct (Hmoved Hthis) as [H1 H2].
  split; [exact H1|]. split; [exact H2|]. split; [exact Hframe|].
  split; [exact Ho|]. split; [exact Hothers|]. split; [exact Hact|exact Hf].
Qed.



(** X3.  [cancelOrder] is reserved to the creator of an existing order and
    stays within that order and its maker asset: when it returns, the
    caller is the (non-zero) creator, the refund was covered by the
    contract's holding, the order is completed, and every other order and
    every balance of another token is as before. *)
Theorem cancelOrder_owner_only (e : Env) (h : bytes32) (s s' : State) :
  cancelOrder e h s = Ok s' →
  let o := orderOf s h in
  user o = msg_sender e ∧ msg_sender e ≠ 0 ∧
  amount o - totalFilled (execution o) ≤ balanceOf s (makerAsset o) (this e) ∧
  isCompleted (execution (orderOf s' h)) = true ∧
  amount (orderOf s' h) = amount o ∧
  (∀ h', h' ≠ h → orderOf s' h' = orderOf s h') ∧
  (∀ t x, t ≠ makerAsset o → balanceOf s' t x = balanceOf s t x).
Proof.
  intros H. cbv zeta. unfold cancelOrder, orderExists, onlyOrderCreator in H.
  destruct (user (orderOf s h) =? 0) eqn:E1; [done|].
  destruct (user (orderOf s h) =? msg_sender e) eqn:E2; [|done].
  rewrite !require_true, !bind_Ok in H.
  destruct (cancelOrder_internal_inv _ _ _ _ _ H) as [Hfilled Hbal].
  destruct (cancelOrder_internal e s h "Cancelled by user" Hfilled Hbal)
    as (s1 & Hc & Ho & Hothers & _ & _ & _ & _ & _ & _ & Hframe & _).
  rewrite H in Hc. injection Hc as <-.
  split; [lia|]. split; [lia|]. split; [exact Hbal|].
  split. { by rewrite Ho. }
  split. { by rewrite Ho. }
  split; [exact Hothers|].
  intros t x Hne. apply Hframe; congruence.
Qed.

Lemma cancelOrder_owner_only_witness :
  msg_sender LedgerScenarios.asAlice ≠ 0.
Proof.
  destruct (cancelOrder_owner_only LedgerScenarios.asAlice
              (getOrderHash LedgerScenarios.aliceOrder) LedgerScenarios.stAliceBob
              LedgerScenarios.stCancelled) as (_ & H & _).
  - vm_compute. reflexivity.
  - exact H.
Defined.

(** *** [_adjustOrderAmount] *)

Lemma adjustOrderAmount_spec e s h newAmount :
  let o := orderOf s h in
  0 < newAmount < amount o →
  amount o - newAmount ≤ balanceOf s (makerAsset o) (this e) →
  ∃ s', _adjustOrderAmount e s h newAmount = Ok s' ∧
    orderOf s' h = withAmount o newAmount ∧
    (∀ h', h' ≠ h → orderOf s' h' = orderOf s h') ∧
    activeOrderHashes s' = activeOrderHashes s ∧
    totalOrdersFilled s' = totalOrdersFilled s ∧
    guardEntered s' = guardEntered s ∧
    (∀ t x, (t, x) ≠ (makerAsset o, this e) → (t, x) ≠ (makerAsset o, user o) →
       balanceOf s' t x = balanceOf s t x) ∧
    (user o ≠ this e →
       balanceOf s' (makerAsset o) (user o)
         = balanceOf s (makerAsset o) (user o) + (amount o - newAmount) ∧
       balanceOf s' (makerAsset o) (this e)
         = balanceOf s (makerAsset o) (this e) - (amount o - newAmount)).
Proof.
  intros o Hnew Hbal. subst o. unfold _adjustOrderAmount. cbv zeta.
  destruct (newAmount >? 0) eqn:E1; [|lia].
  destruct (newAmount <? amount (orderOf s h)) eqn:E2; [|lia].
  rewrite !require_true, !bind_Ok.
  rewrite sub_Ok, bind_Ok by lia. unfold safeTransfer.
  destruct (moveTokens_Ok s (makerAsset (orderOf s h)) (this e) (user (orderOf s h))
              (amount (orderOf s h) - newAmount) Hbal) as (s1 & Hm & _).
  rewrite Hm, bind_Ok.
  apply moveTokens_inv in Hm
    as (_ & Ho & Hu & Ha & Hc & Hf & Hg & Hgd & Hframe & Hmoved).
  eexists. split; [done|].
  split. { by rewrite orderOf_setOrder, (orderOf_same_orders s s1). }
  split. { intros h' Hne. rewrite orderOf_setOrder_ne by done.
           by apply orderOf_same_orders. }
  split; [exact Ha|]. split; [exact Hf|]. split; [exact Hgd|].
  split; [exact Hframe|].
  intros Hne. destruct Hmoved as [H1 H2]; [congruence|]. split; [exact H1|exact H2].
Qed.

Lemma adjustOrderAmount_rejects e s h newAmount :
  (newAmount ≤ 0 → _adjustOrderAmount e s h newAmount = Err (Revert "Invalid new amount")) ∧
  (0 < newAmount → amount (orderOf s h) ≤ newAmount →
   _adjustOrderAmount e s h newAmount = Err (Revert "Can only decrease amount")).
Proof.
  unfold _adjustOrderAmount. cbv zeta. split.
  - intros H. destruct (newAmount >? 0) eqn:E1; [lia|done].
  - intros H1 H2. destruct (newAmount >? 0) eqn:E1; [|lia].
    destruct (newAmount <? amount (orderOf s h)) eqn:E2; [lia|done].
Qed.

(** *** The phases of [executeOrder] *)

Lemma executeOrderBody_phases e h p s :
  executeOrderBody e h p s =
    (require (expiry (orderOf s h) >? block_timestamp e) "Order expired";;
     require (negb (isCompleted (execution (orderOf s h)))) "Order already completed";;
     (if pp_enabled (priceProtection (orderOf s h))
      then
        isWithinTolerance ← checkPriceProtection s (orderOf s h) p;
        require isWithinTolerance "Price outside tolerance range"
      else Ok tt);;
     outcome ← balanceStep e h s;
     match outcome with
     | Cancelled s' => Ok s'
     | Proceed s0 => settle e h s0
     end).
Proof. reflexivity. Qed.

(** An order that exists, has not expired, is not completed and passes
    its price check reaches the balance check. *)
Lemma executeOrder_after_checks e h p s :
  guardEntered s = false →
  user (orderOf s h) ≠ 0 →
  expiry (orderOf s h) > block_timestamp e →
  isCompleted (execution (orderOf s h)) = false →
  (pp_enabled (priceProtection (orderOf s h)) = true →
   checkPriceProtection s (orderOf s h) p = Ok true) →
  executeOrder e h p s =
    (outcome ← balanceStep e h (setGuard s true);
     s' ← match outcome with
          | Cancelled s' => Ok s'
          | Proceed s0 => settle e h s0
          end;
     Ok (setGuard s' false)).
Proof.
  intros Hg Hu Hexp Hc Hpp. rewrite executeOrder_unfold by done.
  unfold orderExists. destruct (user (orderOf s h) =? 0) eqn:E0; [lia|].
  rewrite require_true, bind_Ok. rewrite executeOrderBody_phases.
  change (orderOf (setGuard s true) h) with (orderOf s h).
  rewrite checkPriceProtection_setGuard.
  destruct (expiry (orderOf s h) >? block_timestamp e) eqn:E1; [|lia].
  rewrite Hc. rewrite !require_true, !bind_Ok.
  destruct (pp_enabled (priceProtection (orderOf s h))).
  - rewrite Hpp by done. rewrite bind_Ok, require_true, bind_Ok.
    by destruct (balanceStep e h (setGuard s true)) as [[?|?]|].
  - rewrite bind_Ok.
    by destruct (balanceStep e h (setGuard s true)) as [[?|?]|].
Qed.

(** The settlement: the executor pays [amount·targetPrice/1e18] of the
    taker asset to the maker, receives the whole [amount] of the maker
    asset out of the contract's holding, and the order is closed. *)
Lemma settle_spec e h s0 :
  let o := orderOf s0 h in
  let takerAmount := amount o * targetPrice o / PRICE_PRECISION in
  amount o * targetPrice o ≤ MAX_UINT256 →
  takerAmount ≤ balanceOf s0 (takerAsset o) (msg_sender e) →
  amount o ≤ balanceOf s0 (makerAsset o) (this e) →
  makerAsset o ≠ takerAsset o → msg_sender e ≠ user o → msg_sender e ≠ this e →
  attempts (execution o) + 1 ≤ MAX_UINT256 →
  totalOrdersFilled s0 + 1 ≤ MAX_UINT256 →
  ∃ s', settle e h s0 = Ok s' ∧
    orderOf s' h =
      withExecution o
        (mkExecutionInfo (attempts (execution o) + 1) (block_timestamp e)
           (failureReason (execution o)) (amount o) true) ∧
    (∀ h', h' ≠ h → orderOf s' h' = orderOf s0 h') ∧
    activeOrderHashes s' = activeOrderHashes (_removeFromActiveOrders s0 h) ∧
    totalOrdersFilled s' = totalOrdersFilled s0 + 1 ∧
    guardEntered s' = guardEntered s0 ∧
    balanceOf s' (takerAsset o) (user o) = balanceOf s0 (takerAsset o) (user o) + takerAmount ∧
    balanceOf s' (takerAsset o) (msg_sender e)
      = balanceOf s0 (takerAsset o) (msg_sender e) - takerAmount ∧
    balanceOf s' (makerAsset o) (msg_sender e)
      = balanceOf s0 (makerAsset o) (msg_sender e) + amount o ∧
    balanceOf s' (makerAsset o) (this e) = balanceOf s0 (makerAsset o) (this e) - amount o ∧
    (∀ t x, (t, x) ≠ (takerAsset o, msg_sender e) → (t, x) ≠ (takerAsset o, user o) →
            (t, x) ≠ (makerAsset o, this e) → (t, x) ≠ (makerAsset o, msg_sender e) →
       balanceOf s' t x = balanceOf s0 t x).
Proof.
  intros o takerAmount Hprod Hta Hesc Hassets Hsu Hst Hatt Hfill.
  subst takerAmount. unfold settle. cbv zeta. fold o.
  rewrite (mul_Ok (amount o) (targetPrice o)), bind_Ok by done.
  rewrite (div_Ok _ PRICE_PRECISION), bind_Ok by (unfold PRICE_PRECISION; lia).
  unfold safeTransferFrom, safeTransfer.
  destruct (moveTokens_Ok s0 (takerAsset o) (msg_sender e) (user o) _ Hta) as (s1 & Hm1 & _).
  rewrite Hm1, bind_Ok.
  apply moveTokens_inv in Hm1
    as (_ & Ho1 & _ & Ha1 & _ & Hf1 & _ & Hg1 & Hframe1 & Hmoved1).
  destruct Hmoved1 as [Hb1 Hb2]; [done|].
  assert (amount o ≤ balanceOf s1 (makerAsset o) (this e)) as Hesc1.
  { rewrite Hframe1 by congruence. done. }
  destruct (moveTokens_Ok s1 (makerAsset o) (this e) (msg_sender e) _ Hesc1) as (s2 & Hm2 & _).
  rewrite Hm2, bind_Ok.
  apply moveTokens_inv in Hm2
    as (_ & Ho2 & _ & Ha2 & _ & Hf2 & _ & Hg2 & Hframe2 & Hmoved2).
  destruct Hmoved2 as [Hb3 Hb4]; [done|].
  assert (orderOf s2 h = o) as Hoh.
  { subst o. apply orderOf_same_orders. by rewrite Ho2. }
  rewrite Hoh.
  rewrite (add_Ok (attempts (execution o)) 1), bind_Ok by done.
  match goal with |- context [add (totalOrdersFilled ?st) 1] =>
    change (totalOrdersFilled st) with (totalOrdersFilled s2) end.
  rewrite Hf2, Hf1.
  rewrite (add_Ok (totalOrdersFilled s0) 1), bind_Ok by done.
  eexists. split; [done|].
  split. { rewrite orderOf_removeFromActive.
           change (orderOf (setFilled ?st _) h) with (orderOf st h).
           by rewrite orderOf_setOrder. }
  split. { intros h' Hne. rewrite orderOf_removeFromActive.
           change (orderOf (setFilled ?st _) h') with (orderOf st h').
           rewrite orderOf_setOrder_ne by done.
           apply orderOf_same_orders. by rewrite Ho2. }
  split. { apply removeFromActive_active_ext. simpl. by rewrite Ha2. }
  split. { by rewrite (proj1 (proj2 (proj2 (proj2 (proj2 (removeFromActive_frame _ h)))))). }
  split. { rewrite (proj2 (proj2 (proj2 (proj2 (proj2 (proj2 (removeFromActive_frame _ h))))))).
           simpl. by rewrite Hg2. }
  rewrite !balanceOf_removeFromActive.
  change (balanceOf (setFilled (setOrder s2 ?a ?b) ?c)) with (balanceOf s2).
  split. { rewrite Hframe2 by congruence. exact Hb1. }
  split. { rewrite Hframe2 by congruence. exact Hb2. }
  split. { rewrite Hb3. rewrite Hframe1 by congruence. done. }
  split. { rewrite Hb4. rewrite Hframe1 by congruence. done. }
  intros t x H1 H2 H3 H4. rewrite balanceOf_removeFromActive.
  change (balanceOf (setFilled (setOrder s2 ?a ?b) ?c)) with (balanceOf s2).
  rewrite Hframe2 by done. by apply Hframe1.
Qed.

(** *** The paths of [executeOrder] *)

(** X4.  An executable order is filled whole, in one step.  For an order
    that exists, has not expired, is not completed and passes its price
    check, and whose balance check either is off, or finds the maker's
    wallet sufficient, or has neither automatic reaction set:
    [executeOrder] succeeds when the executor can pay
    [amount·targetPrice/1e18] of the taker asset; that sum goes from the
    executor to the maker, the whole [amount] of the maker asset goes from
    the contract to the executor, the order is completed with
    [totalFilled = amount], one more attempt stamped with the block time,
    it leaves the active array, the fill counter grows by one, the guard
    is released, and no other order or balance changes.  A balance check
    without an automatic reaction therefore never stops an execution.
    (Side conditions: the two assets differ, the executor is neither the
    maker nor the contract, the contract holds the amount, and the product
    and the two counters fit a word.) *)
Theorem executeOrder_fills_whole_order (e : Env) (h : bytes32) (p : uint256) (s : State) :
  let o := orderOf s h in
  let takerAmount := amount o * targetPrice o / PRICE_PRECISION in
  guardEntered s = false → user o ≠ 0 →
  expiry o > block_timestamp e → isCompleted (execution o) = false →
  (pp_enabled (priceProtection o) = true → checkPriceProtection s o p = Ok true) →
  (bc_enabled (balanceCheck o) = true →
     amount o ≤ balanceOf s (makerAsset o) (user o) ∨
     (bc_autoCancel (balanceCheck o) = false ∧ bc_autoAdjust (balanceCheck o) = false)) →
  amount o * targetPrice o ≤ MAX_UINT256 →
  takerAmount ≤ balanceOf s (takerAsset o) (msg_sender e) →
  amount o ≤ balanceOf s (makerAsset o) (this e) →
  makerAsset o ≠ takerAsset o → msg_sender e ≠ user o → msg_sender e ≠ this e →
  attempts (execution o) + 1 ≤ MAX_UINT256 →
  totalOrdersFilled s + 1 ≤ MAX_UINT256 →
  ∃ s', executeOrder e h p s = Ok s' ∧
    orderOf s' h =
      withExecution o
        (mkExecutionInfo (attempts (execution o) + 1) (block_timestamp e)
           (failureReason (execution o)) (amount o) true) ∧
    (∀ h', h' ≠ h → orderOf s' h' = orderOf s h') ∧
    activeOrderHashes s' = activeOrderHashes (_removeFromActiveOrders s h) ∧
    totalOrdersFilled s' = totalOrdersFilled s + 1 ∧
    guardEntered s' = false ∧
    balanceOf s' (takerAsset o) (user o) = balanceOf s (takerAsset o) (user o) + takerAmount ∧
    balanceOf s' (takerAsset o) (msg_sender e)
      = balanceOf s (takerAsset o) (msg_sender e) - takerAmount ∧
    balanceOf s' (makerAsset o) (msg_sender e)
      = balanceOf s (makerAsset o) (msg_sender e) + amount o ∧
    balanceOf s' (makerAsset o) (this e) = balanceOf s (makerAsset o) (this e) - amount o ∧
    (∀ t x, (t, x) ≠ (takerAsset o, msg_sender e) → (t, x) ≠ (takerAsset o, user o) →
            (t, x) ≠ (makerAsset o, this e) → (t, x) ≠ (makerAsset o, msg_sender e) →
       balanceOf s' t x = balanceOf s t x).
Proof.
  intros o takerAmount Hg Hu Hexp Hc Hpp Hbc Hprod Hta Hesc Hassets Hsu Hst Hatt Hfill.
  subst o takerAmount.
  rewrite executeOrder_after_checks by done.
  assert (balanceStep e h (setGuard s true) = Ok (Proceed (setGuard s true))) as ->.
  { unfold balanceStep. cbv zeta.
    change (orderOf (setGuard s true) h) with (orderOf s h).
    change (balanceOf (setGuard s true)) with (balanceOf s).
    destruct (bc_enabled (balanceCheck (orderOf s h))); [|done].
    destruct Hbc as [Hbc|[-> ->]]; [done| |].
    - destruct (_ <? _) eqn:E; [lia|done].
    - by destruct (_ <? _). }
  rewrite bind_Ok.
  destruct (settle_spec e h (setGuard s true) Hprod Hta Hesc Hassets Hsu Hst Hatt Hfill)
    as (s' & -> & Ho & Hothers & Hact & Hf & _ & Hb1 & Hb2 & Hb3 & Hb4 & Hframe).
  rewrite bind_Ok. eexists. split; [done|].
  split; [exact Ho|]. split; [exact Hothers|].
  split. { etransitivity; [exact Hact|]. by apply removeFromActive_active_ext. }
  split; [exact Hf|]. split; [done|].
  split; [exact Hb1|]. split; [exact Hb2|]. split; [exact Hb3|]. split; [exact Hb4|].
  exact Hframe.
Qed.

Lemma executeOrder_fills_whole_order_witness :
  ∃ s', executeOrder LedgerScenarios.asTaker
          (getOrderHash (BalanceScenarios.checkedOrder false false)) 0
          (BalanceScenarios.stChecked false false) = Ok s' ∧
        balanceOf s' LedgerScenarios.TOKEN_A LedgerScenarios.taker = 6 * 10 ^ 19 ∧
        balanceOf s' LedgerScenarios.TOKEN_B LedgerScenarios.alice = 12 * 10 ^ 19.
Proof.
  destruct (executeOrder_fills_whole_order LedgerScenarios.asTaker
              (getOrderHash (BalanceScenarios.checkedOrder false false)) 0
              (BalanceScenarios.stChecked false false))
    as (s' & He & _ & _ & _ & _ & _ & Hb1 & _ & Hb3 & _ & _).
  - vm_compute. reflexivity.
  - vm_compute. discriminate.
  - vm_compute. reflexivity.
  - vm_compute. reflexivity.
  - vm_compute. discriminate.
  - intros _. right. split; vm_compute; reflexivity.
  - vm_compute. discriminate.
  - vm_compute. discriminate.
  - vm_compute. discriminate.
  - vm_compute. discriminate.
  - vm_compute. discriminate.
  - vm_compute. discriminate.
  - vm_compute. discriminate.
  - vm_compute. discriminate.
  - exists s'. split; [exact He|]. split.
    + etransitivity; [exact Hb3|]. vm_compute. reflexivity.
    + etransitivity; [exact Hb1|]. vm_compute. reflexivity.
Defined.

(** X5.  Cancellation takes precedence at the balance check.  When the
    maker's wallet holds less of the maker asset than the order amount and
    [autoCancel] is set, then whatever [autoAdjust] says, [executeOrder]
    succeeds without executing: the unfilled remainder goes back from the
    contract to the maker, the order is completed with the reason
    "Insufficient balance - auto cancelled", its attempt counter and
    [totalFilled] keep their values, it leaves the active array, the fill
    counter is unchanged, and the executor neither pays nor receives
    anything.  (Side conditions: the order passes the earlier checks, the
    maker is not the contract, and the contract holds the remainder.) *)
Theorem executeOrder_auto_cancels (e : Env) (h : bytes32) (p : uint256) (s : State) :
  let o := orderOf s h in
  let refund := amount o - totalFilled (execution o) in
  guardEntered s = false → user o ≠ 0 →
  expiry o > block_timestamp e → isCompleted (execution o) = false →
  (pp_enabled (priceProtection o) = true → checkPriceProtection s o p = Ok true) →
  bc_enabled (balanceCheck o) = true →
  balanceOf s (makerAsset o) (user o) < amount o →
  bc_autoCancel (balanceCheck o) = true →
  totalFilled (execution o) ≤ amount o →
  refund ≤ balanceOf s (makerAsset o) (this e) →
  user o ≠ this e →
  ∃ s', executeOrder e h p s = Ok s' ∧
    orderOf s' h =
      withExecution o
        (mkExecutionInfo (attempts (execution o)) (lastAttempt (execution o))
           "Insufficient balance - auto cancelled" (totalFilled (execution o)) true) ∧
    (∀ h', h' ≠ h → orderOf s' h' = orderOf s h') ∧
    activeOrderHashes s' = activeOrderHashes (_removeFromActiveOrders s h) ∧
    totalOrdersFilled s' = totalOrdersFilled s ∧
    guardEntered s' = false ∧
    balanceOf s' (makerAsset o) (user o) = balanceOf s (makerAsset o) (user o) + refund ∧
    balanceOf s' (makerAsset o) (this e) = balanceOf s (makerAsset o) (this e) - refund ∧
    (∀ t x, (t, x) ≠ (makerAsset o, this e) → (t, x) ≠ (makerAsset o, user o) →
       balanceOf s' t x = balanceOf s t x).
Proof.
  intros o refund Hg Hu Hexp Hc Hpp Hen Hlow Hcancel Hfilled Hbal Hthis.
  subst o refund.
  rewrite executeOrder_after_checks by done.
  destruct (cancelOrder_internal e (setGuard s true) h
              "Insufficient balance - auto cancelled" Hfilled Hbal)
    as (s' & Hcl & Ho & Hothers & Hact & _ & _ & Hf & _ & _ & Hframe & Hmoved).
  assert (balanceStep e h (setGuard s true) = Ok (Cancelled s')) as ->.
  { unfold balanceStep. cbv zeta.
    change (orderOf (setGuard s true) h) with (orderOf s h).
    change (balanceOf (setGuard s true)) with (balanceOf s).
    rewrite Hen, Hcancel.
    destruct (_ <? _) eqn:E; [|lia].
    by rewrite Hcl. }
  rewrite !bind_Ok. eexists. split; [done|].
  destruct (Hmoved Hthis) as [H1 H2].
  split; [exact Ho|]. split; [exact Hothers|].
  split. { etransitivity; [exact Hact|]. by apply removeFromActive_active_ext. }
  split; [exact Hf|]. split; [done|].
  split; [exact H1|]. split; [exact H2|exact Hframe].
Qed.

Lemma executeOrder_auto_cancels_witness :
  ∃ s', executeOrder LedgerScenarios.asTaker
          (getOrderHash (BalanceScenarios.checkedOrder true true)) 0
          (BalanceScenarios.stChecked true true) = Ok s' ∧
        balanceOf s' LedgerScenarios.TOKEN_A LedgerScenarios.alice = 10 ^ 20 ∧
        balanceOf s' LedgerScenarios.TOKEN_A LedgerScenarios.taker = 0.
Proof.
  destruct (executeOrder_auto_cancels LedgerScenarios.asTaker
              (getOrderHash (BalanceScenarios.checkedOrder true true)) 0
              (BalanceScenarios.stChecked true true))
    as (s' & He & _ & _ & _ & _ & _ & Hb1 & _ & Hframe).
  - vm_compute. reflexivity.
  - vm_compute. discriminate.
  - vm_compute. reflexivity.
  - vm_compute. reflexivity.
  - vm_compute. discriminate.
  - vm_compute. reflexivity.
  - vm_compute. reflexivity.
  - vm_compute. reflexivity.
  - vm_compute. discriminate.
  - vm_compute. discriminate.
  - vm_compute. discriminate.
  - exists s'. split; [exact He|]. split.
    + etransitivity; [exact Hb1|]. vm_compute. reflexivity.
    + etransitivity; [apply Hframe; vm_compute; discriminate|]. vm_compute. reflexivity.
Defined.

(** X6.  The automatic adjustment.  When the maker's wallet holds
    [b < amount] of the maker asset, [autoCancel] is off and [autoAdjust]
    is on: with an empty wallet the execution reverts with "Invalid new
    amount" (and the order stays open); with [0 < b] the order is shrunk
    to [b], the difference [amount − b] is returned from the contract to
    the maker, and the shrunk order is filled whole: the executor pays
    [b·targetPrice/1e18] and receives [b], the order is completed with
    [amount = totalFilled = b], and the contract has released the original
    [amount] in all.  (Side conditions for the second case: the contract
    holds the amount, the two assets differ, maker, executor and contract
    are three different parties, and the product and the two counters fit
    a word.) *)
Theorem executeOrder_auto_adjusts (e : Env) (h : bytes32) (p : uint256) (s : State) :
  let o := orderOf s h in
  let b := balanceOf s (makerAsset o) (user o) in
  let takerAmount := b * targetPrice o / PRICE_PRECISION in
  guardEntered s = false → user o ≠ 0 →
  expiry o > block_timestamp e → isCompleted (execution o) = false →
  (pp_enabled (priceProtection o) = true → checkPriceProtection s o p = Ok true) →
  bc_enabled (balanceCheck o) = true →
  b < amount o →
  bc_autoCancel (balanceCheck o) = false →
  bc_autoAdjust (balanceCheck o) = true →
  (b ≤ 0 → executeOrder e h p s = Err (Revert "Invalid new amount")) ∧
  (0 < b →
   amount o ≤ balanceOf s (makerAsset o) (this e) →
   b * targetPrice o ≤ MAX_UINT256 →
   takerAmount ≤ balanceOf s (takerAsset o) (msg_sender e) →
   makerAsset o ≠ takerAsset o → user o ≠ this e →
   msg_sender e ≠ user o → msg_sender e ≠ this e →
   attempts (execution o) + 1 ≤ MAX_UINT256 →
   totalOrdersFilled s + 1 ≤ MAX_UINT256 →
   ∃ s', executeOrder e h p s = Ok s' ∧
     orderOf s' h =
       withExecution (withAmount o b)
         (mkExecutionInfo (attempts (execution o) + 1) (block_timestamp e)
            (failureReason (execution o)) b true) ∧
     (∀ h', h' ≠ h → orderOf s' h' = orderOf s h') ∧
     activeOrderHashes s' = activeOrderHashes (_removeFromActiveOrders s h) ∧
     totalOrdersFilled s' = totalOrdersFilled s + 1 ∧
     guardEntered s' = false ∧
     balanceOf s' (makerAsset o) (user o) = amount o ∧
     balanceOf s' (makerAsset o) (msg_sender e)
       = balanceOf s (makerAsset o) (msg_sender e) + b ∧
     balanceOf s' (makerAsset o) (this e) = balanceOf s (makerAsset o) (this e) - amount o ∧
     balanceOf s' (takerAsset o) (user o) = balanceOf s (takerAsset o) (user o) + takerAmount ∧
     balanceOf s' (takerAsset o) (msg_sender e)
       = balanceOf s (takerAsset o) (msg_sender e) - takerAmount).
Proof.
  intros o b takerAmount Hg Hu Hexp Hc Hpp Hen Hlow Hcancel Hadjust.
  subst takerAmount.
  rewrite executeOrder_after_checks by done.
  assert (balanceStep e h (setGuard s true) =
            (s' ← _adjustOrderAmount e (setGuard s true) h b; Ok (Proceed s'))) as ->.
  { unfold balanceStep. cbv zeta.
    change (orderOf (setGuard s true) h) with o.
    change (balanceOf (setGuard s true) (makerAsset o) (user o)) with b.
    rewrite Hen, Hcancel, Hadjust.
    destruct (b <? amount o) eqn:E; [done|lia]. }
  split.
  - intros Hb. by rewrite (proj1 (adjustOrderAmount_rejects e (setGuard s true) h b) Hb).
  - intros Hb Hesc Hprod Hta Hassets Hthis Hsu Hst Hatt Hfill.
    destruct (adjustOrderAmount_spec e (setGuard s true) h b) as
      (sa & -> & Hoa & Hothers & Hact & Hf & Hgd & Hframe & Hmoved).
    { change (orderOf (setGuard s true) h) with o. lia. }
    { change (orderOf (setGuard s true) h) with o.
      change (balanceOf (setGuard s true)) with (balanceOf s). lia. }
    change (orderOf (setGuard s true) h) with o in *.
    change (balanceOf (setGuard s true)) with (balanceOf s) in *.
    destruct (Hmoved Hthis) as [Hm1 Hm2].
    rewrite !bind_Ok.
    pose proof (settle_spec e h sa) as Hs. cbv zeta in Hs. rewrite Hoa in Hs.
    cbn [withAmount amount targetPrice makerAsset takerAsset user execution] in Hs.
    destruct Hs as (s' & -> & Ho & Hothers' & Hact' & Hf' & _ & Hb1 & Hb2 & Hb3 & Hb4 & Hframe').
    { done. }
    { rewrite Hframe by congruence. done. }
    { rewrite Hm2. lia. }
    { done. } { done. } { done. } { done. }
    { rewrite Hf. done. }
    rewrite bind_Ok. eexists. split; [done|].
    split; [exact Ho|].
    split. { intros h' Hne. change (orderOf (setGuard s' false)) with (orderOf s').
             rewrite Hothers' by done. by apply Hothers. }
    split. { etransitivity; [exact Hact'|]. apply removeFromActive_active_ext.
             etransitivity; [exact Hact|]. done. }
    split. { change (totalOrdersFilled (setGuard s' false)) with (totalOrdersFilled s').
             rewrite Hf', Hf. done. }
    split; [done|].
    change (balanceOf (setGuard s' false)) with (balanceOf s').
    split. { rewrite Hframe' by congruence. rewrite Hm1. lia. }
    split. { rewrite Hb3. rewrite Hframe by congruence. done. }
    split. { rewrite Hb4, Hm2. lia. }
    split. { rewrite Hb1. rewrite Hframe by congruence. done. }
    rewrite Hb2. rewrite Hframe by congruence. done.
Qed.

Lemma executeOrder_auto_adjusts_witness :
  ∃ s', executeOrder LedgerScenarios.asTaker
          (getOrderHash (BalanceScenarios.checkedOrder false true)) 0
          (BalanceScenarios.stChecked false true) = Ok s' ∧
        amount (orderOf s' (getOrderHash (BalanceScenarios.checkedOrder false true)))
          = 4 * 10 ^ 19 ∧
        balanceOf s' LedgerScenarios.TOKEN_A LedgerScenarios.alice = 6 * 10 ^ 19.
Proof.
  destruct (executeOrder_auto_adjusts LedgerScenarios.asTaker
              (getOrderHash (BalanceScenarios.checkedOrder false true)) 0
              (BalanceScenarios.stChecked false true)) as (_ & H).
  - vm_compute. reflexivity.
  - vm_compute. discriminate.
  - vm_compute. reflexivity.
  - vm_compute. reflexivity.
  - vm_compute. discriminate.
  - vm_compute. reflexivity.
  - vm_compute. reflexivity.
  - vm_compute. reflexivity.
  - vm_compute. reflexivity.
  - destruct H as (s' & He & Ho & _ & _ & _ & _ & Hb & _).
    + vm_compute. reflexivity.
    + vm_compute. discriminate.
    + vm_compute. discriminate.
    + vm_compute. discriminate.
    + vm_compute. discriminate.
    + vm_compute. discriminate.
    + vm_compute. discriminate.
    + vm_compute. discriminate.
    + vm_compute. discriminate.
    + vm_compute. discriminate.
    + exists s'. split; [exact He|]. split.
      * rewrite Ho. vm_compute. reflexivity.
      * etransitivity; [exact Hb|]. vm_compute. reflexivity.
Defined.

(** X7.  A protected order whose tolerance is above 100 percent can never
    be executed: the lower bound [100 − tolerance] underflows, so
    [executeOrder] fails at every price, with the arithmetic panic once
    the earlier checks have passed. *)
Theorem executeOrder_tolerance_above_100 (e : Env) (h : bytes32) (p : uint256) (s : State) :
  pp_enabled (priceProtection (orderOf s h)) = true →
  100 < effectiveTolerance s (orderOf s h) →
  ∃ err, executeOrder e h p s = Err err ∧
    (guardEntered s = false → user (orderOf s h) ≠ 0 →
     expiry (orderOf s h) > block_timestamp e →
     isCompleted (execution (orderOf s h)) = false →
     err = Panic).
Proof.
  intros Hen Htol.
  destruct (guardEntered s) eqn:Hg.
  { rewrite executeOrder_reentrant by done. eexists. split; [done|]. done. }
  rewrite executeOrder_unfold by done. unfold orderExists.
  destruct (user (orderOf s h) =? 0) eqn:E0.
  { eexists. split; [done|]. lia. }
  rewrite require_true, bind_Ok, executeOrderBody_phases.
  change (orderOf (setGuard s true) h) with (orderOf s h).
  rewrite checkPriceProtection_setGuard.
  destruct (expiry (orderOf s h) >? block_timestamp e) eqn:E1.
  2: { eexists. split; [done|]. lia. }
  destruct (isCompleted (execution (orderOf s h))) eqn:E2.
  { eexists. split; [done|]. done. }
  rewrite !require_true, !bind_Ok. rewrite Hen.
  rewrite checkPriceProtection_eq, sub_Err by done.
  eexists. split; [done|]. done.
Qed.

Lemma executeOrder_tolerance_above_100_witness :
  user (orderOf BalanceScenarios.stWide (getOrderHash BalanceScenarios.wideOrder))
    = LedgerScenarios.alice ∧
  ∃ err, executeOrder LedgerScenarios.asTaker (getOrderHash BalanceScenarios.wideOrder) 13
           BalanceScenarios.stWide = Err err.
Proof.
  split; [vm_compute; reflexivity|].
  destruct (executeOrder_tolerance_above_100 LedgerScenarios.asTaker
              (getOrderHash BalanceScenarios.wideOrder) 13 BalanceScenarios.stWide)
    as (err & H & _).
  - vm_compute. reflexivity.
  - vm_compute. reflexivity.
  - exists err. exact H.
Defined.

(** *** Every successful execution closes the order *)

Lemma withAmount_id o : withAmount o (amount o) = o.
Proof. by destruct o. Qed.

Lemma adjustOrderAmount_inv e s h newAmount s' :
  _adjustOrderAmount e s h newAmount = Ok s' →
  0 < newAmount < amount (orderOf s h) ∧
  amount (orderOf s h) - newAmount ≤ balanceOf s (makerAsset (orderOf s h)) (this e).
Proof.
  unfold _adjustOrderAmount. cbv zeta.
  destruct (newAmount >? 0) eqn:E1; [|done].
  destruct (newAmount <? amount (orderOf s h)) eqn:E2; [|done].
  rewrite !require_true, !bind_Ok.
  destruct (sub _ _) as [x|] eqn:Hsub; [|done]. rewrite bind_Ok.
  apply sub_inv in Hsub as [_ ->]. unfold safeTransfer.
  destruct (moveTokens _ _ _ _ _) as [s1|] eqn:Hm; [|done]. intros _.
  apply moveTokens_inv in Hm as [Hm _]. lia.
Qed.

(** What the balance check leaves: a cancelled order, or the order with an
    amount that is positive only if adjusted and never larger than before;
    no other order is touched. *)
Lemma balanceStep_inv e h s out :
  balanceStep e h s = Ok out →
  match out with
  | Cancelled sc =>
      orderOf sc h =
        withExecution (orderOf s h)
          (mkExecutionInfo (attempts (execution (orderOf s h)))
             (lastAttempt (execution (orderOf s h)))
             "Insufficient balance - auto cancelled"
             (totalFilled (execution (orderOf s h))) true) ∧
      (∀ h', h' ≠ h → orderOf sc h' = orderOf s h') ∧
      guardEntered sc = guardEntered s
  | Proceed s0 =>
      ∃ a, orderOf s0 h = withAmount (orderOf s h) a ∧ a ≤ amount (orderOf s h) ∧
           (∀ h', h' ≠ h → orderOf s0 h' = orderOf s h') ∧
           guardEntered s0 = guardEntered s
  end.
Proof.
  assert (∃ a, orderOf s h = withAmount (orderOf s h) a ∧ a ≤ amount (orderOf s h) ∧
               (∀ h', h' ≠ h → orderOf s h' = orderOf s h') ∧
               guardEntered s = guardEntered s) as Hsame.
  { exists (amount (orderOf s h)). by rewrite withAmount_id. }
  unfold balanceStep. cbv zeta.
  destruct (bc_enabled (balanceCheck (orderOf s h))); [|by intros [= <-]].
  destruct (_ <? _); [|by intros [= <-]].
  destruct (bc_autoCancel (balanceCheck (orderOf s h))).
  - destruct (_cancelOrder e s h _) as [sc|] eqn:Hc; [|done]. rewrite bind_Ok.
    intros [= <-].
    destruct (cancelOrder_internal_inv _ _ _ _ _ Hc) as [Hfilled Hbal].
    destruct (cancelOrder_internal e s h "Insufficient balance - auto cancelled" Hfilled Hbal)
      as (s1 & Hc' & Ho & Hothers & _ & _ & _ & _ & _ & Hg & _).
    rewrite Hc in Hc'. injection Hc' as <-. done.
  - destruct (bc_autoAdjust (balanceCheck (orderOf s h))); [|by intros [= <-]].
    destruct (_adjustOrderAmount e s h _) as [sa|] eqn:Ha; [|done]. rewrite bind_Ok.
    intros [= <-].
    destruct (adjustOrderAmount_inv _ _ _ _ _ Ha) as [Hnew Hbal].
    destruct (adjustOrderAmount_spec e s h _ Hnew Hbal)
      as (s1 & Ha' & Ho & Hothers & _ & _ & Hg & _).
    rewrite Ha in Ha'. injection Ha' as <-.
    eexists. split; [exact Ho|]. split; [lia|]. done.
Qed.

Lemma settle_inv e h s0 s' :
  settle e h s0 = Ok s' →
  orderOf s' h =
    withExecution (orderOf s0 h)
      (mkExecutionInfo (attempts (execution (orderOf s0 h)) + 1) (block_timestamp e)
         (failureReason (execution (orderOf s0 h))) (amount (orderOf s0 h)) true) ∧
  (∀ h', h' ≠ h → orderOf s' h' = orderOf s0 h') ∧
  guardEntered s' = guardEntered s0.
Proof.
  unfold settle. cbv zeta.
  destruct (mul _ _) as [prod|]; [|done]. rewrite bind_Ok.
  destruct (div _ _) as [ta|]; [|done]. rewrite bind_Ok.
  unfold safeTransferFrom, safeTransfer.
  destruct (moveTokens s0 _ _ _ _) as [s1|] eqn:Hm1; [|done]. rewrite bind_Ok.
  destruct (moveTokens s1 _ _ _ _) as [s2|] eqn:Hm2; [|done]. rewrite bind_Ok.
  apply moveTokens_inv in Hm1 as (_ & Ho1 & _ & _ & _ & _ & _ & Hg1 & _).
  apply moveTokens_inv in Hm2 as (_ & Ho2 & _ & _ & _ & _ & _ & Hg2 & _).
  assert (orderOf s2 h = orderOf s0 h) as Hoh.
  { apply orderOf_same_orders. by rewrite Ho2. }
  rewrite Hoh.
  destruct (add (attempts _) 1) as [n|] eqn:Hn; [|done]. rewrite bind_Ok.
  apply add_inv in Hn as ->.
  destruct (add (totalOrdersFilled _) 1) as [f|]; [|done]. rewrite bind_Ok.
  intros [= <-].
  split. { rewrite orderOf_removeFromActive.
           change (orderOf (setFilled ?st _) h) with (orderOf st h).
           by rewrite orderOf_setOrder. }
  split. { intros h' Hne. rewrite orderOf_removeFromActive.
           change (orderOf (setFilled ?st _) h') with (orderOf st h').
           rewrite orderOf_setOrder_ne by done.
           apply orderOf_same_orders. by rewrite Ho2. }
  rewrite (proj2 (proj2 (proj2 (proj2 (proj2 (proj2 (removeFromActive_frame _ h))))))).
  simpl. by rewrite Hg2.
Qed.

(** X14.  There are no partial fills.  Whenever [executeOrder] returns, the order existed, had not expired
    and was open before, and is completed after: either filled whole
    ([totalFilled = amount], for an amount no larger than before) or
    cancelled by the balance check with its amount unchanged.  No other
    order is changed, and the guard is released. *)
Theorem executeOrder_closes_the_order (e : Env) (h : bytes32) (p : uint256) (s s' : State) :
  executeOrder e h p s = Ok s' →
  (guardEntered s = false ∧ user (orderOf s h) ≠ 0 ∧
   expiry (orderOf s h) > block_timestamp e ∧
   isCompleted (execution (orderOf s h)) = false) ∧
  isCompleted (execution (orderOf s' h)) = true ∧
  amount (orderOf s' h) ≤ amount (orderOf s h) ∧
  (totalFilled (execution (orderOf s' h)) = amount (orderOf s' h) ∨
   (failureReason (execution (orderOf s' h)) = "Insufficient balance - auto cancelled" ∧
    amount (orderOf s' h) = amount (orderOf s h) ∧
    attempts (execution (orderOf s' h)) = attempts (execution (orderOf s h)))) ∧
  (∀ h', h' ≠ h → orderOf s' h' = orderOf s h') ∧
  guardEntered s' = false.
Proof.
  intros H.
  destruct (guardEntered s) eqn:Hg.
  { by rewrite executeOrder_reentrant in H. }
  rewrite executeOrder_unfold in H by done. unfold orderExists in H.
  destruct (user (orderOf s h) =? 0) eqn:E0; [done|].
  rewrite require_true, bind_Ok, executeOrderBody_phases in H.
  change (orderOf (setGuard s true) h) with (orderOf s h) in H.
  destruct (expiry (orderOf s h) >? block_timestamp e) eqn:E1; [|done].
  destruct (isCompleted (execution (orderOf s h))) eqn:E2; [done|].
  rewrite !require_true, !bind_Ok in H.
  destruct (if pp_enabled (priceProtection (orderOf s h)) then _ else _) as [[]|]; [|done].
  rewrite bind_Ok in H.
  destruct (balanceStep e h (setGuard s true)) as [out|] eqn:Hbs; [|done].
  rewrite bind_Ok in H. apply balanceStep_inv in Hbs.
  change (orderOf (setGuard s true)) with (orderOf s) in Hbs.
  split. { split; [done|]. split; [lia|]. split; [lia|done]. }
  destruct out as [sc|s0].
  - rewrite bind_Ok in H. injection H as <-.
    change (orderOf (setGuard sc false)) with (orderOf sc).
    destruct Hbs as (Ho & Hothers & _). rewrite Ho. cbn.
    split; [done|]. split; [lia|]. split; [by right|]. split; [exact Hothers|done].
  - destruct (settle e h s0) as [s1|] eqn:Hs; [|done]. rewrite bind_Ok in H.
    injection H as <-.
    change (orderOf (setGuard s1 false)) with (orderOf s1).
    destruct Hbs as (a & Ho & Ha & Hothers & _).
    apply settle_inv in Hs as (Ho1 & Hothers1 & _).
    rewrite Ho1, Ho. cbn.
    split; [done|]. split; [exact Ha|]. split; [by left|].
    split; [|done]. intros h' Hne. rewrite Hothers1 by done. by apply Hothers.
Qed.

Lemma executeOrder_closes_the_order_witness :
  isCompleted (execution (orderOf LedgerScenarios.stExecuted
                            (getOrderHash LedgerScenarios.aliceOrder))) = true.
Proof.
  destruct (executeOrder_closes_the_order LedgerScenarios.asTaker
              (getOrderHash LedgerScenarios.aliceOrder) (2 * 10 ^ 18)
              LedgerScenarios.stAliceBob LedgerScenarios.stExecuted) as (_ & H & _).
  - vm_compute. reflexivity.
  - exact H.
Defined.

End LedgerOperations.

(** ** Creation and the priority key *)

Section LedgerCreation.
Import TransparentOrderProtocol LedgerSpec ExecutionPhases.

(** When the priority computation returns, it returns the priority of the
    formula, and none of its steps left the unsigned range. *)
Lemma calculateQueuePosition_inv e gas ts amt q :
  calculateQueuePosition e gas ts amt = Ok q →
  ts ≤ block_timestamp e ∧
  gas * 100 + amt / 1000 ≤ MAX_UINT256 ∧
  (block_timestamp e - ts) / 60 ≤ gas * 100 + amt / 1000 ∧
  q = specPriority (block_timestamp e) gas ts amt.
Proof.
  unfold calculateQueuePosition, GAS_PRIORITY_MULTIPLIER.
  destruct (mul gas 100) as [gw|] eqn:H1; [|done]. rewrite bind_Ok.
  apply mul_inv in H1 as ->.
  destruct (div amt 1000) as [aw|] eqn:H2; [|done]. rewrite bind_Ok.
  apply div_inv in H2 as ->.
  destruct (sub (block_timestamp e) ts) as [el|] eqn:H3; [|done]. rewrite bind_Ok.
  apply sub_inv in H3 as [Hts ->].
  destruct (div (block_timestamp e - ts) 60) as [tp|] eqn:H4; [|done]. rewrite bind_Ok.
  apply div_inv in H4 as ->.
  destruct (add (gas * 100) (amt / 1000)) as [tot|] eqn:H5; [|done]. rewrite bind_Ok.
  unfold add in H5. destruct (_ <=? MAX_UINT256) eqn:E5; [|done]. injection H5 as <-.
  intros H6. apply sub_inv in H6 as [Hpen ->].
  split; [done|]. split; [lia|]. split; [done|]. done.
Qed.

(** X8.  The priority key is monotone in each of its inputs: of two
    orders for which the computation returns, the one with the higher gas
    bid, the larger amount or the later creation time (the other inputs
    being equal or ordered the same way) never gets the lower key. *)
Theorem calculateQueuePosition_monotone (e : Env)
    (gas gas' ts ts' amt amt' q q' : uint256) :
  calculateQueuePosition e gas ts amt = Ok q →
  calculateQueuePosition e gas' ts' amt' = Ok q' →
  gas ≤ gas' → ts ≤ ts' → amt ≤ amt' →
  q ≤ q'.
Proof.
  intros H1 H2 Hg Hts Ha.
  apply calculateQueuePosition_inv in H1 as (_ & _ & _ & ->).
  apply calculateQueuePosition_inv in H2 as (_ & _ & _ & ->).
  unfold specPriority.
  assert (amt / 1000 ≤ amt' / 1000) by (apply Z.div_le_mono; lia).
  assert ((block_timestamp e - ts') / 60 ≤ (block_timestamp e - ts) / 60)
    by (apply Z.div_le_mono; lia).
  lia.
Qed.

Lemma calculateQueuePosition_monotone_witness :
  specPriority 1000 20 1000 5000 ≤ specPriority 1000 50 1000 5000.
Proof.
  pose proof (calculateQueuePosition_monotone LedgerScenarios.asAlice
                20 50 1000 1000 5000 5000
                (specPriority 1000 20 1000 5000) (specPriority 1000 50 1000 5000)) as H.
  apply H.
  - vm_compute. reflexivity.
  - vm_compute. reflexivity.
  - lia.
  - lia.
  - lia.
Defined.

(** X9.  On the same integers the contract and the demo compute the same
    priority: whenever the contract's computation returns for a
    non-negative amount, the demo's [calculateQueuePosition], given the
    block time as its clock, yields the same number.  (The demo passes
    milliseconds where the contract has seconds, which is where the two
    part.) *)
Theorem calculateQueuePosition_agrees_with_demo (e : Env) (gas ts amt q : uint256) :
  calculateQueuePosition e gas ts amt = Ok q →
  0 ≤ amt →
  TransparentOrderDemo.calculateQueuePosition (block_timestamp e) gas ts amt = q.
Proof.
  intros H Ha. apply calculateQueuePosition_inv in H as (Hts & _ & _ & ->).
  unfold TransparentOrderDemo.calculateQueuePosition, specPriority.
  rewrite !Z.quot_div_nonneg by lia. done.
Qed.

Lemma calculateQueuePosition_agrees_with_demo_witness :
  TransparentOrderDemo.calculateQueuePosition 1000 50 940 5000 = 5004.
Proof.
  apply (calculateQueuePosition_agrees_with_demo LedgerScenarios.asAlice 50 940 5000 5004).
  - vm_compute. reflexivity.
  - lia.
Defined.

(** *** What a successful [createOrder] implies *)

Lemma createOrder_Ok_inv e o s s' h :
  createOrder e o s = Ok (s', h) →
  guardEntered s = false ∧ h = getOrderHash o ∧ validSpec e o ∧
  user (orderOf s h) = 0 ∧
  timestamp o ≤ block_timestamp e ∧
  amount o ≤ balanceOf s (makerAsset o) (msg_sender e) ∧
  ∃ s1,
    moveTokens s (makerAsset o) (msg_sender e) (this e) (amount o) = Ok s1 ∧
    orders s' =
      <[h := withQueue o (specPriority (block_timestamp e) (gasPrice o) (timestamp o) (amount o))
               (block_timestamp e)]> (orders s) ∧
    userOrders s' =
      <[msg_sender e := default [] (userOrders s !! msg_sender e) ++ [h]]> (userOrders s) ∧
    activeOrderHashes s' = activeOrderHashes s ++ [h] ∧
    totalOrdersCreated s' = totalOrdersCreated s + 1 ∧
    totalOrdersFilled s' = totalOrdersFilled s ∧
    globalTolerancePercent s' = globalTolerancePercent s ∧
    guardEntered s' = false ∧
    balances s' = balances s1.
Proof.
  intros H. unfold createOrder, nonReentrant in H.
  destruct (guardEntered s) eqn:Hg; [done|]. cbv beta zeta in H.
  change (orderOf (setGuard s true)) with (orderOf s) in H.
  change (balanceOf (setGuard s true)) with (balanceOf s) in H.
  destruct (user o =? msg_sender e) eqn:E1; [|done].
  destruct (amount o >? 0) eqn:E2; [|done].
  destruct (targetPrice o >? 0) eqn:E3; [|done].
  destruct (expiry o >? block_timestamp e) eqn:E4; [|done].
  destruct (makerAsset o =? takerAsset o) eqn:E5; [done|].
  simpl negb in H. rewrite !require_true, !bind_Ok in H.
  assert (sourceChain o ≠ targetChain o → wt_wrappedToken (wrappedToken o) ≠ 0) as Hwrap.
  { intros Hne. destruct (sourceChain o =? targetChain o) eqn:E6; [lia|].
    simpl negb in H. cbv iota in H.
    destruct (wt_wrappedToken (wrappedToken o) =? 0) eqn:E7; [done|lia]. }
  assert ((if negb (sourceChain o =? targetChain o)
           then require (negb (wt_wrappedToken (wrappedToken o) =? 0)) "Wrapped token required"
           else Ok tt) = Ok tt) as Hw.
  { destruct (sourceChain o =? targetChain o) eqn:E6; [done|]. simpl.
    destruct (wt_wrappedToken (wrappedToken o) =? 0) eqn:E7; [|done].
    exfalso. apply Hwrap; lia. }
  rewrite Hw, bind_Ok in H. clear Hw.
  destruct (user (orderOf s (getOrderHash o)) =? 0) eqn:E8; [|done].
  rewrite require_true, bind_Ok in H.
  destruct (if bc_enabled (balanceCheck o) then _ else _) as [[]|]; [|done].
  rewrite bind_Ok in H. unfold safeTransferFrom in H.
  destruct (moveTokens (setGuard s true) _ _ _ _) as [s1|] eqn:Hm; [|done].
  rewrite bind_Ok in H.
  destruct (calculateQueuePosition _ _ _ _) as [q|] eqn:Hq; [|done].
  rewrite bind_Ok in H.
  apply calculateQueuePosition_inv in Hq as (Hts & _ & _ & ->).
  destruct (add _ 1) as [c|] eqn:Hadd; [|done]. rewrite !bind_Ok in H.
  apply add_inv in Hadd as ->.
  injection H as <- <-.
  pose proof (moveTokens_inv _ _ _ _ _ _ Hm)
    as (Hbal & Ho & Hu & Ha & Hc & Hf & Hgt & _ & _).
  split; [done|]. split; [done|].
  split. { unfold validSpec. repeat split; try lia; try done. }
  split; [lia|]. split; [done|]. split; [exact Hbal|].
  exists (setGuard s1 false).
  split.
  { unfold moveTokens in Hm |- *.
    change (balanceOf (setGuard s true)) with (balanceOf s) in Hm.
    destruct (balanceOf s (makerAsset o) (msg_sender e) <? amount o); [done|].
    injection Hm as <-. unfold setGuard, setBalances. simpl. by rewrite Hg. }
  simpl. rewrite Ho, Hu, Ha, Hc, Hf, Hgt. done.
Qed.

(** The same, through the views of the contract. *)
Lemma createOrder_effects e o s s' h :
  createOrder e o s = Ok (s', h) →
  (guardEntered s = false ∧ h = getOrderHash o ∧ validSpec e o ∧
   user (orderOf s h) = 0 ∧ timestamp o ≤ block_timestamp e ∧
   amount o ≤ balanceOf s (makerAsset o) (msg_sender e)) ∧
  getOrder s' h =
    withQueue o (specPriority (block_timestamp e) (gasPrice o) (timestamp o) (amount o))
      (block_timestamp e) ∧
  (∀ h', h' ≠ h → getOrder s' h' = getOrder s h') ∧
  getUserOrders s' (msg_sender e) = getUserOrders s (msg_sender e) ++ [h] ∧
  (∀ u, u ≠ msg_sender e → getUserOrders s' u = getUserOrders s u) ∧
  getActiveOrders s' = getActiveOrders s ++ [h] ∧
  totalOrdersCreated s' = totalOrdersCreated s + 1 ∧
  totalOrdersFilled s' = totalOrdersFilled s ∧
  guardEntered s' = false ∧
  (∀ t x, (t, x) ≠ (makerAsset o, msg_sender e) → (t, x) ≠ (makerAsset o, this e) →
     balanceOf s' t x = balanceOf s t x) ∧
  (msg_sender e ≠ this e →
     balanceOf s' (makerAsset o) (this e) = balanceOf s (makerAsset o) (this e) + amount o ∧
     balanceOf s' (makerAsset o) (msg_sender e)
       = balanceOf s (makerAsset o) (msg_sender e) - amount o).
Proof.
  intros H. apply createOrder_Ok_inv in H
    as (Hg & Hh & Hv & Hfree & Hts & Hbal & s1 & Hm & Ho & Hu & Ha & Hc & Hf & _ & Hg' & Hb).
  apply moveTokens_inv in Hm as (_ & _ & _ & _ & _ & _ & _ & _ & Hframe & Hmoved).
  split; [done|]. unfold getOrder, getUserOrders, getActiveOrders.
  split. { unfold orderOf. by rewrite Ho, lookup_insert_eq. }
  split. { intros h' Hne. unfold orderOf. by rewrite Ho, lookup_insert_ne. }
  split. { by rewrite Hu, lookup_insert_eq. }
  split. { intros u Hne. by rewrite Hu, lookup_insert_ne. }
  split; [done|]. split; [done|]. split; [done|]. split; [done|].
  split.
  - intros t x H1 H2. rewrite (balanceOf_same_balances s1 s') by done. by apply Hframe.
  - intros Hne. rewrite !(balanceOf_same_balances s1 s') by done. by apply Hmoved.
Qed.

(** X10.  [createOrder] succeeds only for a well-formed order: when it
    returns, the call was not re-entrant, the returned identifier is the
    hash of the submitted fields and was free, the fields satisfy every
    requirement of the function, the creation time is not in the future,
    and the caller held the amount.  Its effect is then exactly: the
    amount moves from the caller to the contract, the order is stored
    under the identifier with the computed priority and the block time,
    the identifier is appended to the caller's list and to the active
    array, the creation counter grows by one, and every other order and
    balance is untouched. *)
Theorem createOrder_postcondition (e : Env) (o : PublicOrder) (s s' : State) (h : bytes32) :
  createOrder e o s = Ok (s', h) →
  (guardEntered s = false ∧ h = getOrderHash o ∧ validSpec e o ∧
   user (orderOf s h) = 0 ∧ timestamp o ≤ block_timestamp e ∧
   amount o ≤ balanceOf s (makerAsset o) (msg_sender e)) ∧
  getOrder s' h =
    withQueue o (specPriority (block_timestamp e) (gasPrice o) (timestamp o) (amount o))
      (block_timestamp e) ∧
  (∀ h', h' ≠ h → getOrder s' h' = getOrder s h') ∧
  getUserOrders s' (msg_sender e) = getUserOrders s (msg_sender e) ++ [h] ∧
  (∀ u, u ≠ msg_sender e → getUserOrders s' u = getUserOrders s u) ∧
  getActiveOrders s' = getActiveOrders s ++ [h] ∧
  totalOrdersCreated s' = totalOrdersCreated s + 1 ∧
  totalOrdersFilled s' = totalOrdersFilled s ∧
  guardEntered s' = false ∧
  (∀ t x, (t, x) ≠ (makerAsset o, msg_sender e) → (t, x) ≠ (makerAsset o, this e) →
     balanceOf s' t x = balanceOf s t x) ∧
  (msg_sender e ≠ this e →
     balanceOf s' (makerAsset o) (this e) = balanceOf s (makerAsset o) (this e) + amount o ∧
     balanceOf s' (makerAsset o) (msg_sender e)
       = balanceOf s (makerAsset o) (msg_sender e) - amount o).
Proof. exact (createOrder_effects e o s s' h). Qed.

Lemma createOrder_postcondition_witness :
  getActiveOrders LedgerScenarios.stAlice = [getOrderHash LedgerScenarios.aliceOrder].
Proof.
  destruct (createOrder_postcondition LedgerScenarios.asAlice LedgerScenarios.aliceOrder
              LedgerScenarios.genesis LedgerScenarios.stAlice
              (getOrderHash LedgerScenarios.aliceOrder))
    as (_ & _ & _ & _ & _ & H & _).
  - vm_compute. reflexivity.
  - exact H.
Defined.

(** The array after an append and the removal of the appended entry. *)
Lemma indexOf_app_fresh h l k :
  h ∉ l → indexOf h (l ++ [h]) k = Some (k + length l)%nat.
Proof.
  revert k. induction l as [|x l IH]; intros k Hnot; simpl.
  - rewrite Z.eqb_refl. f_equal. lia.
  - apply not_elem_of_cons in Hnot as [Hne Hnot].
    destruct (x =? h) eqn:E; [lia|]. rewrite IH by done. f_equal. lia.
Qed.

(** X11.  Creating an order and cancelling it is a round trip.  After a
    successful [createOrder] of an order submitted with nothing filled,
    its creator can cancel it at once, and every token balance is then
    what it was before the order was created; if the identifier was not in
    the active array before, that array is restored as well.  The order
    itself stays on record, completed, so the identifier cannot be used
    again. *)
Theorem createOrder_cancelOrder_round_trip
    (e e' : Env) (o : PublicOrder) (s s' : State) (h : bytes32) :
  createOrder e o s = Ok (s', h) →
  msg_sender e' = msg_sender e → this e' = this e →
  msg_sender e ≠ 0 → msg_sender e ≠ this e →
  totalFilled (execution o) = 0 →
  0 ≤ balanceOf s (makerAsset o) (this e) →
  ∃ s'', cancelOrder e' h s' = Ok s'' ∧
    (∀ t x, balanceOf s'' t x = balanceOf s t x) ∧
    (h ∉ activeOrderHashes s → activeOrderHashes s'' = activeOrderHashes s) ∧
    isCompleted (execution (orderOf s'' h)) = true ∧
    user (orderOf s'' h) = msg_sender e.
Proof.
  intros H Hs Hthis Hs0 Hne Hfresh Hheld.
  apply createOrder_effects in H
    as ((_ & _ & Hv & _ & _ & Hbal) & Ho & _ & _ & _ & Ha & _ & _ & _ & Hframe & Hmoved).
  unfold getOrder, getActiveOrders in *.
  destruct (Hmoved Hne) as [Hb1 Hb2].
  destruct Hv as (Hu & Hamt & _).
  destruct (cancelOrder_spec e' h s')
    as (s'' & Hc & Hc1 & Hc2 & Hcframe & Hco & _ & Hcact & _).
  { rewrite Ho. simpl. lia. }
  { rewrite Ho. simpl. lia. }
  { rewrite Ho. simpl. lia. }
  { rewrite Ho. simpl. lia. }
  { rewrite Ho. simpl. rewrite Hthis, Hb1. lia. }
  rewrite Ho in Hc1, Hc2, Hcframe, Hco.
  cbn [withQueue user amount makerAsset execution] in Hc1, Hc2, Hcframe, Hco.
  rewrite Hthis in Hc2, Hcframe. rewrite Hu in Hc1, Hcframe.
  exists s''. split; [exact Hc|]. split.
  - intros t x.
    destruct (decide ((t, x) = (makerAsset o, this e))) as [[= -> ->]|H1].
    { rewrite Hc2, Hb1. lia. }
    destruct (decide ((t, x) = (makerAsset o, msg_sender e))) as [[= -> ->]|H2].
    { rewrite Hc1, Hb2. lia. }
    rewrite Hcframe by done. by apply Hframe.
  - split.
    + intros Hnot. rewrite Hcact, removeFromActive_array, Ha.
      rewrite indexOf_app_fresh by done. simpl.
      rewrite last_snoc. simpl.
      rewrite insert_app_r_alt, Nat.sub_diag by done. simpl.
      rewrite length_app. simpl. rewrite Nat.add_sub.
      by rewrite take_app_length.
    + rewrite Hco. simpl. split; [done|exact Hu].
Qed.

Lemma createOrder_cancelOrder_round_trip_witness :
  ∃ s'', cancelOrder LedgerScenarios.asAlice (getOrderHash LedgerScenarios.aliceOrder)
           LedgerScenarios.stAlice = Ok s'' ∧
         balanceOf s'' LedgerScenarios.TOKEN_A LedgerScenarios.alice = 10 ^ 20.
Proof.
  destruct (createOrder_cancelOrder_round_trip LedgerScenarios.asAlice LedgerScenarios.asAlice
              LedgerScenarios.aliceOrder LedgerScenarios.genesis LedgerScenarios.stAlice
              (getOrderHash LedgerScenarios.aliceOrder))
    as (s'' & Hc & Hb & _).
  - vm_compute. reflexivity.
  - reflexivity.
  - reflexivity.
  - vm_compute. discriminate.
  - vm_compute. discriminate.
  - vm_compute. reflexivity.
  - vm_compute. discriminate.
  - exists s''. split; [exact Hc|]. etransitivity; [apply Hb|]. vm_compute. reflexivity.
Defined.

(** X12.  The identifier of an order is the hash of the fields as
    submitted, but the order is stored with its creation time replaced by
    the block time: the hash of the stored order, as [getOrder] returns
    it, is the identifier exactly when the order was submitted with the
    block time as its creation time. *)
Theorem createOrder_stored_hash (e : Env) (o : PublicOrder) (s s' : State) (h : bytes32) :
  createOrder e o s = Ok (s', h) →
  (getOrderHash (getOrder s' h) = h ↔ timestamp o = block_timestamp e).
Proof.
  intros H. apply createOrder_effects in H as ((_ & -> & _) & Ho & _).
  rewrite Ho. split.
  - intros Heq. apply getOrderHash_inj in Heq as (_ & _ & _ & _ & Hts & _). simpl in Hts.
    done.
  - intros Hts. unfold getOrderHash. simpl. by rewrite Hts.
Qed.

Lemma createOrder_stored_hash_witness :
  getOrderHash (getOrder LedgerScenarios.stAlice (getOrderHash LedgerScenarios.aliceOrder))
    = getOrderHash LedgerScenarios.aliceOrder.
Proof.
  apply (createOrder_stored_hash LedgerScenarios.asAlice LedgerScenarios.aliceOrder
           LedgerScenarios.genesis LedgerScenarios.stAlice).
  - vm_compute. reflexivity.
  - vm_compute. reflexivity.
Defined.

(** X13.  [createOrder] stores the execution record as the caller
    submitted it.  An order created from a submission marked as completed
    cannot be executed, and one created from a submission with more filled
    than its amount cannot be cancelled by its creator: the refund
    [amount − totalFilled] underflows. *)
Theorem createOrder_keeps_execution_record
    (e : Env) (o : PublicOrder) (s s' : State) (h : bytes32) :
  createOrder e o s = Ok (s', h) →
  execution (getOrder s' h) = execution o ∧
  (isCompleted (execution o) = true →
   ∀ e' p, ∃ err, executeOrder e' h p s' = Err err) ∧
  (amount o < totalFilled (execution o) → msg_sender e ≠ 0 →
   ∀ e', msg_sender e' = msg_sender e → cancelOrder e' h s' = Err Panic).
Proof.
  intros H. apply createOrder_effects in H
    as ((_ & _ & Hv & _) & Ho & _ & _ & _ & _ & _ & _ & _ & _ & Hmoved).
  unfold getOrder in *. destruct Hv as (Hu & _).
  split. { by rewrite Ho. }
  split.
  - intros Hc e' p.
    destruct (executeOrder_completed e' h p s') as (err & Herr & _).
    { by rewrite Ho. }
    by exists err.
  - intros Hf Hs0 e' Hs. unfold cancelOrder, orderExists, onlyOrderCreator.
    rewrite Ho. cbn [withQueue user].
    destruct (user o =? 0) eqn:E1; [lia|].
    destruct (user o =? msg_sender e') eqn:E2; [|lia].
    rewrite !require_true, !bind_Ok. unfold _cancelOrder. cbv zeta.
    rewrite Ho. cbn [withQueue amount execution].
    by rewrite sub_Err.
Qed.

Lemma createOrder_keeps_execution_record_witness :
  execution (getOrder LedgerScenarios.stAlice (getOrderHash LedgerScenarios.aliceOrder))
    = execution LedgerScenarios.aliceOrder.
Proof.
  destruct (createOrder_keeps_execution_record LedgerScenarios.asAlice
              LedgerScenarios.aliceOrder LedgerScenarios.genesis LedgerScenarios.stAlice
              (getOrderHash LedgerScenarios.aliceOrder)) as (H & _).
  - vm_compute. reflexivity.
  - exact H.
Defined.

End LedgerCreation.

(** ** The ledger against the demo and the service *)

Section DemoAndService.
Import TransparentOrderProtocol LedgerSpec ExecutionPhases.

(** X15.  The ledger's global tolerance.  [setGlobalTolerance] accepts
    exactly the values from 1 to 50 and rejects every other with "Invalid
    tolerance range"; it changes nothing else, and from then on the price
    check of every order that carries no tolerance of its own uses the new
    value and cannot revert (for a market price whose upper bound fits a
    word). *)
Theorem setGlobalTolerance_range (s : State) (t : uint256) :
  (1 ≤ t ≤ 50 →
   ∃ s', setGlobalTolerance s t = Ok s' ∧
     globalTolerancePercent s' = t ∧
     (∀ h, orderOf s' h = orderOf s h) ∧
     (∀ token x, balanceOf s' token x = balanceOf s token x) ∧
     activeOrderHashes s' = activeOrderHashes s ∧
     ∀ o p, pp_tolerance (priceProtection o) ≤ 0 → 0 ≤ p → p * 150 ≤ MAX_UINT256 →
       checkPriceProtection s' o p =
         Ok ((p * (100 - t) / 100 <=? targetPrice o) &&
             (targetPrice o <=? p * (100 + t) / 100))) ∧
  (¬ (1 ≤ t ≤ 50) → setGlobalTolerance s t = Err (Revert "Invalid tolerance range")).
Proof.
  unfold setGlobalTolerance, MIN_TOLERANCE, MAX_TOLERANCE. split.
  - intros Ht.
    assert ((1 <=? t) && (t <=? 50) = true) as ->.
    { apply andb_true_intro. split; lia. }
    rewrite require_true, bind_Ok. eexists. split; [done|].
    split; [done|]. split; [done|]. split; [done|]. split; [done|].
    intros o p Hown Hp Hfit.
    set (s' := mkState _ _ _ _ _ _ _ _).
    assert (effectiveTolerance s' o = t) as Heff.
    { unfold effectiveTolerance. destruct (_ >? 0) eqn:E; [lia|done]. }
    rewrite (checkPriceProtection_computes s' o p);
      [by rewrite Heff|done|rewrite Heff; lia|rewrite Heff; nia].
  - intros Ht.
    assert ((1 <=? t) && (t <=? 50) = false) as ->.
    { apply andb_false_iff. lia. }
    done.
Qed.

(** X16.  The price check of the demo is the price check of the contract:
    for a non-negative market price and a tolerance of at most 100 percent
    (and as long as the upper bound fits a word), the contract's
    [checkPriceProtection] returns what the demo's helper computes from
    the order's target price, the market price and the tolerance in
    force. *)
Theorem checkPriceProtection_agrees_with_demo (s : State) (o : PublicOrder) (p : uint256) :
  0 ≤ p → 0 ≤ effectiveTolerance s o ≤ 100 →
  p * (100 + effectiveTolerance s o) ≤ MAX_UINT256 →
  checkPriceProtection s o p =
    Ok (TransparentOrderDemo.checkPriceProtection (targetPrice o) p (effectiveTolerance s o)).
Proof.
  intros Hp Htol Hhi. rewrite checkPriceProtection_computes by done.
  unfold TransparentOrderDemo.checkPriceProtection.
  rewrite !Z.quot_div_nonneg by nia. done.
Qed.

Lemma checkPriceProtection_agrees_with_demo_witness :
  checkPriceProtection LedgerScenarios.stProtected LedgerScenarios.aliceProtected 14
    = Ok (TransparentOrderDemo.checkPriceProtection 13 14 10).
Proof.
  apply (checkPriceProtection_agrees_with_demo LedgerScenarios.stProtected
           LedgerScenarios.aliceProtected 14).
  - lia.
  - vm_compute. split; discriminate.
  - vm_compute. discriminate.
Defined.

(** X17.  The demo's balance policy is not the contract's.  On an
    insufficient maker balance the demo's [determineBalanceAction] prefers
    the adjustment while the contract's balance check prefers the
    cancellation, and where the demo holds the order back the contract
    lets the execution go on with the full amount.  The two agree when
    the balance suffices, and when exactly one reaction is set and,
    for the adjustment, the balance is positive. *)
Theorem determineBalanceAction_vs_contract (e : Env) (h : bytes32) (s : State) :
  let o := orderOf s h in
  let b := balanceOf s (makerAsset o) (user o) in
  let action :=
    TransparentOrderDemo.determineBalanceAction b (amount o)
      (bc_autoAdjust (balanceCheck o)) (bc_autoCancel (balanceCheck o)) in
  bc_enabled (balanceCheck o) = true →
  (amount o ≤ b → action = "PROCEED" ∧ balanceStep e h s = Ok (Proceed s)) ∧
  (b < amount o → bc_autoCancel (balanceCheck o) = true →
   bc_autoAdjust (balanceCheck o) = true → 0 < b →
   action = "ADJUST" ∧
   balanceStep e h s =
     (s' ← _cancelOrder e s h "Insufficient balance - auto cancelled"; Ok (Cancelled s'))) ∧
  (b < amount o → bc_autoCancel (balanceCheck o) = false →
   (bc_autoAdjust (balanceCheck o) = false ∨ b ≤ 0) →
   action = "HOLD" ∧
   (bc_autoAdjust (balanceCheck o) = false → balanceStep e h s = Ok (Proceed s)) ∧
   (bc_autoAdjust (balanceCheck o) = true →
    balanceStep e h s = Err (Revert "Invalid new amount"))).
Proof.
  intros o b action Hen. subst action.
  unfold TransparentOrderDemo.determineBalanceAction, balanceStep. cbv zeta.
  fold o. fold b. rewrite Hen.
  split; [|split].
  - intros Hb. destruct (b >=? amount o) eqn:E1; [|lia].
    destruct (b <? amount o) eqn:E2; [lia|]. done.
  - intros Hb Hc Ha Hpos. rewrite Hc, Ha.
    destruct (b >=? amount o) eqn:E1; [lia|].
    destruct (b <? amount o) eqn:E2; [|lia].
    destruct (b >? 0) eqn:E3; [|lia]. done.
  - intros Hb Hc Ha. rewrite Hc.
    destruct (b >=? amount o) eqn:E1; [lia|].
    destruct (b <? amount o) eqn:E2; [|lia].
    split.
    + destruct Ha as [->|Ha]; [done|].
      destruct (b >? 0) eqn:E3; [lia|]. by rewrite andb_false_r.
    + split.
      * intros ->. done.
      * intros Hadj. rewrite Hadj. destruct Ha as [Ha|Ha]; [congruence|].
        by rewrite (proj1 (adjustOrderAmount_rejects e s h b) Ha).
Qed.

Lemma determineBalanceAction_vs_contract_witness :
  TransparentOrderDemo.determineBalanceAction (4 * 10 ^ 19) (6 * 10 ^ 19) true true = "ADJUST".
Proof.
  destruct (determineBalanceAction_vs_contract LedgerScenarios.asTaker
              (getOrderHash (BalanceScenarios.checkedOrder true true))
              (BalanceScenarios.stChecked true true)) as (_ & H & _).
  - vm_compute. reflexivity.
  - destruct H as [H _].
    + vm_compute. reflexivity.
    + vm_compute. reflexivity.
    + vm_compute. reflexivity.
    + vm_compute. reflexivity.
    + etransitivity; [|exact H]. vm_compute. reflexivity.
Defined.

(** X18.  Orders the service builds for the Dogecoin chain cannot be
    created.  For source chain 2 and another target chain the service's
    [handleWrappedToken] takes the wrapped token from its configuration,
    where it is the zero address; [createOrder] requires a non-zero
    wrapped token of every cross-chain order and reverts with "Wrapped
    token required". *)
Theorem createOrder_refuses_dogecoin_orders
    (rpcUrl : string) (e : Env) (o : PublicOrder) (s : State)
    (wt : TransparentOrderService.WrappedToken) :
  sourceChain o = 2 → targetChain o ≠ 2 →
  TransparentOrderService.resolveWrappedToken rpcUrl (makerAsset o)
    (sourceChain o) (targetChain o) = Some wt →
  wt_wrappedToken (wrappedToken o) = TransparentOrderService.wrappedToken wt →
  TransparentOrderService.unwrapAfter wt = true ∧
  TransparentOrderService.bridgeFee wt = 1000000 ∧
  ∃ err, createOrder e o s = Err err ∧
    (guardEntered s = false → user o = msg_sender e → amount o > 0 →
     targetPrice o > 0 → expiry o > block_timestamp e → makerAsset o ≠ takerAsset o →
     err = Revert "Wrapped token required").
Proof.
  intros Hsrc Htgt Hres Hwt.
  unfold TransparentOrderService.resolveWrappedToken,
    TransparentOrderService.handleWrappedToken in Hres.
  rewrite Hsrc in Hres.
  destruct (2 =? targetChain o) eqn:E; [lia|]. simpl negb in Hres. cbv iota in Hres.
  unfold TransparentOrderService.crossChainConfigs in Hres.
  rewrite lookup_insert_ne, lookup_insert_eq in Hres by done.
  change (2 =? 2) with true in Hres. cbv iota in Hres.
  cbn [TransparentOrderService.wrappedTokens] in Hres.
  rewrite lookup_singleton_eq in Hres.
  injection Hres as <-. simpl in Hwt.
  split; [done|]. split; [done|].
  unfold createOrder, nonReentrant.
  destruct (guardEntered s) eqn:Hg.
  { eexists. split; [done|]. done. }
  cbv beta.
  destruct (user o =? msg_sender e) eqn:E1.
  2: { eexists. split; [done|]. lia. }
  destruct (amount o >? 0) eqn:E2.
  2: { eexists. split; [done|]. lia. }
  destruct (targetPrice o >? 0) eqn:E3.
  2: { eexists. split; [done|]. lia. }
  destruct (expiry o >? block_timestamp e) eqn:E4.
  2: { eexists. split; [done|]. lia. }
  destruct (makerAsset o =? takerAsset o) eqn:E5.
  { eexists. split; [done|]. lia. }
  rewrite Hsrc, E, Hwt. eexists. split; [done|]. done.
Qed.

Lemma createOrder_refuses_dogecoin_orders_witness :
  ∃ err, createOrder LedgerScenarios.asAlice CrossChainScenarios.dogeOrder
           LedgerScenarios.genesis = Err err.
Proof.
  destruct (createOrder_refuses_dogecoin_orders "rpc" LedgerScenarios.asAlice
              CrossChainScenarios.dogeOrder LedgerScenarios.genesis
              (TransparentOrderService.mkWrappedToken LedgerScenarios.TOKEN_A 0 true 1000000))
    as (_ & _ & err & H & _).
  - reflexivity.
  - vm_compute. discriminate.
  - vm_compute. reflexivity.
  - reflexivity.
  - exists err. exact H.
Defined.

(** X27.  The analyzer ranks by the second where the contract ranks by
    the minute.  For an order whose priority the contract computes, the
    analyzer's [calculateExecutionPriority], fed the same times in
    milliseconds, yields the contract's priority less the difference
    between the seconds and the whole minutes elapsed; it is never higher,
    and equal only for an order created within the block's second. *)
Theorem analyzer_priority_vs_contract (e : Env) (gas ts amt q : uint256) :
  calculateQueuePosition e gas ts amt = Ok q →
  0 ≤ amt →
  let elapsed := block_timestamp e - ts in
  OrderDataAnalyzer.calculateExecutionPriority (1000 * block_timestamp e) gas (1000 * ts) amt
    = q - (elapsed - elapsed / 60) ∧
  (OrderDataAnalyzer.calculateExecutionPriority (1000 * block_timestamp e) gas (1000 * ts) amt
     = q ↔ elapsed = 0).
Proof.
  intros H Ha elapsed. subst elapsed.
  unfold calculateQueuePosition, GAS_PRIORITY_MULTIPLIER in H.
  destruct (mul gas 100) as [gw|] eqn:H1; [|done]. rewrite bind_Ok in H.
  apply mul_inv in H1 as ->.
  destruct (div amt 1000) as [aw|] eqn:H2; [|done]. rewrite bind_Ok in H.
  apply div_inv in H2 as ->.
  destruct (sub (block_timestamp e) ts) as [el|] eqn:H3; [|done]. rewrite bind_Ok in H.
  apply sub_inv in H3 as [Hts ->].
  destruct (div (block_timestamp e - ts) 60) as [tp|] eqn:H4; [|done]. rewrite bind_Ok in H.
  apply div_inv in H4 as ->.
  destruct (add (gas * 100) (amt / 1000)) as [tot|] eqn:H5; [|done]. rewrite bind_Ok in H.
  apply add_inv in H5 as ->. apply sub_inv in H as [_ ->].
  unfold OrderDataAnalyzer.calculateExecutionPriority. cbv zeta.
  replace (1000 * block_timestamp e - 1000 * ts) with ((block_timestamp e - ts) * 1000) by lia.
  rewrite Z.quot_mul by lia. rewrite Z.quot_div_nonneg by lia.
  set (d := block_timestamp e - ts) in *.
  assert (0 ≤ d) by lia. clearbody d.
  assert (d / 60 ≤ d) by (apply Z.div_le_upper_bound; lia).
  split; [lia|]. split.
  - intros Heq. assert (d = d / 60) as Hd by lia.
    destruct (decide (d = 0)) as [|Hne]; [done|].
    assert (d / 60 < d) by (apply Z.div_lt; lia). lia.
  - intros ->. rewrite Z.div_0_l by lia. lia.
Qed.

Lemma analyzer_priority_vs_contract_witness :
  OrderDataAnalyzer.calculateExecutionPriority 1000000 50 940000 5000 = 5004 - (60 - 1).
Proof.
  destruct (analyzer_priority_vs_contract LedgerScenarios.asAlice 50 940 5000 5004) as [H _].
  - vm_compute. reflexivity.
  - lia.
  - exact H.
Defined.

(** X28.  The analyzer's price check is the contract's at a tolerance of
    10 percent, on the target price alone.  For an order judged at 10
    percent, the analyzer given only the (non-zero) target price returns
    what the contract's [checkPriceProtection] returns; given both
    amounts it ignores the target price and judges the truncated quotient
    of the amounts instead, and it throws when the making amount is
    zero. *)
Theorem analyzer_check_vs_contract (s : State) (o : PublicOrder) (p : uint256) :
  effectiveTolerance s o = 10 → 0 ≤ p → p * 110 ≤ MAX_UINT256 →
  (targetPrice o ≠ 0 →
   ∃ b, checkPriceProtection s o p = Ok b ∧
        OrderDataAnalyzer.checkPriceProtection None None (Some (targetPrice o)) p = Some b) ∧
  (∀ taking making, making ≠ 0 →
     OrderDataAnalyzer.checkPriceProtection (Some taking) (Some making)
       (Some (targetPrice o)) p
     = Some (TransparentOrderDemo.checkPriceProtection (taking ÷ making) p 10)) ∧
  (∀ taking, OrderDataAnalyzer.checkPriceProtection (Some taking) (Some 0)
               (Some (targetPrice o)) p = None).
Proof.
  intros Htol Hp Hfit. split; [|split].
  - intros Ht. eexists. split.
    + rewrite checkPriceProtection_computes by (rewrite ?Htol; lia). rewrite Htol. done.
    + unfold OrderDataAnalyzer.checkPriceProtection.
      destruct (targetPrice o =? 0) eqn:E; [lia|].
      rewrite !Z.quot_div_nonneg by lia. done.
  - intros taking making Hm. unfold OrderDataAnalyzer.checkPriceProtection.
    destruct (making =? 0) eqn:E; [lia|]. done.
  - intros taking. done.
Qed.

Lemma analyzer_check_vs_contract_witness :
  checkPriceProtection LedgerScenarios.stProtected LedgerScenarios.aliceProtected 14 = Ok true.
Proof.
  destruct (analyzer_check_vs_contract LedgerScenarios.stProtected
              LedgerScenarios.aliceProtected 14) as (H & _).
  - vm_compute. reflexivity.
  - lia.
  - vm_compute. discriminate.
  - destruct H as (b & Hc & Ha); [vm_compute; discriminate|].
    rewrite Hc. f_equal. apply (inj Some). rewrite <- Ha. vm_compute. reflexivity.
Defined.

Lemma setGlobalTolerance_range_witness :
  ∃ s', setGlobalTolerance LedgerScenarios.genesis 25 = Ok s' ∧
        globalTolerancePercent s' = 25.
Proof.
  destruct (setGlobalTolerance_range LedgerScenarios.genesis 25) as (H & _).
  destruct H as (s' & Hs & Hg & _); [lia|].
  exists s'. split; [exact Hs|exact Hg].
Defined.

End DemoAndService.

(** ** The oracle: registration, refresh and administration *)

Section OracleOperations.
Import PriceProtectionOracle OracleSpec.

Lemma pairIdOf_inj b q b' q' : pairIdOf b q = pairIdOf b' q' → b = b' ∧ q = q'.
Proof.
  unfold pairIdOf. intros H. injection H as H. apply (inj encode) in H.
  by injection H as -> ->.
Qed.

(** X19.  Registration.  [addPriceFeed] of two different tokens with a
    non-zero primary aggregator succeeds; it leaves every other pair as it
    was, appends the pair to the active array (a second time, if it was
    registered before), marks both tokens as supported without adding them
    to [monitoredTokens], switches the secondary feed on exactly when its
    address is non-zero, and starts with an empty cache.  For a non-zero
    base token the pair can be priced from then on: a reading the primary
    feed serves is served by [getCurrentPrice], and with no live feed the
    result is invalid, whatever was cached for the pair before.  With the
    zero address as base token the registration succeeds all the same, but
    every lookup of the pair reverts with "Pair not found"; and the pair
    in the opposite direction has another identifier. *)
Theorem addPriceFeed_registers (c : Contract)
    (base quote primaryOracle secondaryOracle : address) (hb : uint256) (inverted : bool) :
  base ≠ quote → primaryOracle ≠ 0 →
  let id := pairIdOf base quote in
  let primary := mkPriceFeed primaryOracle hb 500 true inverted in
  ∃ c', addPriceFeed c base quote primaryOracle secondaryOracle hb inverted = Ok c' ∧
    primaryFeed (pairOf (store c') id) = primary ∧
    (isActive (secondaryFeed (pairOf (store c') id)) = true ↔ secondaryOracle ≠ 0) ∧
    lastValidPrice (pairOf (store c') id) = 0 ∧
    (∀ id', id' ≠ id → pairOf (store c') id' = pairOf (store c) id') ∧
    pairIdOf quote base ≠ id ∧
    activePairs (store c') = activePairs (store c) ++ [id] ∧
    isTokenSupported c' base = true ∧ isTokenSupported c' quote = true ∧
    (∀ t, t ≠ base → t ≠ quote → isTokenSupported c' t = isTokenSupported c t) ∧
    monitoredTokens c' = monitoredTokens c ∧
    (∀ e, emergencyPaused (store c) = false →
       (base = 0 → getCurrentPrice e (store c') base quote = Err (Revert "Pair not found")) ∧
       (base ≠ 0 → ∀ p, _getPriceFromFeed e primary = Ok (p, true) →
          getCurrentPrice e (store c') base quote = Ok (p, true)) ∧
       (base ≠ 0 → secondaryOracle = 0 → _getPriceFromFeed e primary = Ok (0, false) →
          getCurrentPrice e (store c') base quote = Ok (0, false))).
Proof.
  intros Hne Hp id primary. unfold addPriceFeed.
  destruct (base =? quote) eqn:E1; [lia|].
  destruct (primaryOracle =? 0) eqn:E2; [lia|].
  simpl negb. rewrite !require_true, !bind_Ok. cbv zeta. fold id. fold primary.
  eexists. split; [done|].
  set (pair := mkTokenPair base quote id primary _ 0 0).
  set (c' := mkContract _ _ _ _).
  assert (pairOf (store c') id = pair) as Hpair.
  { unfold pairOf. simpl. by rewrite lookup_insert_eq. }
  rewrite Hpair.
  split; [done|].
  split. { simpl. destruct (secondaryOracle =? 0) eqn:E3; simpl; split; (done || lia). }
  split; [done|].
  split. { intros id' Hid. unfold pairOf. simpl. by rewrite lookup_insert_ne. }
  split. { intros Heq. apply pairIdOf_inj in Heq as [-> _]. done. }
  split; [done|].
  split. { unfold isTokenSupported. simpl.
           destruct (decide (quote = base)) as [->|Hqb]; [done|].
           by rewrite lookup_insert_ne, lookup_insert_eq. }
  split. { unfold isTokenSupported. simpl. by rewrite lookup_insert_eq. }
  split. { intros t H1 H2. unfold isTokenSupported. simpl.
           by rewrite !lookup_insert_ne. }
  split; [done|].
  intros e Hpause. rewrite getCurrentPrice_paused.
  change (emergencyPaused (store c')) with (emergencyPaused (store c)). rewrite Hpause.
  fold id. split; [|split].
  - intros H0. unfold _getCurrentPriceInternal. rewrite Hpair. simpl.
    destruct (base =? 0) eqn:E; [done|lia].
  - intros H0 p Hfeed. apply getCurrentPrice_primary; rewrite Hpair; done.
  - intros H0 Hs Hfeed.
    rewrite getCurrentPriceInternal_unfold by (by rewrite Hpair).
    rewrite Hpair. cbn [primaryFeed secondaryFeed lastValidPrice isActive pair].
    fold primary. rewrite Hfeed, bind_Ok.
    destruct (secondaryOracle =? 0) eqn:E; [|lia]. done.
Qed.

Lemma addPriceFeed_registers_witness :
  ∃ c', addPriceFeed (RefreshScenarios.oracleAt OracleScenarios.stOneFeed)
          OracleScenarios.USDC OracleScenarios.WETH OracleScenarios.feedB 0 3600 true = Ok c' ∧
        isTokenSupported c' OracleScenarios.USDC = true.
Proof.
  destruct (addPriceFeed_registers (RefreshScenarios.oracleAt OracleScenarios.stOneFeed)
              OracleScenarios.USDC OracleScenarios.WETH OracleScenarios.feedB 0 3600 true)
    as (c' & Hc & _ & _ & _ & _ & _ & _ & Hs & _).
  - vm_compute. discriminate.
  - vm_compute. discriminate.
  - exists c'. split; [exact Hc|exact Hs].
Defined.

(** *** Refresh *)

(** What [_updatePriceForPair] writes. *)
Lemma updatePriceForPair_spec e s id p valid :
  _getCurrentPriceInternal e s id = Ok (p, valid) →
  ∃ s', _updatePriceForPair e s id = Ok s' ∧
    (valid = false → s' = s) ∧
    (valid = true →
       pairOf s' id =
         mkTokenPair (baseToken (pairOf s id)) (quoteToken (pairOf s id)) (pairId (pairOf s id))
           (primaryFeed (pairOf s id)) (secondaryFeed (pairOf s id)) p (block_timestamp e) ∧
       priceHistory s' !! id = Some (mkPriceData p (block_timestamp e) 0 true) ∧
       (∀ id', id' ≠ id → pairOf s' id' = pairOf s id' ∧
                          priceHistory s' !! id' = priceHistory s !! id')) ∧
    activePairs s' = activePairs s ∧
    tokenTolerances s' = tokenTolerances s ∧
    globalTolerancePercent s' = globalTolerancePercent s ∧
    priceUpdateInterval s' = priceUpdateInterval s ∧
    maxPriceAge s' = maxPriceAge s ∧
    emergencyPaused s' = emergencyPaused s.
Proof.
  intros H. unfold _updatePriceForPair. cbv zeta. rewrite H, bind_Ok.
  destruct valid.
  - eexists. split; [done|]. split; [done|]. split; [|done].
    intros _. unfold pairOf, setHistory, setPair. simpl.
    rewrite !lookup_insert_eq. split; [done|]. split; [done|].
    intros id' Hne. by rewrite !lookup_insert_ne.
  - exists s. split; [done|]. split; [done|]. split; [done|]. done.
Qed.

(** X20.  [forceUpdatePrice] records what the lookup returns, paused or
    not.  When the lookup of the pair yields a valid price, the call
    stores it with the block time in the pair's cache and in its history
    entry, which [getHistoricalPrice] then returns, and it touches no
    other pair; when the lookup yields no valid price the call succeeds
    and changes nothing.  The pause switch is not consulted, and the guard
    is released at the end. *)
Theorem forceUpdatePrice_records (e : Env) (c : Contract) (base quote : address)
    (p : uint256) (valid : bool) :
  entered c = false →
  _getCurrentPriceInternal e (store c) (pairIdOf base quote) = Ok (p, valid) →
  ∃ c', forceUpdatePrice e c base quote = Ok c' ∧
    entered c' = false ∧
    supportedTokens c' = supportedTokens c ∧
    emergencyPaused (store c') = emergencyPaused (store c) ∧
    (valid = false → c' = c) ∧
    (valid = true →
       lastValidPrice (pairOf (store c') (pairIdOf base quote)) = p ∧
       lastUpdateTime (pairOf (store c') (pairIdOf base quote)) = block_timestamp e ∧
       getHistoricalPrice (store c') base quote = mkPriceData p (block_timestamp e) 0 true ∧
       (∀ b q, pairIdOf b q ≠ pairIdOf base quote →
          pairOf (store c') (pairIdOf b q) = pairOf (store c) (pairIdOf b q) ∧
          getHistoricalPrice (store c') b q = getHistoricalPrice (store c) b q)).
Proof.
  intros Hent H. unfold forceUpdatePrice, guarded. rewrite Hent. cbv beta.
  change (store (mkContract (store c) ?a ?b ?d)) with (store c).
  destruct (updatePriceForPair_spec _ _ _ _ _ H)
    as (s' & -> & Hinv & Hval & _ & _ & _ & _ & _ & Hpause).
  rewrite !bind_Ok. eexists. split; [done|].
  split; [done|]. split; [done|]. split; [exact Hpause|].
  split.
  - intros Hv. rewrite (Hinv Hv). destruct c as [st sup mon ent].
    simpl in Hent. subst ent. done.
  - intros Hv. destruct (Hval Hv) as (Hpair & Hhist & Hothers).
    change (store (mkContract (store (withStore ?x s')) ?a ?b ?d)) with s'.
    rewrite Hpair. split; [done|]. split; [done|].
    unfold getHistoricalPrice. rewrite Hhist. split; [done|].
    intros b q Hne. destruct (Hothers _ Hne) as [-> ->]. done.
Qed.

Lemma forceUpdatePrice_records_witness :
  ∃ c', forceUpdatePrice OracleScenarios.envThousand
          (RefreshScenarios.oracleAt OracleScenarios.stOneFeed)
          OracleScenarios.WETH OracleScenarios.USDC = Ok c' ∧
        getHistoricalPrice (store c') OracleScenarios.WETH OracleScenarios.USDC
          = mkPriceData (1000 * 10 ^ 18) 10000 0 true.
Proof.
  destruct (forceUpdatePrice_records OracleScenarios.envThousand
              (RefreshScenarios.oracleAt OracleScenarios.stOneFeed)
              OracleScenarios.WETH OracleScenarios.USDC (1000 * 10 ^ 18) true)
    as (c' & Hc & _ & _ & _ & _ & H).
  - reflexivity.
  - vm_compute. reflexivity.
  - exists c'. split; [exact Hc|].
    destruct (H eq_refl) as (_ & _ & Hh & _). exact Hh.
Defined.



(** *** Administration *)

(** X22.  The emergency price is a cache entry, not an override.  After
    [emergencySetPrice] a reading the primary feed serves is still what
    the lookup returns; the price set by the owner is served only while
    both feeds are rejected, only if it is positive, and only until it is
    older than [maxPriceAge].  On a pair that was never registered the
    call stores the price, but the lookup keeps reverting with "Pair not
    found". *)
Theorem emergencySetPrice_served (e e2 : Env) (s : State) (base quote : address)
    (price : uint256) :
  let id := pairIdOf base quote in
  let s' := emergencySetPrice e s base quote price in
  lastValidPrice (pairOf s' id) = price ∧
  (baseToken (pairOf s id) = 0 →
   _getCurrentPriceInternal e2 s' id = Err (Revert "Pair not found")) ∧
  (baseToken (pairOf s id) ≠ 0 →
   (∀ p, _getPriceFromFeed e2 (primaryFeed (pairOf s id)) = Ok (p, true) →
      _getCurrentPriceInternal e2 s' id = Ok (p, true)) ∧
   (_getPriceFromFeed e2 (primaryFeed (pairOf s id)) = Ok (0, false) →
    isActive (secondaryFeed (pairOf s id)) = false ∨
      _getPriceFromFeed e2 (secondaryFeed (pairOf s id)) = Ok (0, false) →
    block_timestamp e ≤ block_timestamp e2 →
    _getCurrentPriceInternal e2 s' id =
      if (price >? 0) && (block_timestamp e2 - block_timestamp e <=? maxPriceAge s)
      then Ok (price, true) else Ok (0, false))).
Proof.
  intros id s'.
  assert (pairOf s' id =
            mkTokenPair (baseToken (pairOf s id)) (quoteToken (pairOf s id))
              (pairId (pairOf s id)) (primaryFeed (pairOf s id))
              (secondaryFeed (pairOf s id)) price (block_timestamp e)) as Hpair.
  { subst s'. unfold emergencySetPrice, setPair, pairOf. simpl.
    by rewrite lookup_insert_eq. }
  split. { by rewrite Hpair. }
  split.
  - intros H0. unfold _getCurrentPriceInternal. rewrite Hpair. simpl. rewrite H0. done.
  - intros Hb. split.
    + intros p Hp. apply getCurrentPrice_primary; rewrite Hpair; done.
    + intros Hp Hs Hle.
      rewrite (getCurrentPrice_cache e2 s' id 0).
      * rewrite Hpair. done.
      * rewrite Hpair. done.
      * rewrite Hpair. done.
      * rewrite Hpair. destruct Hs as [Hs|Hs]; [by left|right; by exists 0].
      * rewrite Hpair. done.
Qed.

(** X23.  What the pause stops.  Pausing makes [getCurrentPrice] and
    [updateAllPrices] revert with "Price oracle paused"; it does not reach
    [validateOrderPrice], which returns exactly what it returned before
    the pause, nor [forceUpdatePrice]; and toggling twice restores the
    state. *)
Theorem emergency_pause_scope (e : Env) (c : Contract) (base quote : address)
    (price tol : uint256) :
  emergencyPaused (store c) = false → entered c = false →
  let paused := withStore c (toggleEmergencyPause (store c)) in
  getCurrentPrice e (store paused) base quote = Err (Revert "Price oracle paused") ∧
  updateAllPrices e paused = Err (Revert "Price oracle paused") ∧
  validateOrderPrice e (store paused) base quote price tol
    = validateOrderPrice e (store c) base quote price tol ∧
  _updatePriceForPair e (store paused) (pairIdOf base quote)
    = toggleEmergencyPause <$> _updatePriceForPair e (store c) (pairIdOf base quote) ∧
  toggleEmergencyPause (store paused) = store c.
Proof.
  intros Hp Hent paused. subst paused.
  split. { rewrite getCurrentPrice_paused. simpl. by rewrite Hp. }
  split. { unfold updateAllPrices, guarded. simpl. rewrite Hent. simpl. by rewrite Hp. }
  split; [done|].
  split.
  { unfold _updatePriceForPair. cbv zeta. simpl store.
    change (_getCurrentPriceInternal e (toggleEmergencyPause (store c)))
      with (_getCurrentPriceInternal e (store c)).
    destruct (_getCurrentPriceInternal e (store c) (pairIdOf base quote))
      as [[p [|]]|]; done. }
  simpl. destruct (store c) as [a b d f g i j k]. simpl in *. subst k. done.
Qed.

Lemma emergency_pause_scope_witness :
  getCurrentPrice OracleScenarios.envThousand
    (toggleEmergencyPause OracleScenarios.stOneFeed) OracleScenarios.WETH OracleScenarios.USDC
  = Err (Revert "Price oracle paused").
Proof.
  destruct (emergency_pause_scope OracleScenarios.envThousand
              (RefreshScenarios.oracleAt OracleScenarios.stOneFeed)
              OracleScenarios.WETH OracleScenarios.USDC 1 0) as (H & _).
  - reflexivity.
  - reflexivity.
  - exact H.
Defined.

Lemma emergencySetPrice_served_witness :
  lastValidPrice
    (pairOf (emergencySetPrice OracleScenarios.envThousand OracleScenarios.stOneFeed
               OracleScenarios.WETH OracleScenarios.USDC 5)
       (pairIdOf OracleScenarios.WETH OracleScenarios.USDC)) = 5.
Proof.
  exact (proj1 (emergencySetPrice_served OracleScenarios.envThousand
                  OracleScenarios.envThousand OracleScenarios.stOneFeed
                  OracleScenarios.WETH OracleScenarios.USDC 5)).
Defined.

(** *** [updateAllPrices] *)

Lemma shouldUpdatePrice_Ok e s id :
  lastUpdateTime (pairOf s id) ≤ block_timestamp e →
  _shouldUpdatePrice e s id =
    Ok (block_timestamp e - lastUpdateTime (pairOf s id) >=? priceUpdateInterval s).
Proof. intros H. unfold _shouldUpdatePrice. by rewrite sub_Ok, bind_Ok. Qed.

Lemma updateEach_none_due e ids s n :
  (∀ id, id ∈ ids →
     lastUpdateTime (pairOf s id) ≤ block_timestamp e ∧
     block_timestamp e - lastUpdateTime (pairOf s id) < priceUpdateInterval s) →
  updateEach e ids s n = Ok (s, n).
Proof.
  induction ids as [|id ids IH]; intros H; simpl; [done|].
  destruct (H id) as [Hle Hnot]; [left|].
  rewrite shouldUpdatePrice_Ok, bind_Ok by done.
  destruct (_ >=? _) eqn:E; [lia|].
  apply IH. intros id' Hin. apply H. by right.
Qed.

Lemma updateEach_no_valid_price e ids s n :
  (∀ id, id ∈ ids →
     lastUpdateTime (pairOf s id) ≤ block_timestamp e ∧
     ∃ p, _getCurrentPriceInternal e s id = Ok (p, false)) →
  n + Z.of_nat (length ids) ≤ MAX_UINT256 →
  ∃ k, updateEach e ids s n = Ok (s, n + k) ∧ 0 ≤ k ∧
       ((∃ id, id ∈ ids ∧
           priceUpdateInterval s ≤ block_timestamp e - lastUpdateTime (pairOf s id)) →
        0 < k).
Proof.
  revert n. induction ids as [|id ids IH]; intros n H Hfit; simpl.
  - exists 0. split; [by rewrite Z.add_0_r|]. split; [done|].
    intros (id & Hin & _). by apply elem_of_nil in Hin.
  - destruct (H id) as [Hle [p Hp]]; [left|].
    rewrite shouldUpdatePrice_Ok, bind_Ok by done.
    simpl length in Hfit.
    assert (∀ id', id' ∈ ids →
              lastUpdateTime (pairOf s id') ≤ block_timestamp e ∧
              ∃ p, _getCurrentPriceInternal e s id' = Ok (p, false)) as H'.
    { intros id' Hin. apply H. by right. }
    destruct (_ >=? _) eqn:E.
    + destruct (updatePriceForPair_spec _ _ _ _ _ Hp) as (s' & -> & Hsame & _).
      rewrite (Hsame eq_refl), bind_Ok.
      rewrite (add_Ok n 1), bind_Ok by lia.
      destruct (IH (n + 1) H') as (k & -> & Hk & _); [lia|].
      exists (1 + k). split; [f_equal; f_equal; lia|]. split; lia.
    + destruct (IH n H') as (k & -> & Hk & Hpos); [lia|].
      exists k. split; [done|]. split; [done|].
      intros (id' & Hin & Hdue). apply Hpos.
      apply elem_of_cons in Hin as [->|Hin]; [lia|]. by exists id'.
Qed.

(** X24.  [updateAllPrices] counts the pairs that were due, not the
    prices it stored.  When no active pair is due it reverts with "No
    prices needed updating".  When some pair is due but no pair has a
    valid price to offer, it succeeds and leaves the contract exactly as
    it was: no cache entry and no time stamp is written, so the same pairs
    are due again at the next call. *)
Theorem updateAllPrices_counts_due_pairs (e : Env) (c : Contract) :
  let s := store c in
  entered c = false → emergencyPaused s = false →
  (∀ id, id ∈ activePairs s → lastUpdateTime (pairOf s id) ≤ block_timestamp e) →
  ((∀ id, id ∈ activePairs s →
      block_timestamp e - lastUpdateTime (pairOf s id) < priceUpdateInterval s) →
   updateAllPrices e c = Err (Revert "No prices needed updating")) ∧
  ((∃ id, id ∈ activePairs s ∧
      priceUpdateInterval s ≤ block_timestamp e - lastUpdateTime (pairOf s id)) →
   (∀ id, id ∈ activePairs s → ∃ p, _getCurrentPriceInternal e s id = Ok (p, false)) →
   Z.of_nat (length (activePairs s)) ≤ MAX_UINT256 →
   updateAllPrices e c = Ok c).
Proof.
  intros s Hent Hpause Hle. subst s.
  unfold updateAllPrices, guarded. rewrite Hent. cbv beta.
  change (store (mkContract (store c) ?a ?b ?d)) with (store c).
  rewrite Hpause. simpl negb. rewrite require_true, bind_Ok. split.
  - intros Hnone. rewrite updateEach_none_due; [done|].
    intros id Hin. split; [by apply Hle|by apply Hnone].
  - intros Hdue Hinvalid Hfit.
    destruct (updateEach_no_valid_price e (activePairs (store c)) (store c) 0)
      as (k & -> & Hk & Hpos).
    { intros id Hin. split; [by apply Hle|by apply Hinvalid]. }
    { lia. }
    rewrite Z.add_0_l, bind_Ok. cbv beta iota.
    destruct (k >? 0) eqn:E; [|specialize (Hpos Hdue); lia].
    rewrite require_true, !bind_Ok.
    destruct c as [st sup mon ent]. simpl in Hent. subst ent. done.
Qed.

Lemma updateAllPrices_counts_due_pairs_witness :
  updateAllPrices (RefreshScenarios.envDead 10100)
    (RefreshScenarios.oracleAt RefreshScenarios.stCached)
  = Err (Revert "No prices needed updating").
Proof.
  destruct (updateAllPrices_counts_due_pairs (RefreshScenarios.envDead 10100)
              (RefreshScenarios.oracleAt RefreshScenarios.stCached)) as (H & _).
  - reflexivity.
  - reflexivity.
  - intros id Hin.
    change (id ∈ [pairIdOf OracleScenarios.WETH OracleScenarios.USDC]) in Hin.
    apply list_elem_of_singleton in Hin as ->. vm_compute. discriminate.
  - apply H. intros id Hin.
    change (id ∈ [pairIdOf OracleScenarios.WETH OracleScenarios.USDC]) in Hin.
    apply list_elem_of_singleton in Hin as ->. vm_compute. reflexivity.
Defined.

(** *** Validation *)

(** What a returned validation says. *)
Lemma validateOrderPrice_inv e s base quote price custom v :
  validateOrderPrice e s base quote price custom = Ok v →
  let tol := if custom >? 0 then custom else _getDefaultTolerance s base in
  price > 0 ∧
  _getCurrentPriceInternal e s (pairIdOf base quote) = Ok (marketPrice v, true) ∧
  marketPrice v ≠ 0 ∧ tol ≤ MAX_DEVIATION ∧ orderPrice v = price ∧
  withinTolerance v =
    (specLowerBound (marketPrice v) tol <=? price) &&
    (price <=? specUpperBound (marketPrice v) tol) ∧
  deviation v = specDeviation price (marketPrice v).
Proof.
  unfold validateOrderPrice. cbv zeta.
  generalize (if custom >? 0 then custom else _getDefaultTolerance s base). intros tol.
  destruct (price >? 0) eqn:E0; [|done]. rewrite require_true, bind_Ok.
  destruct (_getCurrentPriceInternal e s (pairIdOf base quote)) as [[m valid]|]; [|done].
  rewrite bind_Ok. destruct valid; [|done]. rewrite require_true, bind_Ok.
  destruct (tol <=? MAX_DEVIATION) eqn:E1; [|done]. rewrite require_true, bind_Ok.
  destruct (sub BASIS_POINTS tol) as [lo|] eqn:H1; [|done]. rewrite bind_Ok.
  apply sub_inv in H1 as [_ ->].
  destruct (mul m _) as [lp|] eqn:H2; [|done]. rewrite bind_Ok. apply mul_inv in H2 as ->.
  destruct (div _ BASIS_POINTS) as [lb|] eqn:H3; [|done]. rewrite bind_Ok.
  apply div_inv in H3 as ->.
  destruct (add BASIS_POINTS tol) as [hi|] eqn:H4; [|done]. rewrite bind_Ok.
  apply add_inv in H4 as ->.
  destruct (mul m _) as [hp|] eqn:H5; [|done]. rewrite bind_Ok. apply mul_inv in H5 as ->.
  destruct (div _ BASIS_POINTS) as [ub|] eqn:H6; [|done]. rewrite bind_Ok.
  apply div_inv in H6 as ->.
  assert (∀ d, (m ≠ 0 ∧ div d m = Ok (d / m)) ∨ (m = 0 ∧ div d m = Err Panic)) as Hdiv.
  { intros d. unfold div.
    destruct (m =? 0) eqn:E; [right; split; [lia|done]|left; split; [lia|done]]. }
  unfold specLowerBound, specUpperBound, specDeviation.
  destruct (price >? m) eqn:E2.
  - destruct (sub price m) as [d|] eqn:H7; [|done]. rewrite bind_Ok.
    apply sub_inv in H7 as [_ ->].
    destruct (mul _ BASIS_POINTS) as [dp|] eqn:H8; [|done]. rewrite bind_Ok.
    apply mul_inv in H8 as ->.
    destruct (Hdiv ((price - m) * BASIS_POINTS)) as [[Hm0 ->]|[Hm0 ->]]; [|done].
    rewrite bind_Ok. intros [= <-]. simpl.
    split; [lia|]. split; [done|].
    split; [done|].
    split; [lia|]. split; [done|]. split; [done|].
    by rewrite Z.abs_eq by lia.
  - destruct (sub m price) as [d|] eqn:H7; [|done]. rewrite bind_Ok.
    apply sub_inv in H7 as [_ ->].
    destruct (mul _ BASIS_POINTS) as [dp|] eqn:H8; [|done]. rewrite bind_Ok.
    apply mul_inv in H8 as ->.
    destruct (Hdiv ((m - price) * BASIS_POINTS)) as [[Hm0 ->]|[Hm0 ->]]; [|done].
    rewrite bind_Ok. intros [= <-]. simpl.
    split; [lia|]. split; [done|].
    split; [done|].
    split; [lia|]. split; [done|]. split; [done|].
    rewrite Z.abs_neq by lia. f_equal. lia.
Qed.

(** X25.  The verdict is monotone in the tolerance, and on the upper side
    it agrees with the reported deviation.  Of two validations of the same
    order price that differ only in the call-supplied tolerance, both
    report the same market price and deviation, and the one with the wider
    tolerance accepts whatever the other accepts; and an accepted price at
    or above the market has a deviation within the tolerance used. *)
Theorem validateOrderPrice_monotone (e : Env) (s : State) (base quote : address)
    (price t1 t2 : uint256) (v1 v2 : PriceValidation) :
  validateOrderPrice e s base quote price t1 = Ok v1 →
  validateOrderPrice e s base quote price t2 = Ok v2 →
  0 < t1 ≤ t2 → 0 < marketPrice v1 →
  marketPrice v2 = marketPrice v1 ∧ deviation v2 = deviation v1 ∧
  (withinTolerance v1 = true → withinTolerance v2 = true) ∧
  (withinTolerance v1 = true → marketPrice v1 ≤ price → deviation v1 ≤ t1).
Proof.
  intros H1 H2 Ht Hm.
  apply validateOrderPrice_inv in H1 as (_ & Hi1 & _ & _ & _ & Hw1 & Hd1).
  apply validateOrderPrice_inv in H2 as (_ & Hi2 & _ & _ & _ & Hw2 & Hd2).
  rewrite Hi1 in Hi2. injection Hi2 as Hmeq.
  destruct (t1 >? 0) eqn:E1; [|lia]. destruct (t2 >? 0) eqn:E2; [|lia].
  rewrite <- Hmeq in Hw2, Hd2.
  split; [done|]. split; [by rewrite Hd1, Hd2|].
  unfold specLowerBound, specUpperBound, specDeviation, BASIS_POINTS in *.
  set (m := marketPrice v1) in *.
  split.
  - rewrite Hw1, Hw2. intros Hin. apply andb_true_iff in Hin as [Hlo Hhi].
    apply andb_true_intro. split.
    + assert (m * (10000 - t2) / 10000 ≤ m * (10000 - t1) / 10000)
        by (apply Z.div_le_mono; nia).
      lia.
    + assert (m * (10000 + t1) / 10000 ≤ m * (10000 + t2) / 10000)
        by (apply Z.div_le_mono; nia).
      lia.
  - rewrite Hw1, Hd1. intros Hin Hge. apply andb_true_iff in Hin as [_ Hhi].
    rewrite Z.abs_eq by lia.
    pose proof (Z.mul_div_le (m * (10000 + t1)) 10000 ltac:(lia)) as Hfloor.
    apply Z.div_le_upper_bound; [lia|]. nia.
Qed.

Lemma validateOrderPrice_monotone_witness :
  deviation (mkPriceValidation true (1050 * 10 ^ 18) (1000 * 10 ^ 18) 500 "WITHIN_TOLERANCE")
    ≤ 600.
Proof.
  destruct (validateOrderPrice_monotone OracleScenarios.envThousand OracleScenarios.stOneFeed
              OracleScenarios.WETH OracleScenarios.USDC (1050 * 10 ^ 18) 600 1000
              (mkPriceValidation true (1050 * 10 ^ 18) (1000 * 10 ^ 18) 500 "WITHIN_TOLERANCE")
              (mkPriceValidation true (1050 * 10 ^ 18) (1000 * 10 ^ 18) 500 "WITHIN_TOLERANCE"))
    as (_ & _ & _ & H).
  - vm_compute. reflexivity.
  - vm_compute. reflexivity.
  - lia.
  - vm_compute. reflexivity.
  - apply H; [reflexivity|]. vm_compute. discriminate.
Defined.

(** X26.  A per-token tolerance acts like a call-supplied one.
    [setTokenTolerance] accepts exactly the values from 1 to 2000 basis
    points.  Afterwards a validation of an order on that base token
    without a call-supplied tolerance returns what a validation with the
    value as call-supplied tolerance returned before, validations on other
    base tokens or with a call-supplied tolerance are unaffected, and
    [getToleranceForToken] reports the value for the token and what it
    reported before for every other token. *)
Theorem setTokenTolerance_scope (s : State) (token : address) (t : uint256) :
  (0 < t ≤ 2000 →
   ∃ s', setTokenTolerance s token t = Ok s' ∧
     getToleranceForToken s' token = t ∧
     (∀ other, other ≠ token →
        getToleranceForToken s' other = getToleranceForToken s other) ∧
     (∀ e quote price,
        validateOrderPrice e s' token quote price 0
          = validateOrderPrice e s token quote price t) ∧
     (∀ e base quote price custom, base ≠ token ∨ custom > 0 →
        validateOrderPrice e s' base quote price custom
          = validateOrderPrice e s base quote price custom)) ∧
  (t ≤ 0 → setTokenTolerance s token t = Err (Revert "Tolerance must be positive")) ∧
  (2000 < t → setTokenTolerance s token t = Err (Revert "Tolerance too high")).
Proof.
  unfold setTokenTolerance, MAX_DEVIATION. split; [|split].
  - intros Ht.
    destruct (t <=? 2000) eqn:E1; [|lia]. destruct (t >? 0) eqn:E2; [|lia].
    rewrite !require_true, !bind_Ok. eexists. split; [done|].
    set (s' := mkState _ _ _ _ _ _ _ _).
    assert (toleranceOf s' token = t) as Htok.
    { unfold toleranceOf. simpl. by rewrite lookup_insert_eq. }
    assert (∀ other, other ≠ token → toleranceOf s' other = toleranceOf s other) as Hother.
    { intros other Hne. unfold toleranceOf. simpl. by rewrite lookup_insert_ne. }
    split. { unfold getToleranceForToken. rewrite Htok, E2. done. }
    split. { intros other Hne. unfold getToleranceForToken. by rewrite Hother. }
    split.
    + intros e quote price. unfold validateOrderPrice, _getDefaultTolerance.
      change (_getCurrentPriceInternal e s') with (_getCurrentPriceInternal e s).
      rewrite Htok, E2. done.
    + intros e base quote price custom Hc.
      unfold validateOrderPrice, _getDefaultTolerance.
      change (_getCurrentPriceInternal e s') with (_getCurrentPriceInternal e s).
      destruct Hc as [Hne|Hc].
      * by rewrite Hother.
      * destruct (custom >? 0) eqn:E3; [done|lia].
  - intros Ht. destruct (t <=? 2000) eqn:E1; [|lia]. destruct (t >? 0) eqn:E2; [lia|].
    done.
  - intros Ht. destruct (t <=? 2000) eqn:E1; [lia|]. done.
Qed.

Lemma setTokenTolerance_scope_witness :
  ∃ s', setTokenTolerance OracleScenarios.stOneFeed OracleScenarios.WETH 700 = Ok s' ∧
        getToleranceForToken s' OracleScenarios.WETH = 700.
Proof.
  destruct (setTokenTolerance_scope OracleScenarios.stOneFeed OracleScenarios.WETH 700)
    as (H & _).
  destruct H as (s' & Hs & Hg & _); [lia|].
  exists s'. split; [exact Hs|exact Hg].
Defined.

End OracleOperations.
